(** * FRESCO HPC pipeline: a shallow embedding of the Conte ETL stages

    This development models the parts of the Conte pipeline that the
    specification of the repository makes claims about:

    - [step-1/hpc_transformer.py]: the downloader ([FileDownloader]) and
      the block / cpu transformers;
    - [step-2/consumer.py]: the join/aggregate engine ([process_chunk],
      [process_ts_file_in_parallel]) with its string helpers;
    - [step-2/utils/ready_signal_creator.py]: the signal manager;
    - [step-2/receiver.py] and [step-3/receiver.py]: the stage movers;
    - [step-3/consumer.py]: the final column clean-up.

    Conventions.  Python strings are [string]s of bytes (the data handled
    here is ASCII).  Floating point columns are modelled by exact
    rationals ([Q]); timestamps are integers (seconds since the epoch).
    Files live in a finite map from path names to file records.
    Exceptions are values of a small error type. *)

From stdpp Require Import gmap strings list fin_maps.
From Stdlib Require Import ZArith QArith Qminmax Ascii String List Lia.
From Stdlib Require Import DecimalString DecimalPos Permutation Sorted OrdersEx Lqa.
Import ListNotations.

Local Open Scope string_scope.
Local Open Scope list_scope.

(** String concatenation is written [+:+]; [++] is kept for lists. *)

(* ===================================================================== *)
(** * Regular expressions

    The Python [re] module and the Rust [regex] crate (used by polars)
    agree on the patterns that occur in the sources: both return the
    leftmost match, and among the matches starting at one position the
    one a backtracking matcher finds first (ordered alternation, greedy
    repetition).  The matcher below is that backtracking matcher, written
    in continuation passing style.  One capture group is supported, which
    is all the sources use. *)
(* ===================================================================== *)

Module Regex.

Inductive regex : Type :=
| Eps : regex
| Chr : (ascii -> bool) -> regex
| Cat : regex -> regex -> regex
| Alt : regex -> regex -> regex
| Star : regex -> regex
| Bol : regex
| Eol : regex
| Group : regex -> regex.

Definition Plus (r : regex) : regex := Cat r (Star r).
Definition Opt (r : regex) : regex := Alt r Eps.

Fixpoint Times (n : nat) (r : regex) : regex :=
  match n with
  | O => Eps
  | S n' => Cat r (Times n' r)
  end.

Fixpoint Lit (s : string) : regex :=
  match s with
  | EmptyString => Eps
  | String c s' => Cat (Chr (Ascii.eqb c)) (Lit s')
  end.

(** Character classes. *)

Definition in_range (lo hi : nat) (c : ascii) : bool :=
  let n := nat_of_ascii c in (lo <=? n)%nat && (n <=? hi)%nat.

Definition is_digit : ascii -> bool := in_range 48 57.
Definition is_upper : ascii -> bool := in_range 65 90.
Definition is_lower : ascii -> bool := in_range 97 122.
Definition is_letter (c : ascii) : bool := is_upper c || is_lower c.

(** [\s]: space, tab, newline, vertical tab, form feed, carriage return. *)
Definition is_space (c : ascii) : bool :=
  let n := nat_of_ascii c in (n =? 32)%nat || ((9 <=? n)%nat && (n <=? 13)%nat).

Definition one_of (s : string) (c : ascii) : bool :=
  existsb (Ascii.eqb c) (list_ascii_of_string s).

Definition digit : regex := Chr is_digit.
Definition space : regex := Chr is_space.

(** A match in progress: the offset of the current position from the
    start of the subject, the text still to be read, and the text of
    group 1 if it has taken part. *)

Section Exec.
Context {R : Type}.

Definition cont : Type := nat -> string -> option string -> option R.

Fixpoint exec (fuel : nat) : regex -> nat -> string -> option string -> cont -> option R :=
  fix go (r : regex) (pos : nat) (s : string) (cap : option string) (k : cont)
    {struct r} : option R :=
    match r with
    | Eps => k pos s cap
    | Chr p =>
        match s with
        | String c s' => if p c then k (S pos) s' cap else None
        | EmptyString => None
        end
    | Cat a b => go a pos s cap (fun pos' s' cap' => go b pos' s' cap' k)
    | Alt a b =>
        match go a pos s cap k with
        | Some x => Some x
        | None => go b pos s cap k
        end
    | Star a =>
        match fuel with
        | O => k pos s cap
        | S f =>
            match go a pos s cap
                    (fun pos' s' cap' =>
                       if (pos <? pos')%nat then exec f (Star a) pos' s' cap' k
                       else None) with
            | Some x => Some x
            | None => k pos s cap
            end
        end
    | Bol => if (pos =? 0)%nat then k pos s cap else None
    | Eol => match s with EmptyString => k pos s cap | _ => None end
    | Group a =>
        go a pos s cap
           (fun pos' s' _ => k pos' s' (Some (substring 0 (pos' - pos) s)))
    end.
End Exec.

(** The match of [r] that starts at the current position, if any: the
    offset where it ends, the remaining text and group 1. *)
Definition match_at (r : regex) (pos : nat) (s : string)
  : option (nat * string * option string) :=
  exec (S (String.length s)) r pos s None
       (fun pos' s' cap' => Some (pos', s', cap')).

(** The subject cut into the characters outside any match and the
    successive non-overlapping matches, from left to right.  None of the
    patterns of the sources matches the empty string; an empty match is
    reported and the scan moves on by one character. *)
Inductive seg : Type :=
| Skip (c : ascii)
| Hit (whole : string) (g1 : option string).

Fixpoint segments (fuel : nat) (r : regex) (pos : nat) (s : string) : list seg :=
  match fuel with
  | O => []
  | S f =>
      match match_at r pos s with
      | Some (pos', s', cap) =>
          if (pos' =? pos)%nat then
            match s with
            | EmptyString => [Hit "" cap]
            | String c t => Hit "" cap :: Skip c :: segments f r (S pos) t
            end
          else Hit (substring 0 (pos' - pos) s) cap :: segments f r pos' s'
      | None =>
          match s with
          | EmptyString => []
          | String c t => Skip c :: segments f r (S pos) t
          end
      end
  end.

Definition scan (r : regex) (s : string) : list seg :=
  segments (S (String.length s)) r 0 s.

(** [re.match]: a match anchored at the start of the subject. *)
Definition re_match (r : regex) (s : string) : option (string * option string) :=
  match match_at r 0 s with
  | Some (pos', _, cap) => Some (substring 0 pos' s, cap)
  | None => None
  end.

(** [re.search] / [str.contains]: is there a match anywhere. *)
Definition contains (r : regex) (s : string) : bool :=
  existsb (fun x => match x with Hit _ _ => true | Skip _ => false end) (scan r s).

(** [re.findall] for a pattern with exactly one group: the texts of the
    group, an empty string when the group did not take part. *)
Definition findall_g1 (r : regex) (s : string) : list string :=
  flat_map (fun x => match x with
                     | Hit _ (Some g) => [g]
                     | Hit _ None => [""]
                     | Skip _ => []
                     end) (scan r s).

(** Replacement templates: literal text and references to group 1. *)
Inductive tpl : Type :=
| TLit (s : string)
| TG1.

Definition expand (t : list tpl) (g1 : option string) : string :=
  fold_right (fun x acc =>
                match x with
                | TLit s => s +:+ acc
                | TG1 => match g1 with Some g => g +:+ acc | None => acc end
                end) "" t.

(** [str.replace_all]. *)
Definition replace_all (r : regex) (t : list tpl) (s : string) : string :=
  fold_right (fun x acc =>
                match x with
                | Skip c => String c acc
                | Hit _ g => expand t g +:+ acc
                end) "" (scan r s).

End Regex.

(* ===================================================================== *)
(** * Exceptions and results *)
(* ===================================================================== *)

Inductive exn : Type :=
| TypeError
| OSError
| DownloadedFileEmpty.

Inductive result (A : Type) : Type :=
| Ok (a : A)
| Raise (e : exn).

Arguments Ok {A} a.
Arguments Raise {A} e.

Definition rbind {A B : Type} (m : result A) (f : A -> result B) : result B :=
  match m with
  | Ok a => f a
  | Raise e => Raise e
  end.

Notation "'let!' x ':=' m 'in' f" := (rbind m (fun x => f))
  (at level 10, x name, m at level 100, f at level 200).

(* ===================================================================== *)
(** * Python string helpers *)
(* ===================================================================== *)

Module Py.

(** [str.isspace] on one ASCII character: the characters of [\s] and the
    four separators 0x1c .. 0x1f. *)
Definition isspace (c : ascii) : bool :=
  Regex.is_space c || Regex.in_range 28 31 c.

Fixpoint lstrip (s : string) : string :=
  match s with
  | String c s' => if isspace c then lstrip s' else s
  | EmptyString => EmptyString
  end.

(** The text without its trailing white space: a character is kept when
    something that is not white space follows or it is not white space
    itself. *)
Fixpoint rstrip (s : string) : string :=
  match s with
  | String c s' =>
      match rstrip s' with
      | EmptyString => if isspace c then EmptyString else String c EmptyString
      | t => String c t
      end
  | EmptyString => EmptyString
  end.

Definition strip (s : string) : string := rstrip (lstrip s).

(** [s.split(sep)] for a one-character separator. *)
Fixpoint split (sep : ascii) (s : string) : list string :=
  match s with
  | EmptyString => [EmptyString]
  | String c s' =>
      if Ascii.eqb c sep then EmptyString :: split sep s'
      else match split sep s' with
           | t :: ts => String c t :: ts
           | [] => [String c EmptyString]
           end
  end.

(** The characters of [s] that satisfy [p], in their order. *)
Fixpoint keep (p : ascii -> bool) (s : string) : string :=
  match s with
  | EmptyString => EmptyString
  | String c s' => if p c then String c (keep p s') else keep p s'
  end.

(** The last character of a string. *)
Fixpoint last_char (s : string) : option ascii :=
  match s with
  | EmptyString => None
  | String c EmptyString => Some c
  | String _ s' => last_char s'
  end.

(** [c in s]. *)
Definition contains_char (c : ascii) (s : string) : bool :=
  existsb (Ascii.eqb c) (list_ascii_of_string s).

(** Truth value of a string: non-empty. *)
Definition truthy (s : string) : bool :=
  match s with EmptyString => false | _ => true end.

(** [sep.join(l)]. *)
Fixpoint join (sep : string) (l : list string) : string :=
  match l with
  | [] => EmptyString
  | [x] => x
  | x :: rest => x +:+ sep +:+ join sep rest
  end.

(** [sorted(set(l))]: ascending in the order of the code points, one copy
    of each element. *)
Fixpoint insert_sorted (x : string) (l : list string) : list string :=
  match l with
  | [] => [x]
  | y :: l' =>
      match String.compare x y with
      | Lt => x :: y :: l'
      | Eq => y :: l'
      | Gt => y :: insert_sorted x l'
      end
  end.

Definition sorted_set (l : list string) : list string :=
  fold_right insert_sorted [] l.

(** [str(n)] for an integer, also the polars cast of an integer column
    to [Utf8]. *)
Definition str_of_int (n : Z) : string :=
  NilEmpty.string_of_int (Z.to_int n).

Definition str_lower_char (c : ascii) : ascii :=
  if Regex.is_upper c then ascii_of_nat (nat_of_ascii c + 32) else c.

Fixpoint lower (s : string) : string :=
  match s with
  | EmptyString => EmptyString
  | String c s' => String (str_lower_char c) (lower s')
  end.

End Py.

(* ===================================================================== *)
(** * The signal manager ([step-2/utils/ready_signal_creator.py]) *)
(* ===================================================================== *)

(** Files: a content and a modification time. *)
Record file : Type := mkFile { content : string; mtime : Z }.

(** Primitive operations on the file system, in the order a process
    issues them.  Another process may observe the file system between
    any two of them. *)
Inductive fs_op : Type :=
| OpenTrunc (p : string)                 (* open(p, 'w'): create or truncate *)
| WriteClose (p : string) (data : string) (* write the data and close *)
| Touch (p : string)
| Unlink (p : string)
| Rename (src dst : string).

Definition fs_step (now : Z) (fs : gmap string file) (op : fs_op) : gmap string file :=
  match op with
  | OpenTrunc p => <[p := mkFile "" now]> fs
  | WriteClose p data => <[p := mkFile data now]> fs
  | Touch p =>
      match fs !! p with
      | Some f => <[p := mkFile (content f) now]> fs
      | None => <[p := mkFile "" now]> fs
      end
  | Unlink p => delete p fs
  | Rename src dst =>
      match fs !! src with
      | Some f => <[dst := f]> (delete src fs)
      | None => fs
      end
  end.

Definition fs_run (now : Z) (fs : gmap string file) (ops : list fs_op) : gmap string file :=
  fold_left (fs_step now) ops fs.

(** The states another process can observe while [ops] run: the state
    before, and the state after each operation. *)
Fixpoint fs_observable (now : Z) (fs : gmap string file) (ops : list fs_op)
  : list (gmap string file) :=
  match ops with
  | [] => [fs]
  | op :: rest => fs :: fs_observable now (fs_step now fs op) rest
  end.

Definition path_join (dir name : string) : string := dir +:+ "/" +:+ name.

Definition exists_file (fs : gmap string file) (p : string) : bool :=
  match fs !! p with Some _ => true | None => false end.

Module Signals.

Inductive JobStatus : Type :=
| UNKNOWN | READY | PROCESSING | COMPLETE | FAILED.

Definition value (s : JobStatus) : string :=
  match s with
  | UNKNOWN => "unknown"
  | READY => "ready"
  | PROCESSING => "processing"
  | COMPLETE => "complete"
  | FAILED => "failed"
  end.

(** The values the callers pass for the parameters [day] and [status]:
    [None], a string, or a member of [JobStatus]. *)
Inductive pyval : Type :=
| PyNone
| PyStr (s : string)
| PyEnum (s : JobStatus).

(** [len(v)]: defined on strings; [None] and enum members have no length. *)
Definition py_len (v : pyval) : result nat :=
  match v with
  | PyStr s => Ok (String.length s)
  | PyNone | PyEnum _ => Raise TypeError
  end.

(** The text an f-string inserts for [v]. *)
Definition py_format (v : pyval) : string :=
  match v with
  | PyNone => "None"
  | PyStr s => s
  | PyEnum UNKNOWN => "JobStatus.UNKNOWN"
  | PyEnum READY => "JobStatus.READY"
  | PyEnum PROCESSING => "JobStatus.PROCESSING"
  | PyEnum COMPLETE => "JobStatus.COMPLETE"
  | PyEnum FAILED => "JobStatus.FAILED"
  end.

Section Manager.
(** [self.ready_dir]. *)
Variable ready_dir : string.
(** What the environment answers to [open(p, 'w')]: whether the path
    can be opened for writing (its directory exists, the name is one
    the file system takes, the process may write there). *)
Variable writable : string -> bool.

(** [get_signal_path(self, year, month, day=None, status=None)]. *)
Definition get_signal_path (year month : string) (day status : pyval)
  : result string :=
  let status := match status with
                | PyEnum s => PyStr (value s)
                | _ => status
                end in
  let month := if (String.length month =? 1)%nat then "0" +:+ month else month in
  match day with
  | PyNone =>
      Ok (path_join ready_dir (year +:+ "-" +:+ month +:+ "." +:+ py_format status))
  | _ =>
      let! n := py_len day in
      let day := if (n =? 1)%nat then "0" +:+ py_format day else py_format day in
      Ok (path_join ready_dir
            (year +:+ "-" +:+ month +:+ "-" +:+ day +:+ "." +:+ py_format status))
  end.

(** The operations [create_signal] issues: the signal file is opened
    for writing under its final name and the message written to it.
    [open] raises when the path cannot be opened, as for a name with
    a slash whose directory is not there.  An exception on the way is
    caught and makes the call return [False] without touching the
    file system.  (A write that fails after the file was opened is
    left out.) *)
Definition create_signal_ops (year month : string) (day status : pyval)
           (message : string) : result (list fs_op) :=
  let! signal_file := get_signal_path year month day status in
  if writable signal_file
  then Ok [OpenTrunc signal_file; WriteClose signal_file message]
  else Raise OSError.

Definition create_signal (now : Z) (fs : gmap string file)
           (year month : string) (day status : pyval) (message : string)
  : gmap string file * bool :=
  match create_signal_ops year month day status message with
  | Ok ops => (fs_run now fs ops, true)
  | Raise _ => (fs, false)
  end.

(** [check_status(self, year, month)].  The four calls pass the status
    as the third positional argument, which is the parameter [day]. *)
Definition check_status (fs : gmap string file) (year month : string)
  : result JobStatus :=
  let! complete_file := get_signal_path year month (PyEnum COMPLETE) PyNone in
  let! failed_file := get_signal_path year month (PyEnum FAILED) PyNone in
  let! processing_file := get_signal_path year month (PyEnum PROCESSING) PyNone in
  let! ready_file := get_signal_path year month (PyEnum READY) PyNone in
  if exists_file fs complete_file then Ok COMPLETE
  else if exists_file fs failed_file then Ok FAILED
  else if exists_file fs processing_file then Ok PROCESSING
  else if exists_file fs ready_file then Ok READY
  else Ok UNKNOWN.
End Manager.

(** A ready directory that holds files only: the paths that can be
    opened are the names without a slash directly in it. *)
Definition flat_dir (dir : string) (p : string) : bool :=
  String.prefix (dir +:+ "/") p &&
  negb (Py.contains_char "/"%char
          (String.substring (String.length dir + 1) (String.length p) p)).

End Signals.

(* ===================================================================== *)
(** * The join/aggregate engine ([step-2/consumer.py]) *)
(* ===================================================================== *)

Module Consumer.

Import Regex.

(** ** Exit status *)

(** [get_exit_status_description]: a [when / then] chain on a nullable
    integer column.  A comparison with a null is null, which a [when]
    does not take. *)
Definition eq_zero (x : option Z) : bool :=
  match x with Some n => (n =? 0)%Z | None => false end.

Definition is_not_null {A : Type} (x : option A) : bool :=
  match x with Some _ => true | None => false end.

Definition cast_utf8 (x : option Z) : string :=
  match x with Some n => Py.str_of_int n | None => "" end.

Definition get_exit_status_description (exit_status : option Z) : string :=
  if eq_zero exit_status then "COMPLETED"
  else if is_not_null exit_status then "FAILED:" +:+ cast_utf8 exit_status
  else "UNKNOWN".

(** ** Host list *)

(** [([^\s/+]+)(?:/\d+)?] *)
Definition node_token : regex :=
  Cat (Group (Plus (Chr (fun c => negb (Py.isspace c || one_of "/+" c)))))
      (Opt (Cat (Lit "/") (Plus digit))).

Definition first_field (sep : ascii) (s : string) : string :=
  match Py.split sep s with
  | x :: _ => x
  | [] => EmptyString
  end.

(** [extract_nodes] of [parse_host_list]. *)
Definition extract_nodes (host_str : option string) : option string :=
  match host_str with
  | None => None
  | Some h =>
      let raw_nodes := findall_g1 node_token h in
      let raw_nodes :=
        match raw_nodes with
        | _ :: _ => raw_nodes
        | [] =>
            if Py.contains_char "+"%char h then
              map (fun part => Py.strip (first_field "/"%char part))
                  (filter (fun part => Py.truthy (Py.strip part))
                          (Py.split "+"%char h))
            else if negb (Py.contains_char "{"%char h) && negb (Py.contains_char "}"%char h) then
              let node_candidate := Py.strip (first_field "/"%char h) in
              if Py.truthy node_candidate then [node_candidate] else []
            else []
        end in
      match raw_nodes with
      | [] => None
      | _ :: _ =>
          let unique_nodes_stripped :=
            Py.sorted_set (map Py.strip (filter (fun n => Py.truthy (Py.strip n)) raw_nodes)) in
          match unique_nodes_stripped with
          | [] => None
          | _ :: _ =>
              let suffixed_nodes := map (fun node => node +:+ "_C") unique_nodes_stripped in
              Some ("{" +:+ Py.join "," suffixed_nodes +:+ "}")
          end
      end
  end.

Definition parse_host_list : option string -> option string := extract_nodes.

(** ** Rows *)

(** The columns the chunk reader keeps of a metric file. *)
Record MetricRow : Type := mkMetric {
  Timestamp : Z;
  Job_Id : string;
  Host : string;
  Event : string;
  Value : Q
}.

(** An accounting record. *)
Record JobRow : Type := mkJob {
  jobID : string;
  qtime : Z;
  start_time : Z;
  end_time : Z;
  walltime : option string;
  nodect : option Q;
  ncpus : option Q;
  account : string;
  queue : string;
  jobname : string;
  Exit_status : option Z;
  user : string;
  exec_host : option string
}.

(** A row of the result.  The job columns that are only carried along
    ([submit_time], [timelimit], [nhosts], ...) stay in the accounting
    record [job_info] of the first row of the group. *)
Record AggregatedRow : Type := mkAgg {
  time : Z;
  host : string;
  jid : string;
  unit : string;
  exitcode : string;
  host_list : option string;
  value_cpuuser : option Q;
  value_gpu : option Q;
  value_memused : option Q;
  value_memused_minus_diskcache : option Q;
  value_nfs : option Q;
  value_block : option Q;
  job_info : JobRow
}.

Definition key_of (r : AggregatedRow) : string * string * Z :=
  (jid r, host r, time r).

Definition expected_events : list string :=
  ["cpuuser"; "gpu"; "memused"; "memused_minus_diskcache"; "nfs"; "block"].

(** The column [value_<event>] of a row. *)
Definition value_col (event : string) (r : AggregatedRow) : option Q :=
  if String.eqb event "cpuuser" then value_cpuuser r
  else if String.eqb event "gpu" then value_gpu r
  else if String.eqb event "memused" then value_memused r
  else if String.eqb event "memused_minus_diskcache" then value_memused_minus_diskcache r
  else if String.eqb event "nfs" then value_nfs r
  else if String.eqb event "block" then value_block r
  else None.

(** ** One chunk *)

(** [^\d+$] *)
Definition numeric_only : regex := Cat Bol (Cat (Plus digit) Eol).

Definition normalize_job_id (s : string) : string :=
  if contains numeric_only s then "job" +:+ s else Py.lower s.

(** [dt.truncate("1m")]. *)
Definition truncate_minute (t : Z) : Z := (t - t mod 60)%Z.

(** A metric row joined with its accounting record, with its window. *)
Definition joined : Type := MetricRow * JobRow.

Definition combo_of (x : joined) : string * string * Z :=
  (Job_Id (fst x), Host (fst x), truncate_minute (Timestamp (fst x))).

Definition join (ts_chunk : list MetricRow) (jobs_df : list JobRow) : list joined :=
  flat_map (fun m => map (fun j => (m, j))
                         (filter (fun j => String.eqb (Job_Id m) (jobID j)) jobs_df))
           ts_chunk.

Definition in_window (x : joined) : bool :=
  (start_time (snd x) <=? Timestamp (fst x))%Z &&
  (Timestamp (fst x) <=? end_time (snd x))%Z.

Definition key_eqb (a b : string * string * Z) : bool :=
  String.eqb (fst (fst a)) (fst (fst b)) &&
  String.eqb (snd (fst a)) (snd (fst b)) &&
  (snd a =? snd b)%Z.

(** [unique()]: one copy of each combination, in the order of the first
    occurrences. *)
Fixpoint unique (seen : list (string * string * Z)) (l : list (string * string * Z))
  : list (string * string * Z) :=
  match l with
  | [] => []
  | k :: rest =>
      if existsb (key_eqb k) seen then unique seen rest
      else k :: unique (k :: seen) rest
  end.

Definition Qsum (l : list Q) : Q := fold_right Qplus 0%Q l.

(** [mean()] of a column; null on an empty selection. *)
Definition mean (l : list Q) : option Q :=
  match l with
  | [] => None
  | _ :: _ => Some (Qsum l / inject_Z (Z.of_nat (List.length l)))%Q
  end.

Definition event_mean (single_combo_df : list joined) (event : string) : option Q :=
  mean (map (fun x => Value (fst x))
            (filter (fun x => String.eqb (Event (fst x)) event) single_combo_df)).

(** The row built for one job-host-time combination. *)
Definition result_row (single_combo_df : list joined) (first_row : joined)
           (k : string * string * Z) : AggregatedRow :=
  {| time := snd k;
     host := snd (fst k);
     jid := fst (fst k);
     unit := "mixed";
     exitcode := get_exit_status_description (Exit_status (snd first_row));
     host_list := parse_host_list (exec_host (snd first_row));
     value_cpuuser := event_mean single_combo_df "cpuuser";
     value_gpu := event_mean single_combo_df "gpu";
     value_memused := event_mean single_combo_df "memused";
     value_memused_minus_diskcache := event_mean single_combo_df "memused_minus_diskcache";
     value_nfs := event_mean single_combo_df "nfs";
     value_block := event_mean single_combo_df "block";
     job_info := snd first_row |}.

Definition windowed (ts_chunk : list MetricRow) (jobs_df : list JobRow) : list joined :=
  filter in_window
         (join (map (fun m => mkMetric (Timestamp m) (normalize_job_id (Job_Id m))
                                       (Host m) (Event m) (Value m)) ts_chunk)
               jobs_df).

(** [process_chunk]; an empty list stands for the [None] the function
    returns when nothing is left. *)
Definition process_chunk (ts_chunk : list MetricRow) (jobs_df : list JobRow)
  : list AggregatedRow :=
  let df_with_windows := windowed ts_chunk jobs_df in
  let unique_combinations := unique [] (map combo_of df_with_windows) in
  flat_map (fun k =>
              let single_combo_df :=
                filter (fun x => key_eqb (combo_of x) k) df_with_windows in
              match single_combo_df with
              | [] => []
              | first_row :: _ => [result_row single_combo_df first_row k]
              end)
           unique_combinations.

(** ** The driver *)

(** The chunk size [process_ts_file_in_parallel] settles on, in rows. *)
Definition optimized_chunk_size (BASE_CHUNK_SIZE : Z) (available_memory_gb : Q) : Z :=
  if Qlt_le_dec 30 available_memory_gb then 500000%Z
  else if Qlt_le_dec 15 available_memory_gb then 250000%Z
  else Z.max 100000 (BASE_CHUNK_SIZE * 4).

(** [slice(start_row, chunk_size)] for each chunk number below
    [num_chunks]. *)
Fixpoint chunks_of (num_chunks : nat) (size : nat) (rows : list MetricRow)
  : list (list MetricRow) :=
  match num_chunks with
  | O => []
  | S n => firstn size rows :: chunks_of n size (skipn size rows)
  end.

Definition num_chunks (total_rows chunk_size : Z) : Z :=
  ((total_rows + chunk_size - 1) / chunk_size)%Z.

(** The day a row is filed under ([strftime("%Y-%m-%d")] of its time),
    as the number of the day. *)
Definition day_key (r : AggregatedRow) : Z := (time r / 86400)%Z.

(** [daily_data_accumulator[day_key].append(day_group_df)]. *)
Fixpoint accumulate (day : Z) (df : list AggregatedRow)
         (acc : list (Z * list (list AggregatedRow)))
  : list (Z * list (list AggregatedRow)) :=
  match acc with
  | [] => [(day, [df])]
  | (d, dfs) :: rest =>
      if (d =? day)%Z then (d, dfs ++ [df]) :: rest
      else (d, dfs) :: accumulate day df rest
  end.

Fixpoint days_of (seen : list Z) (l : list Z) : list Z :=
  match l with
  | [] => []
  | d :: rest =>
      if existsb (Z.eqb d) seen then days_of seen rest
      else d :: days_of (d :: seen) rest
  end.

(** The rows of one chunk result are grouped by day and each group is
    appended to the list of its day. *)
Definition accumulate_result (result_df : list AggregatedRow)
           (acc : list (Z * list (list AggregatedRow)))
  : list (Z * list (list AggregatedRow)) :=
  fold_left (fun acc day =>
               accumulate day (filter (fun r => (day_key r =? day)%Z) result_df) acc)
            (days_of [] (map day_key result_df)) acc.

(** [process_ts_file_in_parallel]: the frames handed to
    [write_daily_parquet], one per day, each the concatenation of the
    groups of that day in the order the chunk results were taken.  The
    chunk results are taken here in the order of the chunks. *)
Definition daily_accumulator (BASE_CHUNK_SIZE : Z) (available_memory_gb : Q)
           (rows : list MetricRow) (jobs_df : list JobRow)
  : list (Z * list (list AggregatedRow)) :=
  let total_rows := Z.of_nat (List.length rows) in
  if (total_rows =? 0)%Z then []
  else
    let size := optimized_chunk_size BASE_CHUNK_SIZE available_memory_gb in
    match jobs_df with
    | [] => []
    | _ :: _ =>
        fold_left (fun acc ts_chunk =>
                     match ts_chunk with
                     | [] => acc
                     | _ :: _ => accumulate_result (process_chunk ts_chunk jobs_df) acc
                     end)
                  (chunks_of (Z.to_nat (num_chunks total_rows size)) (Z.to_nat size) rows)
                  []
    end.

Definition process_ts_file_in_parallel (BASE_CHUNK_SIZE : Z) (available_memory_gb : Q)
           (rows : list MetricRow) (jobs_df : list JobRow)
  : list (Z * list AggregatedRow) :=
  map (fun e => (fst e, concat (snd e)))
      (daily_accumulator BASE_CHUNK_SIZE available_memory_gb rows jobs_df).

(** The rows of the chunk with the combination [k], and the result
    rows of a list of combinations. *)
Definition group_of (df : list joined) (k : string * string * Z) : list joined :=
  filter (fun x => key_eqb (combo_of x) k) df.

Definition rows_for (df : list joined) (ks : list (string * string * Z))
  : list AggregatedRow :=
  flat_map (fun k => match group_of df k with
                     | [] => []
                     | first_row :: _ => [result_row (group_of df k) first_row k]
                     end) ks.

(** A frame in which no two rows share [(jid, host, time)]. *)
Definition good (df : list AggregatedRow) : Prop := NoDup (map key_of df).


Definition all_good (acc : list (Z * list (list AggregatedRow))) : Prop :=
  forall day frames, In (day, frames) acc -> Forall good frames.

End Consumer.

(* ===================================================================== *)
(** * The raw-to-metric transformers ([step-1/hpc_transformer.py]) *)
(* ===================================================================== *)

Module Transformer.

(** The long-form record every transformer emits. *)
Record FrescoRow : Type := mkFresco {
  f_Job_Id : string;
  f_Host : string;
  f_Event : string;
  f_Value : Q;
  f_Units : string;
  f_Timestamp : Z
}.

(** ** Ordering and grouping of data frames *)

Definition str_cmp : string -> string -> comparison := OrdersEx.String_as_OT.compare.

Definition lex (c1 c2 : comparison) : comparison :=
  match c1 with Eq => c2 | _ => c1 end.

(** The lexicographic order of pairs. *)
Definition prod_cmp {X Y : Type} (cx : X -> X -> comparison) (cy : Y -> Y -> comparison)
           (a b : X * Y) : comparison :=
  lex (cx (fst a) (fst b)) (cy (snd a) (snd b)).

(** What makes a three-way comparison that of a strict total order. *)
Definition good_cmp {X : Type} (c : X -> X -> comparison) : Prop :=
  (forall a b, c a b = Eq <-> a = b) /\
  (forall a b, c b a = CompOpp (c a b)) /\
  (forall a b d, c a b = Lt -> c b d = Lt -> c a d = Lt).

(** The order of the columns [(jobID, node, device)]. *)
Definition series_cmp : string * string * string -> string * string * string -> comparison :=
  prod_cmp (prod_cmp str_cmp str_cmp) str_cmp.

Section Frames.
Context {A : Type}.
(** The series a row belongs to, [(jobID, node, device)], and its
    parsed timestamp. *)
Variable series : A -> string * string * string.
Variable ts : A -> Z.

Definition row_key (a : A) : string * string * string * Z := (series a, ts a).

Definition row_cmp (a b : A) : comparison :=
  prod_cmp series_cmp Z.compare (row_key a) (row_key b).

Definition row_leb (a b : A) : bool :=
  match row_cmp a b with Gt => false | _ => true end.

Definition same_series (a b : A) : bool :=
  match series_cmp (series a) (series b) with Eq => true | _ => false end.

(** [df.sort_values([jobID, node, device, Timestamp_original])]: rows
    that compare equal keep their order. *)
Fixpoint insert_row (x : A) (l : list A) : list A :=
  match l with
  | [] => [x]
  | y :: l' => if row_leb x y then x :: y :: l' else y :: insert_row x l'
  end.

Definition sort_values (l : list A) : list A := fold_right insert_row [] l.

(** [groupby([jobID, node, device])[col].diff()] pairs every row with
    the row before it in its group, if there is one.  [before] holds
    the rows already passed, the latest first. *)
Fixpoint with_prev (before : list A) (l : list A) : list (A * option A) :=
  match l with
  | [] => []
  | x :: rest => (x, find (same_series x) before) :: with_prev (x :: before) rest
  end.

(** [p] and [x] are samples of one series that follow each other when
    the rows [l] are put in the order of their timestamps: [p] is not
    later than [x] and no sample of the series lies strictly between
    them. *)
Definition consecutive (l : list A) (p x : A) : Prop :=
  In p l /\ In x l /\ series p = series x /\ (ts p <= ts x)%Z /\
  forall y, In y l -> series y = series x -> ~ (ts p < ts y < ts x)%Z.
End Frames.

(** Keys of the node-level aggregation: [(jobID, node, Timestamp)]. *)
Definition node_key : Type := string * string * Z.

Definition node_key_cmp : node_key -> node_key -> comparison :=
  prod_cmp (prod_cmp str_cmp str_cmp) Z.compare.

Definition node_key_eqb (k1 k2 : node_key) : bool :=
  match node_key_cmp k1 k2 with Eq => true | _ => false end.

(** The group keys of a [groupby], sorted, one copy of each. *)
Fixpoint insert_key (k : node_key) (l : list node_key) : list node_key :=
  match l with
  | [] => [k]
  | y :: l' =>
      match node_key_cmp k y with
      | Lt => k :: y :: l'
      | Eq => y :: l'
      | Gt => y :: insert_key k l'
      end
  end.

Definition group_keys (l : list node_key) : list node_key :=
  fold_right insert_key [] l.

Definition Qsum (l : list Q) : Q := fold_right Qplus 0%Q l.

Definition Qgeb (x y : Q) : bool := Qle_bool y x.
Definition Qgtb (x y : Q) : bool := negb (Qle_bool x y).

(** [Series.clip(lower, upper)]. *)
Definition clip_lower (lo v : Q) : Q := if Qgtb lo v then lo else v.
Definition clip (lo hi v : Q) : Q :=
  let v := clip_lower lo v in if Qgtb v hi then hi else v.

(** ** Block I/O *)

(** A row of [block.csv] after the reading preamble: numeric columns
    coerced, rows with missing fields dropped, timestamp parsed. *)
Record BlockRow : Type := mkBlock {
  b_jobID : string;
  b_node : string;
  b_device : string;
  b_Timestamp_original : Z;
  rd_sectors : Q;
  wr_sectors : Q
}.

Definition b_series (r : BlockRow) : string * string * string :=
  (b_jobID r, b_node r, b_device r).

Definition SECTOR_SIZE_BYTES : Q := 512.
Definition BYTES_TO_GB : Q := 1 / inject_Z (1024 ^ 3).
Definition MIN_TIME_DELTA : Q := 1 # 10.

Definition total_sectors (r : BlockRow) : Q := (rd_sectors r + wr_sectors r)%Q.

Definition time_delta_seconds (x p : BlockRow) : Q :=
  inject_Z (b_Timestamp_original x - b_Timestamp_original p).

Definition sector_delta (x p : BlockRow) : Q := (total_sectors x - total_sectors p)%Q.

(** [valid_rate_mask]; a row without a previous row has null deltas. *)
Definition valid_rate_mask (xp : BlockRow * option BlockRow) : bool :=
  match snd xp with
  | None => false
  | Some p =>
      Qgeb (time_delta_seconds (fst xp) p) MIN_TIME_DELTA &&
      Qgeb (sector_delta (fst xp) p) 0
  end.

(** [Value_device_rate]: zero unless the mask holds, then clipped. *)
Definition Value_device_rate (xp : BlockRow * option BlockRow) : Q :=
  clip_lower 0
    (match snd xp with
     | Some p =>
         if valid_rate_mask xp then
           ((sector_delta (fst xp) p * SECTOR_SIZE_BYTES
             / time_delta_seconds (fst xp) p) * BYTES_TO_GB)%Q
         else 0%Q
     | None => 0%Q
     end).

Definition b_node_key (r : BlockRow) : node_key :=
  (b_jobID r, b_node r, b_Timestamp_original r).

(** [df[valid_rate_mask]] of the sorted frame. *)
Definition df_valid_rates (rows : list BlockRow) : list (BlockRow * option BlockRow) :=
  filter valid_rate_mask
         (with_prev b_series [] (sort_values b_series b_Timestamp_original rows)).

(** [process_block_file], from the sort on. *)
Definition process_block_file (rows : list BlockRow) : list FrescoRow :=
  let valid := df_valid_rates rows in
  map (fun k =>
         {| f_Job_Id := fst (fst k);
            f_Host := snd (fst k);
            f_Event := "block";
            f_Value := Qsum (map Value_device_rate
                                 (filter (fun xp => node_key_eqb (b_node_key (fst xp)) k) valid));
            f_Units := "GB/s";
            f_Timestamp := snd k |})
      (group_keys (map (fun xp => b_node_key (fst xp)) valid)).

(** ** CPU *)

Record CpuRow : Type := mkCpu {
  c_jobID : string;
  c_node : string;
  c_device : string;
  c_Timestamp_original : Z;
  c_user : Q;
  c_nice : Q;
  c_system : Q;
  c_idle : Q;
  c_iowait : Q;
  c_irq : Q;
  c_softirq : Q
}.

Definition c_series (r : CpuRow) : string * string * string :=
  (c_jobID r, c_node r, c_device r).

Definition c_node_key (r : CpuRow) : node_key :=
  (c_jobID r, c_node r, c_Timestamp_original r).

(** The delta columns of a row that has a previous row in its group. *)
Record CoreDelta : Type := mkDelta {
  user_core_delta : Q;
  nice_core_delta : Q;
  system_core_delta : Q;
  idle_core_delta : Q;
  iowait_core_delta : Q;
  irq_core_delta : Q;
  softirq_core_delta : Q
}.

Definition core_delta (x p : CpuRow) : CoreDelta :=
  {| user_core_delta := c_user x - c_user p;
     nice_core_delta := c_nice x - c_nice p;
     system_core_delta := c_system x - c_system p;
     idle_core_delta := c_idle x - c_idle p;
     iowait_core_delta := c_iowait x - c_iowait p;
     irq_core_delta := c_irq x - c_irq p;
     softirq_core_delta := c_softirq x - c_softirq p |}.

(** [df[delta_col_names].sum(axis=1)]. *)
Definition total_jiffies_core_delta (d : CoreDelta) : Q :=
  (user_core_delta d + nice_core_delta d + system_core_delta d + idle_core_delta d
   + iowait_core_delta d + irq_core_delta d + softirq_core_delta d)%Q.

Definition valid_delta_mask (xp : CpuRow * option CpuRow) : bool :=
  match snd xp with
  | None => false
  | Some p =>
      let d := core_delta (fst xp) p in
      Qgeb (user_core_delta d) 0 && Qgeb (nice_core_delta d) 0 &&
      Qgtb (total_jiffies_core_delta d) 0
  end.

(** [df[valid_delta_mask]] of the sorted frame, with the deltas. *)
Definition df_valid_deltas (rows : list CpuRow) : list (CpuRow * CoreDelta) :=
  flat_map (fun xp =>
              match snd xp with
              | Some p => if valid_delta_mask xp then [(fst xp, core_delta (fst xp) p)] else []
              | None => []
              end)
           (with_prev c_series [] (sort_values c_series c_Timestamp_original rows)).

(** A row of [node_level_deltas]: the sums of a group. *)
Record NodeDelta : Type := mkNode {
  n_key : node_key;
  n_user : Q;
  n_nice : Q;
  n_total : Q
}.

Definition node_level_deltas (valid : list (CpuRow * CoreDelta)) : list NodeDelta :=
  map (fun k =>
         let g := map snd (filter (fun xd => node_key_eqb (c_node_key (fst xd)) k) valid) in
         {| n_key := k;
            n_user := Qsum (map user_core_delta g);
            n_nice := Qsum (map nice_core_delta g);
            n_total := Qsum (map total_jiffies_core_delta g) |})
      (group_keys (map (fun xd => c_node_key (fst xd)) valid)).

(** [np.where(total > 0, (user + nice) / total * 100, 0.0)], clipped. *)
Definition Value_cpuuser (n : NodeDelta) : Q :=
  clip 0 100
       (if Qgtb (n_total n) 0 then ((n_user n + n_nice n) / n_total n * 100)%Q else 0%Q).

Definition final_valid_mask (n : NodeDelta) : bool :=
  Qgeb (n_user n) 0 && Qgeb (n_nice n) 0 && Qgtb (n_total n) 0 &&
  Qgeb (Value_cpuuser n) 0.

(** [process_cpu_file], from the sort on. *)
Definition process_cpu_file (rows : list CpuRow) : list FrescoRow :=
  map (fun n =>
         {| f_Job_Id := fst (fst (n_key n));
            f_Host := snd (fst (n_key n));
            f_Event := "cpuuser";
            f_Value := Value_cpuuser n;
            f_Units := "CPU %";
            f_Timestamp := snd (n_key n) |})
      (filter final_valid_mask (node_level_deltas (df_valid_deltas rows))).

(** The key of an output row: [Job Id], [Host], [Timestamp]. *)
Definition out_key (r : FrescoRow) : node_key := (f_Job_Id r, f_Host r, f_Timestamp r).


(** The valid core deltas that [groupby] puts in the group of key [k]. *)
Definition core_group (rows : list CpuRow) (k : node_key) : list CoreDelta :=
  map snd (filter (fun xd => node_key_eqb (c_node_key (fst xd)) k) (df_valid_deltas rows)).

End Transformer.

(* ===================================================================== *)
(** * The stage movers *)
(* ===================================================================== *)

(** ** [step-3/receiver.py] *)

Module Receiver3.

Section Mover.
(** The digest function ([hashlib.md5] ... [hexdigest]) and the copy
    as the environment performs it: [channel c] is what the
    destination holds after [shutil.copy2] of a file holding [c]. *)
Variable md5 : string -> string.
Variable channel : string -> string.
(** [Path.rename] onto a path that is taken: it replaces the file
    there on a POSIX system and raises [FileExistsError] on Windows,
    where this receiver runs. *)
Variable rename_replaces : bool.

Definition TEMP_SUFFIX : string := ".tmp".

(** [calculate_file_hash]: [None] when the file cannot be read. *)
Definition calculate_file_hash (fs : gmap string file) (p : string) : option string :=
  match fs !! p with
  | Some f => Some (md5 (content f))
  | None => None
  end.

(** Truth value of an optional string: [None] and [""] are false. *)
Definition falsy (h : option string) : bool :=
  match h with
  | None => true
  | Some s => negb (Py.truthy s)
  end.

Definition hash_eqb (a b : option string) : bool :=
  match a, b with
  | Some x, Some y => String.eqb x y
  | None, None => true
  | _, _ => false
  end.

Definition st_size (f : file) : nat := String.length (content f).

(** [move_file_safely(source, destination)]. *)
Definition move_file_safely (fs : gmap string file) (source destination : string)
  : gmap string file * bool :=
  let temp_destination := destination +:+ TEMP_SUFFIX in
  let source_hash := calculate_file_hash fs source in
  if falsy source_hash then (fs, false)
  else
    match fs !! source with
    | None => (delete temp_destination fs, false)
    | Some src =>
        (* shutil.copy2 keeps the modification time *)
        let tmp := mkFile (channel (content src)) (mtime src) in
        let fs1 := <[temp_destination := tmp]> fs in
        if negb (st_size src =? st_size tmp)%nat then
          (delete temp_destination fs1, false)
        else
          let destination_hash := calculate_file_hash fs1 temp_destination in
          if falsy destination_hash || negb (hash_eqb source_hash destination_hash) then
            (delete temp_destination fs1, false)
          else if negb rename_replaces && exists_file fs1 destination then
            (* the rename raises; the handler removes the temporary file *)
            (delete temp_destination fs1, false)
          else
            let fs2 := fs_step 0 fs1 (Rename temp_destination destination) in
            (delete source fs2, true)
    end.
End Mover.

End Receiver3.

(** ** [step-2/receiver.py] *)

Module Receiver2.

Import Regex.

(** The four directories the receiver works on, each a map from file
    names to files.  [input_metrics] is keyed by [YYYY-MM/name]. *)
Record world : Type := mkWorld {
  server_source : gmap string file;   (* SERVER_SOURCE_DIR *)
  local_dest : gmap string file;      (* LOCAL_DEST_DIR *)
  signals : gmap string file;         (* SIGNAL_DIR *)
  input_metrics : gmap string file    (* INPUT_METRICS_DIR *)
}.

Definition date_re : regex :=
  Cat (Times 4 digit) (Cat (Lit "-") (Cat (Times 2 digit) (Cat (Lit "-") (Times 2 digit)))).
Definition month_re : regex :=
  Cat (Times 4 digit) (Cat (Lit "-") (Times 2 digit)).

(** [(\d{4}-\d{2}-\d{2})\.complete] and [(\d{4}-\d{2})\.complete] *)
Definition daily_pattern : regex := Cat (Group date_re) (Lit ".complete").
Definition monthly_pattern : regex := Cat (Group month_re) (Lit ".complete").

(** [perf_metrics_(\d{4}-\d{2}-\d{2})\.parquet] *)
Definition output_file_re : regex :=
  Cat (Lit "perf_metrics_") (Cat (Group date_re) (Lit ".parquet")).

Definition any_char : regex := Chr (fun _ => true).
Definition not_slash : regex := Chr (fun c => negb (Ascii.eqb c "/"%char)).

(** Glob patterns as the regular expressions [fnmatch] makes of them:
    the whole name has to match. *)
Definition glob_suffix (suffix : string) : regex :=
  Cat Bol (Cat (Star any_char) (Cat (Lit suffix) Eol)).
Definition glob_prefix_suffix (prefix suffix : string) : regex :=
  Cat Bol (Cat (Lit prefix) (Cat (Star any_char) (Cat (Lit suffix) Eol))).

Definition matches (r : regex) (name : string) : bool :=
  match re_match r name with Some _ => true | None => false end.

(** Group 1 of [re.match]. *)
Definition match_group1 (r : regex) (name : string) : option string :=
  match re_match r name with
  | Some (_, Some g) => Some g
  | _ => None
  end.

(** Group 1 of [re.search]. *)
Definition search_group1 (r : regex) (name : string) : option string :=
  match flat_map (fun x => match x with Hit _ g => [g] | Skip _ => [] end)
                 (scan r name) with
  | g :: _ => g
  | [] => None
  end.

Definition names (dir : gmap string file) : list string :=
  map fst (map_to_list dir).

Definition source_name (date_str : string) : string :=
  "perf_metrics_" +:+ date_str +:+ ".parquet".

Definition with_signals (w : world) (s : gmap string file) : world :=
  mkWorld (server_source w) (local_dest w) s (input_metrics w).

(** The decision taken on a [.transferred] signal that is already
    there: a signal older than the [.complete] signal is removed and the
    file goes on to be transferred; otherwise the file is skipped. *)
Definition check_transferred (w : world) (complete : file) (date_str : string)
  : world * bool :=
  let transferred_signal := date_str +:+ ".transferred" in
  match signals w !! transferred_signal with
  | Some transferred =>
      if (mtime transferred <? mtime complete)%Z then
        (with_signals w (delete transferred_signal (signals w)), true)
      else (w, false)
  | None => (w, true)
  end.

(** The inner loop of the monthly case, for one output file of the
    month. *)
Definition visit_month_file (signal_file : file)
           (acc : world * list (string * string)) (source_file : string)
  : world * list (string * string) :=
  match search_group1 output_file_re source_file with
  | Some date_str =>
      let (w1, go_on) := check_transferred (fst acc) signal_file date_str in
      if go_on then (w1, snd acc ++ [(date_str, source_file)])
      else (w1, snd acc)
  | None => acc
  end.

(** The body of the loop of [find_completed_files] for one
    [.complete] signal. *)
Definition visit_signal (acc : world * list (string * string)) (signal_name : string)
  : world * list (string * string) :=
  match signals (fst acc) !! signal_name with
  | None => acc
  | Some signal_file =>
      match match_group1 daily_pattern signal_name with
      | Some date_str =>
          let (w1, go_on) := check_transferred (fst acc) signal_file date_str in
          if go_on then
            if exists_file (server_source w1) (source_name date_str)
            then (w1, snd acc ++ [(date_str, source_name date_str)])
            else (w1, snd acc)
          else (w1, snd acc)
      | None =>
          match match_group1 monthly_pattern signal_name with
          | Some month_str =>
              if exists_file (signals (fst acc)) (month_str +:+ ".transferred") then acc
              else
                fold_left (visit_month_file signal_file)
                  (filter (matches (glob_prefix_suffix ("perf_metrics_" +:+ month_str +:+ "-")
                                                       ".parquet"))
                          (names (server_source (fst acc))))
                  acc
          | None => acc
          end
      end
  end.

(** [find_completed_files]: the list of [(date_str, source_file)] to
    transfer, and the signal directory without the stale [.transferred]
    signals. *)
Definition find_completed_files (w : world) : world * list (string * string) :=
  fold_left visit_signal
            (filter (matches (glob_suffix ".complete")) (names (signals w)))
            (w, []).

(** [find_input_file(date_str)]: [year, month, day = date_str.split('-')]
    raises unless there are three fields; the input files of the day
    are looked up in the directory of the month. *)
Definition find_input_file (w : world) (date_str : string) : option (list string) :=
  match Py.split "-"%char date_str with
  | [year; month; day] =>
      let input_dir := year +:+ "-" +:+ month +:+ "/" in
      Some (filter (matches (Cat (Lit input_dir)
                              (Cat (Star not_slash)
                                (Cat (Lit date_str)
                                  (Cat (Star not_slash) (Cat (Lit ".parquet") Eol))))))
                   (names (input_metrics w)))
  | _ => None
  end.

(** [cleanup_input_files(date_str)]. *)
Definition cleanup_input_files (w : world) (date_str : string) : option world :=
  match find_input_file w date_str with
  | Some input_files =>
      Some (mkWorld (server_source w) (local_dest w) (signals w)
                    (fold_left (fun m n => delete n m) input_files (input_metrics w)))
  | None => None
  end.

(** [date_str.rsplit('-', 1)[0]] *)
Definition month_of (date_str : string) : string :=
  match rev (Py.split "-"%char date_str) with
  | _ :: (_ :: _) as front => Py.join "-" (rev front)
  | _ => date_str
  end.

(** What follows the arrival of the file at the destination, in both
    branches of [transfer_file]: clean-up of the inputs, the
    [.transferred] signal, removal of the [.complete] signals and of
    the source file.  [None] when the clean-up raises. *)
Definition finish_transfer (now : Z) (w : world) (source_file date_str : string)
  : option world :=
  match cleanup_input_files w date_str with
  | None => None
  | Some w =>
      let sig := fs_step now (signals w) (Touch (date_str +:+ ".transferred")) in
      let sig := delete (date_str +:+ ".complete") sig in
      let month_signal := month_of date_str +:+ ".complete" in
      let remaining_files :=
        filter (matches (glob_prefix_suffix ("perf_metrics_" +:+ month_of date_str +:+ "-")
                                            ".parquet"))
               (names (server_source w)) in
      let sig := match remaining_files with
                 | [] => delete month_signal sig
                 | _ :: _ => sig
                 end in
      Some (mkWorld (delete source_file (server_source w)) (local_dest w) sig
                    (input_metrics w))
  end.

(** A key the receiver takes for a day: the daily pattern finds it in
    the name of its [.complete] signal, and it has the three fields
    [find_input_file] unpacks. *)
Definition is_daily_key (d : string) : bool :=
  match match_group1 daily_pattern (d +:+ ".complete") with
  | Some g => String.eqb g d
  | None => false
  end &&
  (List.length (Py.split "-"%char d) =? 3)%nat.

(** [w'] is [w] with some [.transferred] signals removed. *)
Definition shrinks (w w' : world) : Prop :=
  server_source w' = server_source w /\
  local_dest w' = local_dest w /\
  input_metrics w' = input_metrics w /\
  forall q, signals w' !! q = signals w !! q \/
            (signals w' !! q = None /\ exists x, q = x +:+ ".transferred").

Definition grows (acc acc' : world * list (string * string)) : Prop :=
  shrinks (fst acc) (fst acc') /\ forall e, In e (snd acc) -> In e (snd acc').

(** The file [Path.touch] leaves: the old content, or none, and the
    current time. *)
Definition touched (now : Z) (old : option file) : file :=
  mkFile (match old with Some f => content f | None => "" end) now.

Section Mover.
(** The copy as the environment performs it: [channel c] is what the
    destination holds after [shutil.copy2] of a file holding [c]. *)
Variable channel : string -> string.

(** [transfer_file(source_path, date_str)].  The file is copied only
    when no file of its name is at the destination yet.  An exception
    ends the call with [False] after the temporary file is removed. *)
Definition transfer_file (now : Z) (w : world) (source_file date_str : string)
  : world * bool :=
  let dest_path := source_file in
  let temp_dest_path := "temp_" +:+ source_file in
  if exists_file (local_dest w) dest_path then
    match finish_transfer now w source_file date_str with
    | Some w' => (w', true)
    | None => (w, false)
    end
  else
    match server_source w !! source_file with
    | None =>
        (mkWorld (server_source w) (delete temp_dest_path (local_dest w))
                 (signals w) (input_metrics w), false)
    | Some src =>
        (* shutil.copy2 keeps the modification time *)
        let tmp := mkFile (channel (content src)) (mtime src) in
        let dest := fs_run now (<[temp_dest_path := tmp]> (local_dest w))
                           [Rename temp_dest_path dest_path] in
        let w1 := mkWorld (server_source w) dest (signals w) (input_metrics w) in
        match finish_transfer now w1 source_file date_str with
        | Some w' => (w', true)
        | None =>
            (mkWorld (server_source w1) (delete temp_dest_path (local_dest w1))
                     (signals w1) (input_metrics w1), false)
        end
    end.

(** One round of [main_loop] at time [now], before any retry limit is
    reached: the completed files are looked up and transferred one
    after the other. *)
Definition poll (now : Z) (w : world) : world :=
  let (w1, completed_files) := find_completed_files w in
  fold_left (fun w e => fst (transfer_file now w (snd e) (fst e))) completed_files w1.
End Mover.

End Receiver2.

(* ===================================================================== *)
(** * The fetcher ([FileDownloader], [download_folder_files]) *)
(* ===================================================================== *)

Module Fetcher.

(** What one request brings: an error before any byte is written
    ([session.get] or [raise_for_status] raises), or a stream of chunks
    that ends well or breaks with an exception. *)
Inductive response : Type :=
| HttpError
| Body (chunks : list string) (complete : bool).

Section Downloader.
(** The remote side: the response to the [n]-th request of a URL. *)
Variable respond : string -> nat -> response.

(** [f.write(chunk)] for every non-empty chunk. *)
Definition written (chunks : list string) : string :=
  fold_left (fun acc chunk => if Py.truthy chunk then acc +:+ chunk else acc)
            chunks "".

Definition getsize (fs : gmap string file) (p : string) : nat :=
  match fs !! p with
  | Some f => String.length (content f)
  | None => 0
  end.

(** One pass of the body of the retry loop: the file system after
    it, and whether it returned [True]. *)
Definition attempt_once (now : Z) (fs : gmap string file) (url local_path : string)
           (attempt : nat) : gmap string file * bool :=
  match respond url attempt with
  | HttpError => (fs, false)
  | Body chunks complete =>
      let fs1 := fs_run now fs [OpenTrunc local_path;
                                WriteClose local_path (written chunks)] in
      if complete then
        if exists_file fs1 local_path && (0 <? getsize fs1 local_path)%nat
        then (fs1, true)
        else (fs1, false)   (* "Downloaded file is empty or missing" *)
      else (fs1, false)
  end.

(** [download_file]: [for attempt in range(self.max_retries)]. *)
Fixpoint download_loop (now : Z) (fs : gmap string file) (url local_path : string)
         (attempt remaining : nat) : gmap string file * bool :=
  match remaining with
  | O => (fs, false)
  | S remaining' =>
      let (fs1, ok) := attempt_once now fs url local_path attempt in
      if ok then (fs1, true)
      else download_loop now fs1 url local_path (S attempt) remaining'
  end.

Definition download_file (max_retries : nat) (now : Z) (fs : gmap string file)
           (url local_path : string) : gmap string file * bool :=
  download_loop now fs url local_path 0 max_retries.

(** [results[url] = success] *)
Fixpoint set_result (url : string) (success : bool) (results : list (string * bool))
  : list (string * bool) :=
  match results with
  | [] => [(url, success)]
  | (u, b) :: rest =>
      if String.eqb u url then (u, success) :: rest
      else (u, b) :: set_result url success rest
  end.

(** [download_files_parallel]: every task is run; the tasks write to
    their own files and are taken here one after the other. *)
Definition download_files_parallel (max_retries : nat) (now : Z) (fs : gmap string file)
           (download_tasks : list (string * string))
  : gmap string file * list (string * bool) :=
  fold_left (fun (acc : gmap string file * list (string * bool)) task =>
               let (fs1, ok) := download_file max_retries now (fst acc) (fst task) (snd task) in
               (fs1, set_result (fst task) ok (snd acc)))
            download_tasks (fs, []).

Definition success_count (results : list (string * bool)) : nat :=
  List.length (filter (fun r => snd r) results).

Definition max_retries_default : nat := 3.

Definition required_files : list string :=
  ["block.csv"; "cpu.csv"; "mem.csv"; "llite.csv"].

(** [HpcDataTransformer.download_folder_files].  [base_url] ends with
    a slash, so that [urljoin] appends the relative name. *)
Definition download_folder_files (now : Z) (fs : gmap string file)
           (base_url folder_name folder_temp_dir : string)
  : gmap string file * bool :=
  let download_tasks :=
    map (fun file_name =>
           (base_url +:+ folder_name +:+ "/" +:+ file_name,
            path_join folder_temp_dir file_name))
        required_files in
  let (fs1, results) := download_files_parallel max_retries_default now fs download_tasks in
  (fs1, (success_count results =? List.length required_files)%nat).

(** [HttpExtractor._download_folder_files]; [base] is
    [self.base_url.rstrip('/')]. *)
Definition http_download_folder_files (now : Z) (fs : gmap string file)
           (base folder_name folder_temp_dir : string) (file_patterns : list string)
  : gmap string file * bool :=
  let download_tasks :=
    map (fun file_pattern =>
           (base +:+ "/" +:+ folder_name +:+ "/" +:+ file_pattern,
            path_join folder_temp_dir file_pattern))
        file_patterns in
  let (fs1, results) := download_files_parallel max_retries_default now fs download_tasks in
  (fs1, (0 <? success_count results)%nat).

(** An attempt delivers the file when its stream ends well and has
    written at least one byte. *)
Definition delivers (r : response) : bool :=
  match r with
  | Body chunks true => Py.truthy (written chunks)
  | _ => false
  end.

(** The file system after an attempt that got the response [r]. *)
Definition after_attempt (now : Z) (fs : gmap string file) (p : string) (r : response)
  : gmap string file :=
  match r with
  | HttpError => fs
  | Body chunks _ => <[p := mkFile (written chunks) now]> fs
  end.

(** One of the [max_retries] attempts on [url] delivers. *)
Definition succeeds (url : string) : bool :=
  existsb (fun i => delivers (respond url i)) (seq 0 max_retries_default).

Definition folder_tasks (base_url folder_name folder_temp_dir : string)
  : list (string * string) :=
  map (fun file_name =>
         (base_url +:+ folder_name +:+ "/" +:+ file_name,
          path_join folder_temp_dir file_name))
      required_files.

Definition record_all (tasks : list (string * string)) (res : list (string * bool))
  : list (string * bool) :=
  fold_left (fun res t => set_result (fst t) (succeeds (fst t)) res) tasks res.

Definition consistent (res : list (string * bool)) : Prop :=
  Forall (fun e => snd e = succeeds (fst e)) res.
End Downloader.

End Fetcher.

(* ===================================================================== *)
(** * The final clean-up ([step-3/consumer.py], [transform_dataframe]) *)
(* ===================================================================== *)

Module Consumer3.

Import Regex.

(** [[A-Z]+\d+] *)
Definition hostname : regex := Cat (Plus (Chr is_upper)) (Plus digit).

(** [-\d+(_C)?] *)
Definition negative_entry : regex :=
  Cat (Lit "-") (Cat (Plus digit) (Opt (Group (Lit "_C")))).

(** The chain of [str.replace_all] applied to the column [host_list]. *)
Definition transform_host_list (s : string) : string :=
  (* ([A-Z]+\d+)_C  ->  ${1} *)
  let s := replace_all (Cat (Group hostname) (Lit "_C")) [TG1] s in
  (* ([A-Z]+\d+)  ->  ${1}_C *)
  let s := replace_all (Group hostname) [TG1; TLit "_C"] s in
  (* [{,]\s*-\d+(_C)?\s*,?  ->  , *)
  let s := replace_all (Cat (Chr (one_of "{,"))
                         (Cat (Star space)
                           (Cat negative_entry (Cat (Star space) (Opt (Lit ","))))))
                       [TLit ","] s in
  (* ^-\d+(_C)?\s*,?\s*  ->  "" *)
  let s := replace_all (Cat Bol
                         (Cat negative_entry
                           (Cat (Star space) (Cat (Opt (Lit ",")) (Star space)))))
                       [] s in
  (* ,\s*-\d+(_C)?\s*$  ->  "" *)
  let s := replace_all (Cat (Lit ",")
                         (Cat (Star space) (Cat negative_entry (Cat (Star space) Eol))))
                       [] s in
  (* ,,+  ->  , *)
  let s := replace_all (Cat (Lit ",") (Plus (Lit ","))) [TLit ","] s in
  (* ^,|,$  ->  "" *)
  replace_all (Alt (Cat Bol (Lit ",")) (Cat (Lit ",") Eol)) [] s.

(** [[^A-Za-z]  ->  ""] on the column [exitcode]. *)
Definition clean_exitcode (s : string) : string :=
  replace_all (Chr (fun c => negb (is_letter c))) [] s.

(** The published [host_list] of an accounting [exec_host]: the
    aggregate stage, then the clean-up. *)
Definition published_host_list (exec_host : option string) : option string :=
  option_map transform_host_list (Consumer.parse_host_list exec_host).

(** The published [exitcode] of an accounting [Exit_status]. *)
Definition published_exitcode (exit_status : option Z) : string :=
  clean_exitcode (Consumer.get_exit_status_description exit_status).

End Consumer3.

(* ===================================================================== *)
(** * Concrete inputs used below *)
(* ===================================================================== *)

Module Examples.

(** A signal directory in which the month 2016-11 has a [complete] and
    a [failed] signal at once. *)
Definition both_signals : gmap string file :=
  <["ready/2016-11.complete" := mkFile "done" 20]>
    (<["ready/2016-11.failed" := mkFile "oops" 10]> ∅).

(** The [exec_host] of the host list scenario of the specification. *)
Definition exec_host_scenario : string := "NODE12/0+NODE03/1+NODE12/2+-1/0".

(** Remote sides for the fetcher: one that answers every request with
    an empty body, one whose stream of [cpu.csv] always breaks after
    some bytes, one that only has [cpu.csv]. *)
Definition empty_body_server (url : string) (n : nat) : Fetcher.response :=
  Fetcher.Body [""] true.

Definition breaking_server (url : string) (n : nat) : Fetcher.response :=
  if String.eqb url "http://repo/2016-11/cpu.csv"
  then Fetcher.Body ["user,nice"; "1,2"] false
  else Fetcher.Body ["data"] true.

Definition one_file_server (url : string) (n : nat) : Fetcher.response :=
  if String.eqb url "http://repo/2016-11/cpu.csv"
  then Fetcher.Body ["data"] true
  else Fetcher.HttpError.

(** The signal re-transfer scenario: the day 2016-11-03 was transferred
    at time 100 and its copy is at the destination; the consumer has
    written the day again and signalled [complete] at time 200. *)
Definition stale_world : Receiver2.world :=
  Receiver2.mkWorld
    (<["perf_metrics_2016-11-03.parquet" := mkFile "new" 200]> ∅)
    (<["perf_metrics_2016-11-03.parquet" := mkFile "old" 90]> ∅)
    (<["2016-11-03.complete" := mkFile "done" 200]>
       (<["2016-11-03.transferred" := mkFile "" 100]> ∅))
    ∅.

(** A day that is complete and has not been transferred yet. *)
Definition fresh_world : Receiver2.world :=
  Receiver2.mkWorld
    (<["perf_metrics_2016-11-03.parquet" := mkFile "PAR1-data" 200]> ∅)
    ∅
    (<["2016-11-03.complete" := mkFile "done" 200]> ∅)
    ∅.

(** A copy that gets the first byte wrong. *)
Definition garbling (c : string) : string :=
  match c with
  | String _ rest => String "X" rest
  | EmptyString => EmptyString
  end.

(** A metric file whose rows 1 to 250000 are [cpuuser] samples and
    whose row 250001 is a [memused] sample, all of job 1 on host NODE12
    in the minute that starts at second 1800, and the accounting record
    of the job. *)
Definition job1 : Consumer.JobRow :=
  Consumer.mkJob "job1" 1000 1200 9000 (Some "01:00:00") (Some 1%Q) (Some 16%Q)
                 "acct" "standby" "sim" (Some 0%Z) "alice" (Some "NODE12/0").

Definition cpu_row : Consumer.MetricRow := Consumer.mkMetric 1800 "1" "NODE12" "cpuuser" 50.
Definition mem_row : Consumer.MetricRow := Consumer.mkMetric 1830 "1" "NODE12" "memused" 6.


End Examples.

(* ===================================================================== *)
(** * Further parts of the pipeline *)
(* ===================================================================== *)

(** ** NFS transfer rate ([process_nfs_file]) *)

Module Nfs.
Import Transformer.

(** A row of [llite.csv] after the reading preamble: numeric columns
    coerced, rows with missing fields dropped, timestamp parsed. *)
Record NfsRow : Type := mkNfs {
  l_jobID : string;
  l_node : string;
  l_Timestamp_original : Z;
  read_bytes : Q;
  write_bytes : Q
}.

(** The frame is sorted by [jobID, node, Timestamp_original] and
    grouped by [jobID, node]: a series has no device. *)
Definition l_series (r : NfsRow) : string * string * string :=
  (l_jobID r, l_node r, "").

Definition BYTES_TO_MB : Q := 1 / inject_Z (1024 * 1024).
Definition MIN_TIME_DELTA : Q := 1 # 10.

Definition total_bytes (r : NfsRow) : Q := (read_bytes r + write_bytes r)%Q.

Definition time_delta_seconds (x p : NfsRow) : Q :=
  inject_Z (l_Timestamp_original x - l_Timestamp_original p).

Definition byte_delta (x p : NfsRow) : Q := (total_bytes x - total_bytes p)%Q.

Definition valid_rate_mask (xp : NfsRow * option NfsRow) : bool :=
  match snd xp with
  | None => false
  | Some p =>
      Qgeb (time_delta_seconds (fst xp) p) MIN_TIME_DELTA &&
      Qgeb (byte_delta (fst xp) p) 0
  end.

(** [Value_rate]: zero unless the mask holds, then clipped. *)
Definition Value_rate (xp : NfsRow * option NfsRow) : Q :=
  clip_lower 0
    (match snd xp with
     | Some p =>
         if valid_rate_mask xp then
           ((byte_delta (fst xp) p * BYTES_TO_MB) / time_delta_seconds (fst xp) p)%Q
         else 0%Q
     | None => 0%Q
     end).

Definition l_node_key (r : NfsRow) : node_key :=
  (l_jobID r, l_node r, l_Timestamp_original r).

(** [df[valid_rate_mask]] of the sorted frame. *)
Definition df_valid_rates (rows : list NfsRow) : list (NfsRow * option NfsRow) :=
  filter valid_rate_mask
         (with_prev l_series [] (sort_values l_series l_Timestamp_original rows)).

(** [process_nfs_file], from the sort on. *)
Definition process_nfs_file (rows : list NfsRow) : list FrescoRow :=
  let valid := df_valid_rates rows in
  map (fun k =>
         {| f_Job_Id := fst (fst k);
            f_Host := snd (fst k);
            f_Event := "nfs";
            f_Value := Qsum (map Value_rate
                                 (filter (fun xp => node_key_eqb (l_node_key (fst xp)) k) valid));
            f_Units := "MB/s";
            f_Timestamp := snd k |})
      (group_keys (map (fun xp => l_node_key (fst xp)) valid)).

End Nfs.

(** ** Memory ([process_mem_file]) *)

Module Mem.
Import Transformer.

(** A row of [mem.csv] after the numeric columns are coerced and the
    rows with missing fields dropped.  [m_timestamp] is the result of
    [pd.to_datetime(..., errors='coerce')]: [None] for a text that is
    not a time. *)
Record MemRow : Type := mkMem {
  m_jobID : string;
  m_node : string;
  m_timestamp : option Z;
  MemTotal : Q;
  MemFree : Q;
  FilePages : Q
}.

Definition BYTES_TO_GB : Q := 1 / inject_Z (1024 ^ 3).

(** The columns after [clip(lower=0)] and the two [min]. *)
Definition MemTotal' (r : MemRow) : Q := clip_lower 0 (MemTotal r).
Definition MemFree' (r : MemRow) : Q := Qmin (clip_lower 0 (MemFree r)) (MemTotal' r).
Definition memory_used_bytes (r : MemRow) : Q := (MemTotal' r - MemFree' r)%Q.
Definition FilePages' (r : MemRow) : Q :=
  Qmin (Qmin (clip_lower 0 (FilePages r)) (MemTotal' r)) (memory_used_bytes r).

Definition memused_value (r : MemRow) : Q :=
  clip_lower 0 (memory_used_bytes r * BYTES_TO_GB).
Definition memused_minus_diskcache_value (r : MemRow) : Q :=
  clip_lower 0 ((memory_used_bytes r - FilePages' r) * BYTES_TO_GB).

(** [df.dropna(subset=['Timestamp_original_parsed'])]. *)
Definition parsed (rows : list MemRow) : list (MemRow * Z) :=
  flat_map (fun r => match m_timestamp r with
                     | Some t => [(r, t)]
                     | None => []
                     end) rows.

Definition memused_df (df : list (MemRow * Z)) : list FrescoRow :=
  map (fun rt => {| f_Job_Id := m_jobID (fst rt);
                    f_Host := m_node (fst rt);
                    f_Event := "memused";
                    f_Value := memused_value (fst rt);
                    f_Units := "GB";
                    f_Timestamp := snd rt |}) df.

Definition memused_minus_diskcache_df (df : list (MemRow * Z)) : list FrescoRow :=
  map (fun rt => {| f_Job_Id := m_jobID (fst rt);
                    f_Host := m_node (fst rt);
                    f_Event := "memused_minus_diskcache";
                    f_Value := memused_minus_diskcache_value (fst rt);
                    f_Units := "GB";
                    f_Timestamp := snd rt |}) df.

(** [process_mem_file], from the clipping on. *)
Definition process_mem_file (rows : list MemRow) : list FrescoRow :=
  let df := parsed rows in
  memused_df df ++ memused_minus_diskcache_df df.

End Mem.

(** ** Waiting for a file to settle ([step-3/receiver.py]) *)

Module Stable.

Section Wait.
(** What the environment answers: [size_at k] is the size
    [get_file_size] reads at its [k]-th call (0 for a file that is not
    there), [clock k] is the [k]-th reading of [time.time()]. *)
Variable size_at : nat -> nat.
Variable clock : nat -> Z.
(** [shutdown_requested k] is the value of the global flag of that
    name, which the handler of SIGINT sets, as the [k]-th round reads
    it. *)
Variable shutdown_requested : nat -> bool.

(** The loop of [wait_for_stable_file], entered for the [k]-th time
    with [last_size] and [stable_time].  [None] when [fuel] rounds do
    not end it. *)
Fixpoint wait_loop (fuel : nat) (timeout : Z) (k : nat) (last_size stable_time : nat)
  : option bool :=
  match fuel with
  | O => None
  | S fuel' =>
      if (clock (S k) - clock 0 <? timeout)%Z then
        if shutdown_requested (S k) then Some false
        else
          let current_size := size_at (S k) in
          if (current_size =? last_size)%nat && (0 <? current_size)%nat then
            let stable_time := S stable_time in
            if (5 <=? stable_time)%nat then Some true
            else wait_loop fuel' timeout (S k) last_size stable_time
          else wait_loop fuel' timeout (S k) current_size 0
      else Some false
  end.

Definition wait_for_stable_file (fuel : nat) (timeout : Z) : option bool :=
  wait_loop fuel timeout 0 (size_at 0) 0.
End Wait.

End Stable.

(** ** More scenarios of the receiver *)

Module Scenarios.

(** The month 2016-11 is complete and one of its daily files, the last
    one, is in the source directory. *)
Definition last_file_of_month : Receiver2.world :=
  Receiver2.mkWorld
    (<["perf_metrics_2016-11-30.parquet" := mkFile "PAR1" 200]> ∅)
    ∅
    (<["2016-11.complete" := mkFile "done" 200]> ∅)
    ∅.

(** The day 2016-11-03 was transferred at time 100; its [complete]
    signal was written again at time 200, and its output file is not
    in the source directory. *)
Definition stale_without_file : Receiver2.world :=
  Receiver2.mkWorld
    ∅
    (<["perf_metrics_2016-11-03.parquet" := mkFile "old" 90]> ∅)
    (<["2016-11-03.complete" := mkFile "done" 200]>
       (<["2016-11-03.transferred" := mkFile "" 100]> ∅))
    ∅.

End Scenarios.

(** ** Dated names: ready signals and monthly folders *)

Module Dated.
Import Regex.

(** [$] of Python's [re] at the end of a pattern: the end of the
    subject, or the line feed that ends the subject. *)
Definition py_eol : regex := Cat (Opt (Chr (Ascii.eqb "010"%char))) Eol.

(** [^\d{4}-\d{2}-\d{2}$] and [^\d{4}-\d{2}$] *)
Definition daily_re : regex :=
  Cat Bol (Cat (Times 4 digit) (Cat (Lit "-") (Cat (Times 2 digit)
    (Cat (Lit "-") (Cat (Times 2 digit) py_eol))))).
Definition monthly_re : regex :=
  Cat Bol (Cat (Times 4 digit) (Cat (Lit "-") (Cat (Times 2 digit) py_eol))).

(** [^\d{4}-\d{2}/?$] *)
Definition monthly_folder_re : regex :=
  Cat Bol (Cat (Times 4 digit) (Cat (Lit "-") (Cat (Times 2 digit)
    (Cat (Opt (Lit "/")) py_eol)))).

(** [n] digits. *)
Definition digits (n : nat) (s : string) : bool :=
  (String.length s =? n)%nat && forallb is_digit (list_ascii_of_string s).

(** The character [c] does not occur in [s]. *)
Definition no_char (c : ascii) (s : string) : Prop :=
  forallb (fun x => negb (Ascii.eqb x c)) (list_ascii_of_string s) = true.

(** *** [ReadySignalManager.get_ready_jobs] *)

(** [Path.stem]: the name without its last suffix.  A name has a
    suffix when its last dot is neither its first nor its last
    character. *)
Fixpoint before_last_dot (s : string) : option string :=
  match s with
  | EmptyString => None
  | String c t =>
      match before_last_dot t with
      | Some pre => Some (String c pre)
      | None => if Ascii.eqb c "."%char then Some EmptyString else None
      end
  end.

Definition stem (name : string) : string :=
  match before_last_dot name with
  | Some pre =>
      if (0 <? String.length pre)%nat && (String.length pre <? String.length name - 1)%nat
      then pre else name
  | None => name
  end.

(** The tuples of the result: [(year, month)] or [(year, month, day)]. *)
Inductive ready_job : Type :=
| Monthly (year month : string)
| Daily (year month day : string).

(** [get_ready_jobs]; [names] are the names in the ready directory.
    An unpacking that fails raises, and the file is skipped. *)
Definition get_ready_jobs (names : list string) : list ready_job :=
  flat_map (fun name =>
              let date_str := stem name in
              if Receiver2.matches daily_re date_str then
                match Py.split "-"%char date_str with
                | [year; month; day] => [Daily year month day]
                | _ => []
                end
              else if Receiver2.matches monthly_re date_str then
                match Py.split "-"%char date_str with
                | [year; month] => [Monthly year month]
                | _ => []
                end
              else [])
           (filter (Receiver2.matches (Receiver2.glob_suffix ".ready")) names).

(** *** [FolderDiscovery.discover_folders] *)

Definition _is_monthly_folder (folder_name : string) : bool :=
  Receiver2.matches monthly_folder_re folder_name.

(** [href.rstrip('/')] *)
Fixpoint rstrip_slash (s : string) : string :=
  match s with
  | String c s' =>
      match rstrip_slash s' with
      | EmptyString => if Ascii.eqb c "/"%char then EmptyString else String c EmptyString
      | t => String c t
      end
  | EmptyString => EmptyString
  end.

(** [folders.sort()]: ascending in the order of the code points; equal
    names stay. *)
Fixpoint insert_name (x : string) (l : list string) : list string :=
  match l with
  | [] => [x]
  | y :: l' =>
      match Transformer.str_cmp x y with
      | Gt => y :: insert_name x l'
      | _ => x :: y :: l'
      end
  end.

Definition sort_names (l : list string) : list string := fold_right insert_name [] l.

(** [discover_folders]; [hrefs] are the [href] attributes of the links
    of the listing, in the order of the page. *)
Definition discover_folders (hrefs : list string) : list string :=
  sort_names (map rstrip_slash (filter _is_monthly_folder hrefs)).

End Dated.

(** ** The run over the monthly folders and its tracker *)

Module Tracker.

(** [ProcessingTracker]: the state in memory.  Each mark also writes the
    state to the status file; a failure of that write is logged and
    changes nothing here. *)
Record ProcessingTracker : Type := mkTracker {
  processed_folders : gset string;
  failed_folders : gset string;
  last_processed_index : Z
}.

(** [__init__] without a status file. *)
Definition new_tracker : ProcessingTracker := mkTracker ∅ ∅ (-1).

Definition mark_processed (t : ProcessingTracker) (folder_name : string) (index : Z)
  : ProcessingTracker :=
  mkTracker ({[folder_name]} ∪ processed_folders t)
            (failed_folders t ∖ {[folder_name]})
            (Z.max (last_processed_index t) index).

Definition mark_failed (t : ProcessingTracker) (folder_name : string) : ProcessingTracker :=
  mkTracker (processed_folders t ∖ {[folder_name]})
            ({[folder_name]} ∪ failed_folders t)
            (last_processed_index t).

Definition is_processed (t : ProcessingTracker) (folder_name : string) : bool :=
  bool_decide (folder_name ∈ processed_folders t).

Definition is_failed (t : ProcessingTracker) (folder_name : string) : bool :=
  bool_decide (folder_name ∈ failed_folders t).

(** [l[:n]] *)
Definition slice_to {A : Type} (n : Z) (l : list A) : list A :=
  if (n <? 0)%Z then firstn (List.length l - Z.to_nat (- n)) l
  else firstn (Z.to_nat n) l.

(** [enumerate(l)], counting from [i]. *)
Fixpoint enumerate_from {A : Type} (i : nat) (l : list A) : list (nat * A) :=
  match l with
  | [] => []
  | x :: l' => (i, x) :: enumerate_from (S i) l'
  end.

(** The folders [run_transformation] takes up: those not yet processed,
    cut to [max_folders] when that is given and not zero. *)
Definition pending_folders (folders : list string) (max_folders : option Z)
    (t : ProcessingTracker) : list string :=
  let pending_folders := filter (fun folder => negb (is_processed t folder)) folders in
  match max_folders with
  | Some n => if (n =? 0)%Z then pending_folders else slice_to n pending_folders
  | None => pending_folders
  end.

(** The variables of the loop. *)
Record loop_state : Type := mkLoop {
  tracker : ProcessingTracker;
  processed_count : nat;
  failed_count : nat
}.

(** The dictionary [run_transformation] returns, without the time. *)
Inductive stats : Type :=
| NothingFound (processed failed : nat)
| Finished (processed failed total_folders : nat)
           (all_folders_found folders_processed : list string).

Section Run.

(** What [process_single_folder] does with a folder at an index: it
    returns a truth value, or raises ([None]).  It does not touch the
    tracker. *)
Variable process_single_folder : string -> nat -> option bool.

Definition succeeded (x : nat * string) : bool :=
  match process_single_folder (snd x) (fst x) with
  | Some true => true
  | _ => false
  end.

(** One turn of the loop. *)
Definition visit (st : loop_state) (x : nat * string) : loop_state :=
  let '(index, folder_name) := x in
  match process_single_folder folder_name index with
  | Some true =>
      mkLoop (mark_processed (tracker st) folder_name (Z.of_nat index))
             (S (processed_count st)) (failed_count st)
  | Some false | None =>
      mkLoop (mark_failed (tracker st) folder_name)
             (processed_count st) (S (failed_count st))
  end.

(** [run_transformation]; [folders] is what [discover_folders] gave. *)
Definition run_transformation (folders : list string) (max_folders : option Z)
    (t : ProcessingTracker) : ProcessingTracker * stats :=
  match folders with
  | [] => (t, NothingFound 0 0)
  | _ :: _ =>
      let pending := pending_folders folders max_folders t in
      let st := fold_left visit (enumerate_from 0 pending) (mkLoop t 0 0) in
      (tracker st,
       Finished (processed_count st) (failed_count st) (List.length pending) folders
                (filter (is_processed (tracker st)) folders))
  end.

End Run.

(** An outcome for the examples: the folders of 2013 fail at their
    first visit. *)
Definition outcome_2013 (folder_name : string) (index : nat) : option bool :=
  if String.prefix "2013" folder_name then (if (index <? 2)%nat then None else Some true)
  else Some true.

End Tracker.

(** ** The transitions and the command line of the signal manager *)

Module Transitions.
Import Signals.

(** [str.isdigit] on ASCII text: not empty, digits only. *)
Definition isdigit (s : string) : bool :=
  Py.truthy s && forallb Regex.is_digit (list_ascii_of_string s).

(** [int(s)] for a string of digits. *)
Definition int_of_digits (s : string) : Z :=
  fold_left (fun acc c => (10 * acc + (Z.of_nat (nat_of_ascii c) - 48))%Z)
            (list_ascii_of_string s) 0%Z.

(** [s.zfill(width)] for a string without a sign. *)
Definition zfill (width : nat) (s : string) : string :=
  string_of_list_ascii (repeat "0"%char (width - String.length s)) +:+ s.
Section Manager.
Variable ready_dir : string.
Variable writable : string -> bool.
(** What [time.strftime('%Y-%m-%d %H:%M:%S')] returns during the call. *)
Variable strftime : string.

Definition default_message (text : string) (message : option string) : string :=
  match message with
  | Some m => m
  | None => text +:+ strftime
  end.

(** [create_ready_signal] and [create_processing_signal]. *)
Definition create_ready_signal (now : Z) (fs : gmap string file)
           (year month : string) (day : pyval) (message : option string)
  : gmap string file * bool :=
  create_signal ready_dir writable now fs year month day (PyEnum READY)
                (default_message "Files ready for processing at " message).

Definition create_processing_signal (now : Z) (fs : gmap string file)
           (year month : string) (day : pyval) (message : option string)
  : gmap string file * bool :=
  create_signal ready_dir writable now fs year month day (PyEnum PROCESSING)
                (default_message "Processing started at " message).

(** The [try] block that follows the creation of a [complete] or a
    [failed] signal: the [ready] and the [processing] signal are
    removed if they are there.  An exception ends the block and is
    logged. *)
Definition remove_ready_and_processing (fs : gmap string file)
           (year month : string) (day : pyval) : gmap string file :=
  match get_signal_path ready_dir year month day (PyEnum READY) with
  | Raise _ => fs
  | Ok ready_file =>
      match get_signal_path ready_dir year month day (PyEnum PROCESSING) with
      | Raise _ => fs
      | Ok processing_file =>
          let fs := if exists_file fs ready_file
                    then fs_step 0 fs (Unlink ready_file) else fs in
          if exists_file fs processing_file
          then fs_step 0 fs (Unlink processing_file) else fs
      end
  end.

Definition create_complete_signal (now : Z) (fs : gmap string file)
           (year month : string) (day : pyval) (message : option string)
  : gmap string file * bool :=
  let (fs, result) :=
    create_signal ready_dir writable now fs year month day (PyEnum COMPLETE)
                  (default_message "Processing completed successfully at " message) in
  (remove_ready_and_processing fs year month day, result).

Definition create_failed_signal (now : Z) (fs : gmap string file)
           (year month : string) (day : pyval) (message : option string)
  : gmap string file * bool :=
  let (fs, result) :=
    create_signal ready_dir writable now fs year month day (PyEnum FAILED)
                  (default_message "Processing failed at " message) in
  (remove_ready_and_processing fs year month day, result).

Definition status_eqb (a b : JobStatus) : bool :=
  match a, b with
  | UNKNOWN, UNKNOWN | READY, READY | PROCESSING, PROCESSING
  | COMPLETE, COMPLETE | FAILED, FAILED => true
  | _, _ => false
  end.

(** [is_ready], [is_processing], [is_complete], [is_failed]. *)
Definition is_ready (fs : gmap string file) (year month : string) : result bool :=
  let! s := check_status ready_dir fs year month in Ok (status_eqb s READY).
Definition is_processing (fs : gmap string file) (year month : string) : result bool :=
  let! s := check_status ready_dir fs year month in Ok (status_eqb s PROCESSING).
Definition is_complete (fs : gmap string file) (year month : string) : result bool :=
  let! s := check_status ready_dir fs year month in Ok (status_eqb s COMPLETE).
Definition is_failed (fs : gmap string file) (year month : string) : result bool :=
  let! s := check_status ready_dir fs year month in Ok (status_eqb s FAILED).

(** The command line of the module: [argv] is [sys.argv], the result
    is the file system and the exit status.  The optional fourth
    argument, the message, is passed as the third positional argument
    of the [create_..._signal] methods, which is their parameter
    [day]. *)
Definition main (now : Z) (fs : gmap string file) (argv : list string)
  : gmap string file * Z :=
  match argv with
  | _ :: command :: year :: month :: rest =>
      let command := Py.lower command in
      let message := match rest with m :: _ => PyStr m | [] => PyNone end in
      if negb (isdigit year && isdigit month && (String.length year =? 4)%nat &&
               (1 <=? int_of_digits month)%Z && (int_of_digits month <=? 12)%Z)
      then (fs, 1%Z)
      else
        let month := zfill 2 month in
        let finish (r : gmap string file * bool) :=
            (fst r, if snd r then 0%Z else 1%Z) in
        if String.eqb command "ready" then
          finish (create_ready_signal now fs year month message None)
        else if String.eqb command "processing" then
          finish (create_processing_signal now fs year month message None)
        else if String.eqb command "complete" then
          finish (create_complete_signal now fs year month message None)
        else if String.eqb command "failed" then
          finish (create_failed_signal now fs year month message None)
        else if String.eqb command "status" then
          match check_status ready_dir fs year month with
          | Ok _ => (fs, 0%Z)
          | Raise _ => (fs, 1%Z)
          end
        else (fs, 1%Z)
  | _ => (fs, 1%Z)
  end.
End Manager.

(** The date part of a signal name: the month and the day get a
    leading zero when they have one character. *)
Definition date_str_of (year month : string) (day : option string) : string :=
  let pad s := if (String.length s =? 1)%nat then "0" +:+ s else s in
  match day with
  | None => year +:+ "-" +:+ pad month
  | Some d => year +:+ "-" +:+ pad month +:+ "-" +:+ pad d
  end.

(** The text the four transitions write when no message is given. *)
Definition default_text (st : JobStatus) : string :=
  match st with
  | READY => "Files ready for processing at "
  | PROCESSING => "Processing started at "
  | COMPLETE => "Processing completed successfully at "
  | _ => "Processing failed at "
  end.

(** A day as the callers pass it: [None] or a string. *)
Definition day_val (day : option string) : pyval :=
  match day with None => PyNone | Some d => PyStr d end.

End Transitions.

(* ===================================================================== *)
(** * Facts about the regular expression matcher *)
(* ===================================================================== *)

Section RegexFacts.
Import Regex.

Lemma segments_chr_delete (p : ascii -> bool) (s : string) :
  forall fuel pos, (String.length s < fuel)%nat ->
    fold_right (fun x acc => match x with
                             | Skip c => String c acc
                             | Hit _ g => expand [] g +:+ acc
                             end) "" (segments fuel (Chr p) pos s)
    = Py.keep (fun c => negb (p c)) s.
Proof.
  induction s as [|c t IH]; intros fuel pos Hfuel.
  - destruct fuel; [simpl in Hfuel; lia | reflexivity].
  - destruct fuel as [|f]; [simpl in Hfuel; lia |].
    simpl in Hfuel.
    cbn [segments].
    unfold match_at. cbn [exec String.length].
    destruct (p c) eqn:Hp; cbn [negb].
    + replace (S pos =? pos)%nat with false
        by (symmetry; apply Nat.eqb_neq; lia).
      cbn [fold_right expand]. rewrite IH by lia.
      cbn [Py.keep]. rewrite Hp. reflexivity.
    + cbn [fold_right]. rewrite IH by lia.
      cbn [Py.keep]. rewrite Hp. reflexivity.
Qed.

Lemma replace_all_chr_delete (p : ascii -> bool) (s : string) :
  replace_all (Chr p) [] s = Py.keep (fun c => negb (p c)) s.
Proof.
  unfold replace_all, scan. apply segments_chr_delete. lia.
Qed.

Lemma keep_app (p : ascii -> bool) (a b : string) :
  Py.keep p (a +:+ b) = Py.keep p a +:+ Py.keep p b.
Proof.
  induction a as [|c a IH]; [reflexivity|].
  simpl. destruct (p c); simpl; now rewrite IH.
Qed.
End RegexFacts.

(* ===================================================================== *)
(** * The signal manager: status query and signal creation *)
(* ===================================================================== *)

Section SignalFacts.
Import Signals.

(** A member of [JobStatus] in the place of [day] makes
    [get_signal_path] raise: [len] is not defined on it. *)
Lemma get_signal_path_enum_day (dir year month : string) (s : JobStatus) (status : pyval) :
  get_signal_path dir year month (PyEnum s) status = Raise TypeError.
Proof. reflexivity. Qed.

(** [check_status] never returns a status, whatever the directory
    holds. *)
Lemma check_status_raises (dir : string) (fs : gmap string file) (year month : string) :
  check_status dir fs year month = Raise TypeError.
Proof. reflexivity. Qed.

(** C10.  The status query on a month that has both a [complete] and
    a [failed] signal: both files are there, and the query ends with
    a [TypeError] instead of the answer [COMPLETE] the priority order
    complete > failed > processing > ready asks for. *)
Theorem check_status_with_complete_and_failed :
  exists_file Examples.both_signals "ready/2016-11.complete" = true /\
  exists_file Examples.both_signals "ready/2016-11.failed" = true /\
  check_status "ready" Examples.both_signals "2016" "11" = Raise TypeError /\
  check_status "ready" Examples.both_signals "2016" "11" <> Ok COMPLETE.
Proof.
  split; [vm_compute; reflexivity|].
  split; [vm_compute; reflexivity|].
  rewrite check_status_raises. split; [reflexivity | discriminate].
Qed.

(** The operations of a signal whose path can be opened. *)
Lemma create_signal_ops_ok (dir : string) (writable : string -> bool)
      (year month : string) (day status : pyval) (message p : string) :
  get_signal_path dir year month day status = Ok p ->
  writable p = true ->
  create_signal_ops dir writable year month day status message
  = Ok [OpenTrunc p; WriteClose p message].
Proof. intros H Hw. unfold create_signal_ops. rewrite H. cbn [rbind]. now rewrite Hw. Qed.

(** A signal whose path cannot be opened is not written. *)
Lemma create_signal_refused (dir : string) (writable : string -> bool)
      (year month : string) (day status : pyval) (message p : string)
      (now : Z) (fs : gmap string file) :
  get_signal_path dir year month day status = Ok p ->
  writable p = false ->
  create_signal dir writable now fs year month day status message = (fs, false).
Proof.
  intros H Hw. unfold create_signal, create_signal_ops. rewrite H. cbn [rbind].
  now rewrite Hw.
Qed.

(** C8, as the code has it.  [create_signal] writes the signal in
    place: the file is opened under its final name, which creates or
    truncates it, and the message is written afterwards.  No
    temporary file and no rename take part.  When the path can be
    opened the call returns [True], the file holds the message and no
    other file has changed; when it cannot, as for a day with a slash
    in a ready directory without subdirectories, the call returns
    [False] and no file has changed. *)
Theorem create_signal_writes_in_place
        (dir : string) (writable : string -> bool) (year month : string)
        (day status : pyval) (message p : string)
        (now : Z) (fs : gmap string file) :
  get_signal_path dir year month day status = Ok p ->
  (writable p = true ->
   create_signal_ops dir writable year month day status message
   = Ok [OpenTrunc p; WriteClose p message] /\
   fs_observable now fs [OpenTrunc p; WriteClose p message]
   = [fs; <[p := mkFile "" now]> fs;
      <[p := mkFile message now]> (<[p := mkFile "" now]> fs)] /\
   snd (create_signal dir writable now fs year month day status message) = true /\
   fst (create_signal dir writable now fs year month day status message) !! p
   = Some (mkFile message now) /\
   (forall q, q <> p ->
      fst (create_signal dir writable now fs year month day status message) !! q
      = fs !! q)) /\
  (writable p = false ->
   create_signal dir writable now fs year month day status message = (fs, false)).
Proof.
  intros H. split.
  - intros Hw.
    split; [now apply create_signal_ops_ok|].
    split; [reflexivity|].
    unfold create_signal. rewrite (create_signal_ops_ok _ _ _ _ _ _ _ _ H Hw).
    cbn [fst snd fs_run fold_left fs_step].
    split; [reflexivity|].
    split.
    + apply lookup_insert_eq.
    + intros q Hq. rewrite !lookup_insert_ne by congruence. reflexivity.
  - intros Hw. now apply create_signal_refused with (p := p).
Qed.

Lemma create_signal_writes_in_place_witness :
  (get_signal_path "ready" "2016" "11" PyNone (PyEnum COMPLETE) = Ok "ready/2016-11.complete" /\
   flat_dir "ready" "ready/2016-11.complete" = true /\
   fst (create_signal "ready" (flat_dir "ready") 7 ∅ "2016" "11" PyNone (PyEnum COMPLETE)
                      "done")
     !! "ready/2016-11.complete" = Some (mkFile "done" 7)) /\
  (get_signal_path "ready" "2016" "11" (PyStr "all/done") (PyEnum COMPLETE)
   = Ok "ready/2016-11-all/done.complete" /\
   flat_dir "ready" "ready/2016-11-all/done.complete" = false /\
   create_signal "ready" (flat_dir "ready") 7 ∅ "2016" "11" (PyStr "all/done")
                 (PyEnum COMPLETE) "done" = (∅, false)).
Proof.
  split.
  - split; [reflexivity|]. split; [reflexivity|].
    apply (create_signal_writes_in_place "ready" (flat_dir "ready") "2016" "11" PyNone
             (PyEnum COMPLETE) "done" "ready/2016-11.complete" 7 ∅); reflexivity.
  - split; [reflexivity|]. split; [reflexivity|].
    apply (create_signal_writes_in_place "ready" (flat_dir "ready") "2016" "11"
             (PyStr "all/done") (PyEnum COMPLETE) "done"
             "ready/2016-11-all/done.complete" 7 ∅); reflexivity.
Defined.

(** C8, as the specification states it, fails: the operations of
    [create_signal] for the [complete] signal of 2016-11 contain no
    rename, and between them the signal file is there under its final
    name with none of its content. *)
Lemma create_signal_not_atomic :
  exists ops mid,
    create_signal_ops "ready" (flat_dir "ready") "2016" "11" PyNone (PyEnum COMPLETE) "done"
    = Ok ops /\
    (forall src dst, ~ In (Rename src dst) ops) /\
    In mid (fs_observable 7 ∅ ops) /\
    mid !! "ready/2016-11.complete" = Some (mkFile "" 7) /\
    mid !! "ready/2016-11.complete" <> Some (mkFile "done" 7).
Proof.
  exists [OpenTrunc "ready/2016-11.complete"; WriteClose "ready/2016-11.complete" "done"].
  exists (<["ready/2016-11.complete" := mkFile "" 7]> ∅).
  split; [reflexivity|].
  split.
  { intros src dst [H|[H|[]]]; discriminate. }
  split.
  { cbn. right. left. reflexivity. }
  rewrite lookup_insert_eq. split; [reflexivity | discriminate].
Qed.
End SignalFacts.

(* ===================================================================== *)
(** * Exit status and host list *)
(* ===================================================================== *)

Section StringFacts.
Import Regex.

Lemma string_of_uint_no_letter (d : Decimal.uint) :
  Py.keep is_letter (NilEmpty.string_of_uint d) = "".
Proof. induction d; cbn; auto. Qed.

Lemma str_of_int_no_letter (n : Z) :
  Py.keep is_letter (Py.str_of_int n) = "".
Proof.
  unfold Py.str_of_int, NilEmpty.string_of_int.
  destruct (Z.to_int n); cbn; apply string_of_uint_no_letter.
Qed.

Lemma clean_exitcode_keep (s : string) :
  Consumer3.clean_exitcode s = Py.keep is_letter s.
Proof.
  unfold Consumer3.clean_exitcode. rewrite replace_all_chr_delete.
  induction s as [|c s IH]; [reflexivity|].
  cbn [Py.keep]. rewrite Bool.negb_involutive, IH. reflexivity.
Qed.

(** The text of an integer is its decimal numeral: digits that read
    back as the number, after a minus sign when it is negative. *)
Lemma digits_of_uint_acc (d : Decimal.uint) :
  forall acc : positive,
    fold_left (fun acc c => (10 * acc + (Z.of_nat (nat_of_ascii c) - 48))%Z)
              (list_ascii_of_string (NilEmpty.string_of_uint d)) (Z.pos acc)
    = Z.pos (Pos.of_uint_acc d acc).
Proof.
  induction d; intros acc;
    cbn [NilEmpty.string_of_uint list_ascii_of_string fold_left Pos.of_uint_acc];
    [reflexivity|..]; rewrite <- IHd; f_equal;
    match goal with |- context [nat_of_ascii ?c] =>
      let v := eval vm_compute in (Z.of_nat (nat_of_ascii c)) in
      change (Z.of_nat (nat_of_ascii c)) with v
    end; lia.
Qed.

Lemma digits_of_uint (d : Decimal.uint) :
  Transitions.int_of_digits (NilEmpty.string_of_uint d) = Z.of_N (Pos.of_uint d).
Proof.
  unfold Transitions.int_of_digits.
  induction d; cbn [NilEmpty.string_of_uint list_ascii_of_string fold_left Pos.of_uint];
    [reflexivity | exact IHd | ..]; apply (digits_of_uint_acc d).
Qed.

Lemma string_of_uint_digits (d : Decimal.uint) :
  forallb is_digit (list_ascii_of_string (NilEmpty.string_of_uint d)) = true.
Proof. induction d; cbn; auto. Qed.

Lemma str_of_int_decimal (n : Z) :
  ((0 <= n)%Z ->
   Transitions.isdigit (Py.str_of_int n) = true /\
   Transitions.int_of_digits (Py.str_of_int n) = n) /\
  ((n < 0)%Z -> Py.str_of_int n = "-" +:+ Py.str_of_int (- n)).
Proof.
  unfold Py.str_of_int, Transitions.isdigit. split.
  - intros Hn. destruct n as [|p|p]; [split; reflexivity| |lia].
    cbn [Z.to_int NilEmpty.string_of_int]. split.
    + rewrite string_of_uint_digits, Bool.andb_true_r.
      pose proof (Unsigned.to_uint_nonnil p) as Hnil.
      destruct (Pos.to_uint p); [congruence|reflexivity..].
    + now rewrite digits_of_uint, Unsigned.of_to.
  - intros Hn. destruct n as [|p|p]; [lia | lia | reflexivity].
Qed.

(** C5.  The aggregate stage maps the exit status 0 to ["COMPLETED"],
    any other integer [n] to ["FAILED:"] followed by the decimal
    numeral of [n], and a null to ["UNKNOWN"]; the clean-up then
    leaves ["COMPLETED"], ["FAILED"] and ["UNKNOWN"].  The decimal
    numeral of [n] is a string of digits whose value is [n], after a
    minus sign when [n] is negative.  The statuses 0, 7 and null give
    COMPLETED, FAILED:7, UNKNOWN and then COMPLETED, FAILED, UNKNOWN. *)
Theorem exit_status_mapping (n : Z) :
  Consumer.get_exit_status_description (Some n)
  = (if (n =? 0)%Z then "COMPLETED" else "FAILED:" +:+ Py.str_of_int n) /\
  ((0 <= n)%Z ->
   Transitions.isdigit (Py.str_of_int n) = true /\
   Transitions.int_of_digits (Py.str_of_int n) = n) /\
  ((n < 0)%Z -> Py.str_of_int n = "-" +:+ Py.str_of_int (- n)) /\
  Consumer.get_exit_status_description None = "UNKNOWN" /\
  Consumer3.published_exitcode (Some n)
  = (if (n =? 0)%Z then "COMPLETED" else "FAILED") /\
  Consumer3.published_exitcode None = "UNKNOWN" /\
  map Consumer.get_exit_status_description [Some 0%Z; Some 7%Z; None]
  = ["COMPLETED"; "FAILED:7"; "UNKNOWN"] /\
  map Consumer3.published_exitcode [Some 0%Z; Some 7%Z; None]
  = ["COMPLETED"; "FAILED"; "UNKNOWN"].
Proof.
  split.
  { unfold Consumer.get_exit_status_description. cbn.
    destruct (n =? 0)%Z; reflexivity. }
  split; [apply str_of_int_decimal|].
  split; [apply str_of_int_decimal|].
  split; [reflexivity|].
  split.
  { unfold Consumer3.published_exitcode, Consumer.get_exit_status_description.
    cbn [Consumer.eq_zero Consumer.is_not_null Consumer.cast_utf8].
    rewrite clean_exitcode_keep.
    destruct (n =? 0)%Z; [reflexivity|].
    rewrite keep_app, str_of_int_no_letter. reflexivity. }
  split; [reflexivity|].
  split; vm_compute; reflexivity.
Qed.

(** C2.  The host list scenario of the specification, on the code:
    the aggregate stage keeps the entry [-1], and the clean-up that
    removes it takes the opening brace with it. *)
Theorem host_list_scenario :
  Consumer.parse_host_list (Some Examples.exec_host_scenario)
  = Some "{-1_C,NODE03_C,NODE12_C}" /\
  Consumer3.published_host_list (Some Examples.exec_host_scenario)
  = Some "NODE03_C,NODE12_C}" /\
  Consumer3.published_host_list (Some Examples.exec_host_scenario)
  <> Some "{NODE03_C,NODE12_C}".
Proof.
  assert (H : Consumer3.published_host_list (Some Examples.exec_host_scenario)
              = Some "NODE03_C,NODE12_C}") by (vm_compute; reflexivity).
  split; [vm_compute; reflexivity|].
  split; [exact H|].
  rewrite H. discriminate.
Qed.
End StringFacts.

(* ===================================================================== *)
(** * The fetcher: retries and the success of a folder *)
(* ===================================================================== *)

Lemma truthy_length (s : string) : (0 <? String.length s)%nat = Py.truthy s.
Proof. destruct s; reflexivity. Qed.

Lemma eqb_app_prefix (a x y : string) :
  String.eqb (a +:+ x) (a +:+ y) = String.eqb x y.
Proof.
  induction a as [|c a IH]; [reflexivity|].
  change (String.eqb (String c (a +:+ x)) (String c (a +:+ y)) = String.eqb x y).
  cbn [String.eqb]. rewrite Ascii.eqb_refl. exact IH.
Qed.

Lemma app_inj_prefix (a x y : string) : a +:+ x = a +:+ y -> x = y.
Proof.
  induction a as [|c a IH]; [auto|].
  change (String c (a +:+ x) = String c (a +:+ y) -> x = y).
  intros H. injection H. exact IH.
Qed.

Lemma path_join_inj (dir f g : string) : path_join dir f = path_join dir g -> f = g.
Proof. unfold path_join. intros H. now do 2 apply app_inj_prefix in H. Qed.

Section FetcherFacts.
Import Fetcher.
Variable respond : string -> nat -> response.

(** One attempt: what it leaves on disk and whether it returns [True]. *)
Lemma attempt_once_spec now fs url p i :
  attempt_once respond now fs url p i
  = (after_attempt now fs p (respond url i), delivers (respond url i)).
Proof.
  unfold attempt_once, after_attempt, delivers.
  destruct (respond url i) as [|chunks complete]; [reflexivity|].
  cbn [fs_run fold_left fs_step].
  rewrite insert_insert_eq.
  unfold exists_file, getsize. rewrite lookup_insert_eq. cbn [content andb].
  rewrite truthy_length.
  destruct complete; [|reflexivity].
  destruct (Py.truthy (written chunks)); reflexivity.
Qed.

(** The retry loop succeeds exactly when one of its attempts delivers;
    it then leaves a non-empty file, and it never touches another
    path. *)
Lemma download_loop_spec now url p remaining :
  forall attempt fs,
    let r := download_loop respond now fs url p attempt remaining in
    snd r = existsb (fun i => delivers (respond url i)) (seq attempt remaining) /\
    (snd r = true -> exists c, fst r !! p = Some (mkFile c now) /\ c <> "") /\
    (forall q, q <> p -> fst r !! q = fs !! q).
Proof.
  induction remaining as [|n IH]; intros attempt fs; cbn [download_loop seq existsb].
  - cbn. split; [reflexivity|]. split; [discriminate | reflexivity].
  - rewrite attempt_once_spec.
    destruct (delivers (respond url attempt)) eqn:Hd; cbn [orb].
    + cbn [fst snd]. split; [reflexivity|]. split.
      * intros _. unfold delivers in Hd. unfold after_attempt.
        destruct (respond url attempt) as [|chunks [|]]; try discriminate.
        exists (written chunks). rewrite lookup_insert_eq. split; [reflexivity|].
        intros E. rewrite E in Hd. discriminate.
      * intros q Hq. unfold after_attempt.
        destruct (respond url attempt); [reflexivity|].
        rewrite lookup_insert_ne by congruence. reflexivity.
    + specialize (IH (S attempt) (after_attempt now fs p (respond url attempt))).
      cbv zeta in IH. destruct IH as (IH1 & IH2 & IH3).
      split; [exact IH1|]. split; [exact IH2|].
      intros q Hq. rewrite IH3 by exact Hq.
      unfold after_attempt. destruct (respond url attempt); [reflexivity|].
      rewrite lookup_insert_ne by congruence. reflexivity.
Qed.

Lemma download_file_spec now fs url p :
  let r := download_file respond max_retries_default now fs url p in
  snd r = succeeds respond url /\
  (snd r = true -> exists c, fst r !! p = Some (mkFile c now) /\ c <> "") /\
  (forall q, q <> p -> fst r !! q = fs !! q).
Proof. apply download_loop_spec. Qed.

Lemma download_files_parallel_results now tasks :
  forall fs res,
    snd (fold_left
           (fun (acc : gmap string file * list (string * bool)) task =>
              let (fs1, ok) := download_file respond max_retries_default now
                                             (fst acc) (fst task) (snd task) in
              (fs1, set_result (fst task) ok (snd acc))) tasks (fs, res))
    = record_all respond tasks res.
Proof.
  induction tasks as [|t tasks IH]; intros fs res; [reflexivity|].
  cbn [fold_left record_all fst snd].
  pose proof (download_file_spec now fs (fst t) (snd t)) as (H1 & _).
  cbv zeta in H1.
  destruct (download_file respond max_retries_default now fs (fst t) (snd t)) as [fs1 ok].
  cbn [snd] in H1. subst ok. apply IH.
Qed.

Lemma download_files_parallel_files now tasks :
  forall fs res,
    let r := fold_left
               (fun (acc : gmap string file * list (string * bool)) task =>
                  let (fs1, ok) := download_file respond max_retries_default now
                                                 (fst acc) (fst task) (snd task) in
                  (fs1, set_result (fst task) ok (snd acc))) tasks (fs, res) in
    (forall q, (forall t, In t tasks -> snd t <> q) -> fst r !! q = fs !! q) /\
    (NoDup (map snd tasks) ->
     forall t, In t tasks -> succeeds respond (fst t) = true ->
               exists c, fst r !! snd t = Some (mkFile c now) /\ c <> "").
Proof.
  induction tasks as [|t tasks IH]; intros fs res; cbn [fold_left].
  - split; [reflexivity|]. intros _ t [].
  - pose proof (download_file_spec now fs (fst t) (snd t)) as (H1 & H2 & H3).
    cbv zeta in H1, H2, H3. cbn [fst].
    destruct (download_file respond max_retries_default now fs (fst t) (snd t)) as [fs1 ok].
    cbn [fst snd] in *.
    specialize (IH fs1 (set_result (fst t) ok res)). cbv zeta in IH.
    destruct IH as [IHa IHb]. split.
    + intros q Hq. rewrite IHa by (intros t' Ht'; apply Hq; now right).
      apply H3. intros E. apply (Hq t); [now left | congruence].
    + intros Hnd t' [->|Ht'] Hok.
      * inversion Hnd as [|? ? Hnotin Hnd']; subst.
        rewrite IHa.
        { apply H2. congruence. }
        intros t'' Ht'' E. apply Hnotin. rewrite <- E. now apply in_map.
      * inversion Hnd; subst. now apply IHb.
Qed.

Lemma url_eqb (base folder f g : string) :
  String.eqb (base +:+ folder +:+ "/" +:+ f) (base +:+ folder +:+ "/" +:+ g)
  = String.eqb f g.
Proof. now rewrite !eqb_app_prefix. Qed.

Lemma required_results (base folder dir : string) :
  record_all respond (folder_tasks base folder dir) []
  = map (fun f => (base +:+ folder +:+ "/" +:+ f,
                   succeeds respond (base +:+ folder +:+ "/" +:+ f))) required_files.
Proof.
  unfold folder_tasks, required_files, record_all.
  cbn [map fold_left fst snd set_result].
  repeat (rewrite url_eqb;
          match goal with
          | |- context [String.eqb ?a ?b] =>
              let v := eval vm_compute in (String.eqb a b) in
              change (String.eqb a b) with v
          end;
          cbn [set_result fst snd]).
  reflexivity.
Qed.

Lemma required_paths_nodup (base folder dir : string) :
  NoDup (map snd (folder_tasks base folder dir)).
Proof.
  unfold folder_tasks. rewrite map_map. cbn [snd].
  apply Finite.Injective_map_NoDup.
  - intros f g. apply path_join_inj.
  - unfold required_files.
    repeat constructor; cbn; intuition discriminate.
Qed.

Lemma download_folder_files_unfold now fs base folder dir :
  download_folder_files respond now fs base folder dir
  = (fst (download_files_parallel respond max_retries_default now fs
                                  (folder_tasks base folder dir)),
     (success_count (record_all respond (folder_tasks base folder dir) []) =? 4)%nat).
Proof.
  unfold download_folder_files. fold (folder_tasks base folder dir).
  pose proof (download_files_parallel_results now (folder_tasks base folder dir) fs []) as H.
  unfold download_files_parallel.
  destruct (fold_left _ _ _) as [fs1 results]. cbn [snd] in H. subst results.
  reflexivity.
Qed.

Lemma folder_success_iff now fs base folder dir :
  snd (download_folder_files respond now fs base folder dir) = true <->
  (forall f, In f required_files ->
             succeeds respond (base +:+ folder +:+ "/" +:+ f) = true).
Proof.
  rewrite download_folder_files_unfold. cbn [snd].
  rewrite required_results. unfold required_files, success_count.
  cbn [map filter snd].
  transitivity (succeeds respond (base +:+ folder +:+ "/" +:+ "block.csv") = true /\
                succeeds respond (base +:+ folder +:+ "/" +:+ "cpu.csv") = true /\
                succeeds respond (base +:+ folder +:+ "/" +:+ "mem.csv") = true /\
                succeeds respond (base +:+ folder +:+ "/" +:+ "llite.csv") = true).
  - destruct (succeeds respond (base +:+ folder +:+ "/" +:+ "block.csv"));
    destruct (succeeds respond (base +:+ folder +:+ "/" +:+ "cpu.csv"));
    destruct (succeeds respond (base +:+ folder +:+ "/" +:+ "mem.csv"));
    destruct (succeeds respond (base +:+ folder +:+ "/" +:+ "llite.csv"));
    cbn; intuition discriminate.
  - split.
    + intros (H1 & H2 & H3 & H4) f [<-|[<-|[<-|[<-|[]]]]]; assumption.
    + intros H. repeat split; apply H; cbn; tauto.
Qed.

Lemma folder_success_files now fs base folder dir :
  snd (download_folder_files respond now fs base folder dir) = true ->
  forall f, In f required_files ->
    exists c, fst (download_folder_files respond now fs base folder dir)
                !! path_join dir f = Some (mkFile c now) /\ c <> "".
Proof.
  intros Hok f Hf.
  pose proof (proj1 (folder_success_iff now fs base folder dir) Hok f Hf) as Hs.
  rewrite download_folder_files_unfold. cbn [fst].
  unfold download_files_parallel.
  pose proof (download_files_parallel_files now (folder_tasks base folder dir) fs [])
    as [_ H].
  cbv zeta in H.
  apply (H (required_paths_nodup base folder dir)
           (base +:+ folder +:+ "/" +:+ f, path_join dir f)).
  - unfold folder_tasks. apply in_map_iff. now exists f.
  - exact Hs.
Qed.

(** The results dictionary of the HTTP extractor. *)
Lemma set_result_consistent (u : string) (res : list (string * bool)) :
  consistent respond res -> consistent respond (set_result u (succeeds respond u) res).
Proof.
  unfold consistent. induction 1 as [|[u0 b0] res H0 Hres IH]; cbn [set_result].
  - repeat constructor.
  - destruct (String.eqb_spec u0 u) as [->|Hne].
    + constructor; [reflexivity | exact Hres].
    + constructor; [exact H0 | exact IH].
Qed.

Lemma set_result_existsb (u : string) (res : list (string * bool)) :
  consistent respond res ->
  existsb snd (set_result u (succeeds respond u) res)
  = existsb snd res || succeeds respond u.
Proof.
  unfold consistent. induction 1 as [|[u0 b0] res H0 Hres IH]; cbn [set_result existsb].
  - cbn. now rewrite Bool.orb_false_r.
  - cbn [fst snd] in H0.
    destruct (String.eqb_spec u0 u) as [->|Hne]; cbn [existsb snd].
    + subst b0. destruct (succeeds respond u), (existsb snd res); reflexivity.
    + rewrite IH. now rewrite Bool.orb_assoc.
Qed.

Lemma record_all_existsb (tasks : list (string * string)) :
  forall res, consistent respond res ->
    existsb snd (record_all respond tasks res)
    = existsb snd res || existsb (fun t => succeeds respond (fst t)) tasks.
Proof.
  induction tasks as [|t tasks IH]; intros res Hres; cbn [record_all fold_left existsb].
  - now rewrite Bool.orb_false_r.
  - change (fold_left _ tasks ?r) with (record_all respond tasks r).
    rewrite IH by now apply set_result_consistent.
    rewrite set_result_existsb by exact Hres.
    now rewrite Bool.orb_assoc.
Qed.

Lemma success_count_pos (res : list (string * bool)) :
  (0 <? success_count res)%nat = existsb snd res.
Proof.
  unfold success_count. induction res as [|[u b] res IH]; [reflexivity|].
  cbn [filter existsb snd]. destruct b; [reflexivity | exact IH].
Qed.

Lemma http_success_iff now fs base folder dir patterns :
  snd (http_download_folder_files respond now fs base folder dir patterns) = true <->
  exists f, In f patterns /\
            succeeds respond (base +:+ "/" +:+ folder +:+ "/" +:+ f) = true.
Proof.
  unfold http_download_folder_files.
  set (tasks := map _ patterns).
  pose proof (download_files_parallel_results now tasks fs []) as H.
  unfold download_files_parallel.
  destruct (fold_left _ _ _) as [fs1 results]. cbn [snd] in H |- *. subst results.
  rewrite success_count_pos, record_all_existsb by constructor.
  cbn [existsb orb]. rewrite existsb_exists. subst tasks. split.
  - intros (t & Ht & Hs). apply in_map_iff in Ht as (f & <- & Hf). now exists f.
  - intros (f & Hf & Hs).
    exists (base +:+ "/" +:+ folder +:+ "/" +:+ f, path_join dir f).
    split; [apply in_map_iff; now exists f | exact Hs].
Qed.

(** C7, as the code has it.  An attempt that ends with an empty file
    counts as a failed attempt, and the empty file stays where it is.
    A download succeeds exactly when one of its three attempts ends
    well with a non-empty file.  [HpcDataTransformer] reports success
    for a folder exactly when the download of each of the four
    required files succeeds, and then the four files are there and are
    not empty; [HttpExtractor] reports success exactly when the
    download of at least one of its files succeeds. *)
Theorem folder_download_success_criterion
        (now : Z) (fs : gmap string file) (base_url folder_name folder_temp_dir : string) :
  (forall url p i fs0 chunks,
      respond url i = Body chunks true -> written chunks = "" ->
      attempt_once respond now fs0 url p i = (<[p := mkFile "" now]> fs0, false)) /\
  (forall url p,
      snd (download_file respond max_retries_default now fs url p)
      = existsb (fun i => delivers (respond url i)) (seq 0 3)) /\
  (snd (download_folder_files respond now fs base_url folder_name folder_temp_dir) = true
   <-> forall f, In f required_files ->
                 succeeds respond (base_url +:+ folder_name +:+ "/" +:+ f) = true) /\
  (snd (download_folder_files respond now fs base_url folder_name folder_temp_dir) = true
   -> forall f, In f required_files ->
        exists c,
          fst (download_folder_files respond now fs base_url folder_name folder_temp_dir)
            !! path_join folder_temp_dir f = Some (mkFile c now) /\ c <> "") /\
  (forall patterns,
      snd (http_download_folder_files respond now fs base_url folder_name folder_temp_dir
                                      patterns) = true
      <-> exists f, In f patterns /\
                    succeeds respond (base_url +:+ "/" +:+ folder_name +:+ "/" +:+ f) = true).
Proof.
  split.
  { intros url p i fs0 chunks Hr Hw. rewrite attempt_once_spec, Hr.
    cbn [after_attempt delivers]. rewrite Hw. reflexivity. }
  split.
  { intros url p. apply download_file_spec. }
  split; [apply folder_success_iff|].
  split; [apply folder_success_files|].
  intros patterns. apply http_success_iff.
Qed.
End FetcherFacts.

(** C7, as the specification states it, fails.  When every answer is
    an empty body the download fails and the zero-byte file is still
    there.  When the stream of [cpu.csv] breaks after some bytes in all
    three attempts, the four required files are there and not empty and
    the folder is reported failed.  The HTTP extractor reports success
    with one of its two files missing. *)
Lemma zero_byte_file_is_left_in_place :
  (let r := Fetcher.download_file Examples.empty_body_server 3 10 ∅
              "http://repo/2016-11/cpu.csv" "temp/2016-11/cpu.csv" in
   snd r = false /\ fst r !! "temp/2016-11/cpu.csv" = Some (mkFile "" 10)) /\
  (let r := Fetcher.download_folder_files Examples.breaking_server 10 ∅
              "http://repo/" "2016-11" "temp/2016-11" in
   snd r = false /\
   map (fun f => content <$> (fst r !! path_join "temp/2016-11" f)) Fetcher.required_files
   = [Some "data"; Some "user,nice1,2"; Some "data"; Some "data"]) /\
  (let r := Fetcher.http_download_folder_files Examples.one_file_server 10 ∅
              "http://repo" "2016-11" "temp/2016-11" ["block.csv"; "cpu.csv"] in
   snd r = true /\ fst r !! "temp/2016-11/block.csv" = None).
Proof.
  repeat split; vm_compute; reflexivity.
Qed.

Lemma folder_download_success_criterion_witness :
  Examples.empty_body_server "http://repo/2016-11/cpu.csv" 0 = Fetcher.Body [""] true /\
  Fetcher.written [""] = "" /\
  Fetcher.attempt_once Examples.empty_body_server 10 ∅
                       "http://repo/2016-11/cpu.csv" "temp/2016-11/cpu.csv" 0
  = (<["temp/2016-11/cpu.csv" := mkFile "" 10]> ∅, false).
Proof.
  split; [reflexivity|]. split; [reflexivity|].
  apply (proj1 (folder_download_success_criterion Examples.empty_body_server 10 ∅
                  "http://repo/" "2016-11" "temp/2016-11")
               "http://repo/2016-11/cpu.csv" "temp/2016-11/cpu.csv" 0%nat ∅ [""]);
    reflexivity.
Defined.

(* ===================================================================== *)
(** * More facts about the matcher and about strings *)
(* ===================================================================== *)

Section RegexUnfold.
Import Regex.
Context {R : Type}.
Implicit Types (k : @cont R) (a b : regex).

Lemma exec_cat fuel a b pos s cap k :
  exec fuel (Cat a b) pos s cap k
  = exec fuel a pos s cap (fun pos' s' cap' => exec fuel b pos' s' cap' k).
Proof. destruct fuel; reflexivity. Qed.

Lemma exec_chr fuel p pos s cap k :
  exec fuel (Chr p) pos s cap k
  = match s with
    | String c s' => if p c then k (S pos) s' cap else None
    | EmptyString => None
    end.
Proof. destruct fuel; reflexivity. Qed.

Lemma exec_bol fuel pos s cap k :
  exec fuel Bol pos s cap k = if (pos =? 0)%nat then k pos s cap else None.
Proof. destruct fuel; reflexivity. Qed.

Lemma exec_star_S fuel a pos s cap k :
  exec (S fuel) (Star a) pos s cap k
  = match exec (S fuel) a pos s cap
            (fun pos' s' cap' =>
               if (pos <? pos')%nat then exec fuel (Star a) pos' s' cap' k else None) with
    | Some x => Some x
    | None => k pos s cap
    end.
Proof. reflexivity. Qed.

Lemma exec_star_O a pos s cap k :
  exec 0 (Star a) pos s cap k = k pos s cap.
Proof. reflexivity. Qed.

(** [.*] can stop wherever the rest of the pattern can go on. *)
Lemma exec_star_any (s1 s2 : string) :
  forall fuel pos cap k x,
    (String.length s1 <= fuel)%nat ->
    k (pos + String.length s1)%nat s2 cap = Some x ->
    exists y, exec fuel (Star Receiver2.any_char) pos (s1 +:+ s2) cap k = Some y.
Proof.
  induction s1 as [|c t IH]; intros fuel pos cap k x Hfuel Hk.
  - cbn [String.length] in Hk. rewrite Nat.add_0_r in Hk.
    change ("" +:+ s2) with s2.
    destruct fuel as [|f].
    + rewrite exec_star_O. eauto.
    + rewrite exec_star_S. destruct (exec (S f) _ _ _ _ _); eauto.
  - cbn [String.length] in Hfuel, Hk.
    destruct fuel as [|f]; [lia|].
    change (String c t +:+ s2) with (String c (t +:+ s2)).
    rewrite exec_star_S. unfold Receiver2.any_char at 1. rewrite exec_chr.
    replace (pos <? S pos)%nat with true by (symmetry; apply Nat.ltb_lt; lia).
    destruct (IH f (S pos) cap k x) as [y Hy]; [lia| |].
    + rewrite <- Hk. f_equal. lia.
    + fold Receiver2.any_char. rewrite Hy. eauto.
Qed.
End RegexUnfold.

Lemma length_append (a b : string) :
  String.length (a +:+ b) = (String.length a + String.length b)%nat.
Proof.
  induction a as [|c a IH]; [reflexivity|].
  change (String c a +:+ b) with (String c (a +:+ b)). cbn [String.length]. now rewrite IH.
Qed.

Lemma ne_app_suffix (s t : string) : t <> "" -> s <> s +:+ t.
Proof.
  intros Ht E. apply (f_equal String.length) in E. rewrite length_append in E.
  destruct t; [congruence | cbn in E; lia].
Qed.

Lemma last_char_app (a b : string) : b <> "" -> Py.last_char (a +:+ b) = Py.last_char b.
Proof.
  intros Hb. induction a as [|c a IH]; [reflexivity|].
  change (String c a +:+ b) with (String c (a +:+ b)).
  cbn [Py.last_char]. rewrite IH.
  destruct (a +:+ b) eqn:E; [|reflexivity].
  destruct a as [|c' a'].
  - change (b = "") in E. congruence.
  - change (String c' (a' +:+ b) = "") in E. discriminate.
Qed.

Lemma complete_ne_transferred (x y : string) : x +:+ ".complete" <> y +:+ ".transferred".
Proof.
  intros E. apply (f_equal Py.last_char) in E.
  rewrite !last_char_app in E by discriminate. discriminate.
Qed.

(** Every name that ends in [.complete] passes the glob [*.complete]. *)
Lemma glob_complete_matches (d : string) :
  Receiver2.matches (Receiver2.glob_suffix ".complete") (d +:+ ".complete") = true.
Proof.
  unfold Receiver2.matches, Regex.re_match, Regex.match_at, Receiver2.glob_suffix.
  rewrite exec_cat, exec_bol. cbn [Nat.eqb]. rewrite exec_cat.
  edestruct (exec_star_any (R := nat * string * option string) d ".complete") as [y Hy];
    [| |rewrite Hy; destruct y as [[? ?] ?]; reflexivity].
  - rewrite length_append. lia.
  - reflexivity.
Qed.

(* ===================================================================== *)
(** * The stage movers: stale transfers and integrity *)
(* ===================================================================== *)

Section ReceiverFacts.
Import Receiver2.

Lemma shrinks_refl w : shrinks w w.
Proof. repeat split; auto. Qed.

Lemma shrinks_trans w1 w2 w3 : shrinks w1 w2 -> shrinks w2 w3 -> shrinks w1 w3.
Proof.
  intros (A1 & A2 & A3 & A4) (B1 & B2 & B3 & B4).
  repeat split; try congruence.
  intros q. destruct (B4 q) as [E|[E X]]; [|right; auto].
  rewrite E. apply A4.
Qed.

Lemma grows_refl acc : grows acc acc.
Proof. split; [apply shrinks_refl | auto]. Qed.

Lemma grows_trans a b c : grows a b -> grows b c -> grows a c.
Proof. intros [A1 A2] [B1 B2]. split; [eapply shrinks_trans; eauto | auto]. Qed.

Lemma check_transferred_shrinks w c d : shrinks w (fst (check_transferred w c d)).
Proof.
  unfold check_transferred.
  destruct (signals w !! (d +:+ ".transferred")) as [t|] eqn:E; [|apply shrinks_refl].
  destruct (mtime t <? mtime c)%Z; [|apply shrinks_refl].
  cbn [fst]. repeat split; try reflexivity.
  intros q. cbn [signals with_signals].
  destruct (decide (q = d +:+ ".transferred")) as [->|Hne].
  - right. rewrite lookup_delete_eq. eauto.
  - left. now rewrite lookup_delete_ne.
Qed.

Lemma fold_grows {A : Type}
      (f : world * list (string * string) -> A -> world * list (string * string)) :
  (forall acc x, grows acc (f acc x)) ->
  forall l acc, grows acc (fold_left f l acc).
Proof.
  intros Hf l. induction l as [|x l IH]; intros acc; cbn [fold_left].
  - apply grows_refl.
  - eapply grows_trans; [apply Hf | apply IH].
Qed.

Lemma visit_month_file_grows c acc n : grows acc (visit_month_file c acc n).
Proof.
  unfold visit_month_file.
  destruct (search_group1 output_file_re n) as [d|]; [|apply grows_refl].
  pose proof (check_transferred_shrinks (fst acc) c d) as H.
  destruct (check_transferred (fst acc) c d) as [w1 go_on]. cbn [fst] in H.
  destruct go_on; split; cbn [fst snd]; auto.
  intros e He. apply in_or_app. now left.
Qed.

(** A visit of [find_completed_files] removes [.transferred] signals
    and adds files to the list, nothing else. *)
Lemma visit_signal_grows acc n : grows acc (visit_signal acc n).
Proof.
  unfold visit_signal.
  destruct (signals (fst acc) !! n) as [c|]; [|apply grows_refl].
  destruct (match_group1 daily_pattern n) as [d|].
  - pose proof (check_transferred_shrinks (fst acc) c d) as H.
    destruct (check_transferred (fst acc) c d) as [w1 go_on]. cbn [fst] in H.
    destruct go_on; [destruct (exists_file _ _)|]; split; cbn [fst snd]; auto.
    intros e He. apply in_or_app. now left.
  - destruct (match_group1 monthly_pattern n) as [m|]; [|apply grows_refl].
    destruct (exists_file _ _); [apply grows_refl|].
    apply fold_grows. intros; apply visit_month_file_grows.
Qed.

(** The visit of the [.complete] signal of a day whose [.transferred]
    signal is older. *)
Lemma visit_stale_signal acc d c src :
  is_daily_key d = true ->
  signals (fst acc) !! (d +:+ ".complete") = Some c ->
  (forall t, signals (fst acc) !! (d +:+ ".transferred") = Some t -> (mtime t < mtime c)%Z) ->
  server_source (fst acc) !! source_name d = Some src ->
  let acc' := visit_signal acc (d +:+ ".complete") in
  signals (fst acc') !! (d +:+ ".transferred") = None /\
  In (d, source_name d) (snd acc').
Proof.
  intros Hd Hc Ht Hs. unfold visit_signal. rewrite Hc.
  unfold is_daily_key in Hd. apply andb_prop in Hd as [Hd _].
  destruct (match_group1 daily_pattern (d +:+ ".complete")) as [g|]; [|discriminate].
  apply String.eqb_eq in Hd. subst g.
  unfold check_transferred.
  destruct (signals (fst acc) !! (d +:+ ".transferred")) as [t|] eqn:E.
  - specialize (Ht t eq_refl). apply Z.ltb_lt in Ht. rewrite Ht.
    cbn [server_source with_signals]. unfold exists_file. rewrite Hs.
    cbn [fst snd signals with_signals]. split; [apply lookup_delete_eq|].
    apply in_or_app. right. now left.
  - unfold exists_file. rewrite Hs. cbn [fst snd]. split; [exact E|].
    apply in_or_app. right. now left.
Qed.

Lemma find_completed_files_stale w d c t src :
  is_daily_key d = true ->
  signals w !! (d +:+ ".complete") = Some c ->
  signals w !! (d +:+ ".transferred") = Some t ->
  (mtime t < mtime c)%Z ->
  server_source w !! source_name d = Some src ->
  let r := find_completed_files w in
  shrinks w (fst r) /\
  signals (fst r) !! (d +:+ ".complete") = Some c /\
  signals (fst r) !! (d +:+ ".transferred") = None /\
  In (d, source_name d) (snd r).
Proof.
  intros Hd Hc Ht Hlt Hs. cbv zeta. unfold find_completed_files.
  set (L := filter _ _).
  assert (HL : In (d +:+ ".complete") L).
  { subst L. apply filter_In. split; [|apply glob_complete_matches].
    unfold names. apply in_map_iff. exists (d +:+ ".complete", c). split; [reflexivity|].
    apply list_elem_of_In. now apply elem_of_map_to_list. }
  apply in_split in HL as (L1 & L2 & ->).
  rewrite fold_left_app. cbn [fold_left].
  pose proof (fold_grows visit_signal visit_signal_grows L1 (w, [])) as G1.
  set (acc1 := fold_left visit_signal L1 (w, [])) in *.
  destruct G1 as [(S1 & S2 & S3 & S4) _]. cbn [fst] in *.
  assert (Hc1 : signals (fst acc1) !! (d +:+ ".complete") = Some c).
  { destruct (S4 (d +:+ ".complete")) as [E|[_ [x E]]]; [now rewrite E|].
    now apply complete_ne_transferred in E. }
  assert (Ht1 : forall t', signals (fst acc1) !! (d +:+ ".transferred") = Some t' ->
                           (mtime t' < mtime c)%Z).
  { intros t' E. destruct (S4 (d +:+ ".transferred")) as [E'|[E' _]]; [|congruence].
    rewrite E', Ht in E. now injection E as <-. }
  assert (Hs1 : server_source (fst acc1) !! source_name d = Some src) by now rewrite S1.
  pose proof (visit_stale_signal acc1 d c src Hd Hc1 Ht1 Hs1) as [V1 V2]. cbv zeta in V1, V2.
  pose proof (visit_signal_grows acc1 (d +:+ ".complete")) as G2.
  set (acc2 := visit_signal acc1 (d +:+ ".complete")) in *.
  pose proof (fold_grows visit_signal visit_signal_grows L2 acc2) as G3.
  set (acc3 := fold_left visit_signal L2 acc2) in *.
  assert (G : grows (w, []) acc3).
  { eapply grows_trans; [|exact G3]. eapply grows_trans; [|exact G2].
    split; [repeat split; auto | intros e []]. }
  destruct G as [(T1 & T2 & T3 & T4) _]. cbn [fst] in *.
  split; [repeat split; auto|].
  split.
  { destruct (T4 (d +:+ ".complete")) as [E|[_ [x E]]]; [now rewrite E|].
    now apply complete_ne_transferred in E. }
  split.
  { destruct G3 as [(_ & _ & _ & U4) _].
    destruct (U4 (d +:+ ".transferred")) as [E|[E _]]; [now rewrite E | exact E]. }
  destruct G3 as [_ U]. now apply U.
Qed.

(** The end of a transfer: the [.transferred] signal is touched, the
    [.complete] signal and the source file go. *)
Lemma finish_transfer_spec now w name d :
  is_daily_key d = true ->
  exists w',
    finish_transfer now w name d = Some w' /\
    local_dest w' = local_dest w /\
    server_source w' = delete name (server_source w) /\
    signals w' !! (d +:+ ".complete") = None /\
    signals w' !! (d +:+ ".transferred")
    = Some (touched now (signals w !! (d +:+ ".transferred"))).
Proof.
  intros Hd. unfold is_daily_key in Hd. apply andb_prop in Hd as [_ Hd].
  apply Nat.eqb_eq in Hd.
  unfold finish_transfer, cleanup_input_files, find_input_file.
  destruct (Py.split "-" d) as [|y [|m [|dd [|]]]]; try discriminate.
  cbn [server_source signals input_metrics local_dest].
  set (sig1 := fs_step now (signals w) (Touch (d +:+ ".transferred"))).
  assert (H1 : sig1 !! (d +:+ ".transferred")
               = Some (touched now (signals w !! (d +:+ ".transferred")))).
  { subst sig1. cbn [fs_step]. unfold touched.
    destruct (signals w !! (d +:+ ".transferred")); apply lookup_insert_eq. }
  eexists. split; [reflexivity|]. cbn [server_source signals input_metrics local_dest].
  split; [reflexivity|]. split; [reflexivity|].
  destruct (filter _ _).
  - split.
    + destruct (decide (month_of d +:+ ".complete" = d +:+ ".complete")) as [->|Hne].
      * apply lookup_delete_eq.
      * rewrite lookup_delete_ne by exact Hne. apply lookup_delete_eq.
    + rewrite !lookup_delete_ne; [exact H1| |].
      * apply complete_ne_transferred.
      * apply complete_ne_transferred.
  - split; [apply lookup_delete_eq|].
    rewrite lookup_delete_ne; [exact H1|]. apply complete_ne_transferred.
Qed.

Section Transfer.
Variable channel : string -> string.

(** A transfer of a day whose file is in the source directory: it
    succeeds, leaves the signals of a transferred day, removes the
    source file, and copies the file only to a destination that has no
    file of that name yet. *)
Lemma transfer_file_spec now w d src :
  is_daily_key d = true ->
  server_source w !! source_name d = Some src ->
  let r := transfer_file channel now w (source_name d) d in
  snd r = true /\
  server_source (fst r) !! source_name d = None /\
  signals (fst r) !! (d +:+ ".complete") = None /\
  signals (fst r) !! (d +:+ ".transferred")
  = Some (touched now (signals w !! (d +:+ ".transferred"))) /\
  local_dest (fst r) !! source_name d
  = match local_dest w !! source_name d with
    | Some old => Some old
    | None => Some (mkFile (channel (content src)) (mtime src))
    end.
Proof.
  intros Hd Hs. cbv zeta. unfold transfer_file, exists_file.
  destruct (local_dest w !! source_name d) as [old|] eqn:Eold.
  - destruct (finish_transfer_spec now w (source_name d) d Hd)
      as (w' & -> & F1 & F2 & F3 & F4).
    cbn [fst snd]. rewrite F1, F2, lookup_delete_eq. auto.
  - rewrite Hs.
    set (w1 := mkWorld _ _ _ _).
    destruct (finish_transfer_spec now w1 (source_name d) d Hd)
      as (w' & -> & F1 & F2 & F3 & F4).
    cbn [fst snd]. rewrite F1, F2, lookup_delete_eq.
    subst w1. cbn [signals local_dest] in *.
    repeat split; auto.
    cbn [fs_run fold_left fs_step]. rewrite lookup_insert_eq. apply lookup_insert_eq.
Qed.

(** C9.  The re-transfer does not take place.  When the [complete]
    signal of a day is newer than its [transferred] signal, the output
    file of the day is in the source directory and the copy of the
    earlier transfer is at the destination, the look-up removes the
    old [transferred] signal and lists the file, as its comment says,
    to transfer it again; the transfer then finds the name taken at
    the destination, copies nothing, and goes on as after a copy: it
    returns [True], writes a new [transferred] signal, removes the
    [complete] signal and deletes the source file.  The destination
    keeps the old copy and the new output is gone. *)
Theorem stale_transfer_loses_new_output now w d c t src old :
  is_daily_key d = true ->
  signals w !! (d +:+ ".complete") = Some c ->
  signals w !! (d +:+ ".transferred") = Some t ->
  (mtime t < mtime c)%Z ->
  server_source w !! source_name d = Some src ->
  local_dest w !! source_name d = Some old ->
  let found := find_completed_files w in
  let moved := transfer_file channel now (fst found) (source_name d) d in
  signals (fst found) !! (d +:+ ".transferred") = None /\
  In (d, source_name d) (snd found) /\
  snd moved = true /\
  local_dest (fst moved) !! source_name d = Some old /\
  server_source (fst moved) !! source_name d = None /\
  signals (fst moved) !! (d +:+ ".transferred") = Some (mkFile "" now) /\
  signals (fst moved) !! (d +:+ ".complete") = None.
Proof.
  intros Hd Hc Ht Hlt Hs Ho. cbv zeta.
  destruct (find_completed_files_stale w d c t src Hd Hc Ht Hlt Hs)
    as ((S1 & S2 & S3 & S4) & F1 & F2 & F3).
  assert (Hs1 : server_source (fst (find_completed_files w)) !! source_name d = Some src)
    by now rewrite S1.
  destruct (transfer_file_spec now (fst (find_completed_files w)) d src Hd Hs1)
    as (T1 & T2 & T3 & T4 & T5).
  split; [exact F2|]. split; [exact F3|]. split; [exact T1|].
  split; [now rewrite T5, S2, Ho|].
  split; [exact T2|].
  split; [now rewrite T4, F2|exact T3].
Qed.
End Transfer.

Lemma stale_transfer_loses_new_output_witness :
  (is_daily_key "2016-11-03" = true /\
   signals Examples.stale_world !! "2016-11-03.complete" = Some (mkFile "done" 200) /\
   signals Examples.stale_world !! "2016-11-03.transferred" = Some (mkFile "" 100) /\
   (100 < 200)%Z /\
   server_source Examples.stale_world !! "perf_metrics_2016-11-03.parquet"
   = Some (mkFile "new" 200) /\
   local_dest Examples.stale_world !! "perf_metrics_2016-11-03.parquet"
   = Some (mkFile "old" 90)) /\
  let found := find_completed_files Examples.stale_world in
  let moved := transfer_file (fun c => c) 300 (fst found)
                             "perf_metrics_2016-11-03.parquet" "2016-11-03" in
  signals (fst found) !! "2016-11-03.transferred" = None /\
  In ("2016-11-03", "perf_metrics_2016-11-03.parquet") (snd found) /\
  snd moved = true /\
  local_dest (fst moved) !! "perf_metrics_2016-11-03.parquet" = Some (mkFile "old" 90) /\
  server_source (fst moved) !! "perf_metrics_2016-11-03.parquet" = None /\
  signals (fst moved) !! "2016-11-03.transferred" = Some (mkFile "" 300) /\
  signals (fst moved) !! "2016-11-03.complete" = None.
Proof.
  assert (H1 : is_daily_key "2016-11-03" = true) by (vm_compute; reflexivity).
  assert (H2 : signals Examples.stale_world !! "2016-11-03.complete"
               = Some (mkFile "done" 200)) by (vm_compute; reflexivity).
  assert (H3 : signals Examples.stale_world !! "2016-11-03.transferred"
               = Some (mkFile "" 100)) by (vm_compute; reflexivity).
  assert (H4 : (mtime (mkFile "" 100) < mtime (mkFile "done" 200))%Z) by (cbn; lia).
  assert (H5 : server_source Examples.stale_world !! source_name "2016-11-03"
               = Some (mkFile "new" 200)) by (vm_compute; reflexivity).
  assert (H6 : local_dest Examples.stale_world !! source_name "2016-11-03"
               = Some (mkFile "old" 90)) by (vm_compute; reflexivity).
  split.
  { split; [exact H1|]. split; [exact H2|]. split; [exact H3|]. split; [lia|].
    split; [exact H5|exact H6]. }
  exact (stale_transfer_loses_new_output (fun c => c) 300 Examples.stale_world "2016-11-03"
           (mkFile "done" 200) (mkFile "" 100) (mkFile "new" 200) (mkFile "old" 90)
           H1 H2 H3 H4 H5 H6).
Defined.

(** The same in one round of the receiver on the scenario: the copy
    of the first transfer is at the destination, and the round leaves
    that old copy there and removes the new output from the source
    directory.  The file is not transferred again. *)
Lemma stale_transfer_keeps_old_copy :
  let w := Examples.stale_world in
  let w' := poll (fun c => c) 300 w in
  mtime <$> signals w !! "2016-11-03.complete" = Some 200%Z /\
  mtime <$> signals w !! "2016-11-03.transferred" = Some 100%Z /\
  content <$> server_source w !! "perf_metrics_2016-11-03.parquet" = Some "new" /\
  content <$> local_dest w' !! "perf_metrics_2016-11-03.parquet" = Some "old" /\
  content <$> local_dest w' !! "perf_metrics_2016-11-03.parquet" <> Some "new" /\
  server_source w' !! "perf_metrics_2016-11-03.parquet" = None /\
  mtime <$> signals w' !! "2016-11-03.transferred" = Some 300%Z.
Proof.
  cbv zeta.
  assert (H : content <$> local_dest (poll (fun c => c) 300 Examples.stale_world)
                !! "perf_metrics_2016-11-03.parquet" = Some "old")
    by (vm_compute; reflexivity).
  repeat split; try (vm_compute; reflexivity).
  rewrite H. discriminate.
Qed.
End ReceiverFacts.

Section Receiver3Facts.
Import Receiver3.
Variable md5 : string -> string.
Variable channel : string -> string.
Hypothesis md5_nonempty : forall c, md5 c <> "".

Lemma truthy_md5 c : Py.truthy (md5 c) = true.
Proof. specialize (md5_nonempty c). destruct (md5 c); [congruence | reflexivity]. Qed.

(** [move_file_safely] deletes the source only after a copy whose
    digest is that of the source; on a mismatch the temporary file is
    removed and source and destination stay as they were. *)
Lemma move_file_safely_verifies rename_replaces fs source destination f :
  fs !! source = Some f ->
  source <> destination +:+ TEMP_SUFFIX ->
  let r := move_file_safely md5 channel rename_replaces fs source destination in
  (snd r = true ->
     md5 (channel (content f)) = md5 (content f) /\
     fst r !! source = None /\
     (source <> destination ->
      fst r !! destination = Some (mkFile (channel (content f)) (mtime f)))) /\
  (md5 (channel (content f)) <> md5 (content f) ->
     snd r = false /\ fst r !! source = Some f /\
     fst r !! (destination +:+ TEMP_SUFFIX) = None /\
     fst r !! destination = fs !! destination).
Proof.
  intros Hf Hne. cbv zeta. unfold move_file_safely, calculate_file_hash.
  rewrite Hf. cbn [falsy]. rewrite truthy_md5. cbn [negb].
  rewrite lookup_insert_eq. cbn [falsy content]. rewrite truthy_md5. cbn [negb orb hash_eqb].
  assert (Hd : destination <> destination +:+ TEMP_SUFFIX)
    by (apply ne_app_suffix; discriminate).
  destruct (negb (st_size f =? st_size _)%nat) eqn:Hsize.
  { cbn [fst snd]. split; [discriminate|]. intros _.
    rewrite lookup_delete_eq, !lookup_delete_ne, !lookup_insert_ne by congruence. auto. }
  destruct (String.eqb_spec (md5 (content f)) (md5 (channel (content f)))) as [E|E];
    cbn [negb fst snd].
  - destruct (negb rename_replaces && exists_file _ destination); cbn [fst snd].
    { split; [discriminate|congruence]. }
    split; [|congruence]. intros _. split; [congruence|].
    cbn [fs_step]. rewrite lookup_insert_eq.
    split; [apply lookup_delete_eq|].
    intros Hsd. rewrite lookup_delete_ne by congruence. apply lookup_insert_eq.
  - split; [discriminate|]. intros _.
    rewrite lookup_delete_eq, !lookup_delete_ne, !lookup_insert_ne by congruence. auto.
Qed.
End Receiver3Facts.

(** C6.  The receiver of step 3 verifies: whatever the digest and the
    copy, a copy whose digest differs makes [move_file_safely] return
    [False] with the source in place and the temporary file gone.  The
    receiver of step 2 does not: on a day that is complete, with a copy
    that gets a byte wrong, [transfer_file] returns [True], the wrong
    bytes are at the destination under the final name, the
    [transferred] signal is set and the source file is deleted. *)
Theorem transfer_file_deletes_source_unverified :
  (forall (md5 channel : string -> string) (rename_replaces : bool)
          fs source destination f,
      (forall c, md5 c <> "") ->
      fs !! source = Some f ->
      source <> destination +:+ ".tmp" ->
      md5 (channel (content f)) <> md5 (content f) ->
      let r := Receiver3.move_file_safely md5 channel rename_replaces
                                          fs source destination in
      snd r = false /\ fst r !! source = Some f /\
      fst r !! (destination +:+ ".tmp") = None) /\
  (let r := Receiver2.transfer_file Examples.garbling 300 Examples.fresh_world
                                    "perf_metrics_2016-11-03.parquet" "2016-11-03" in
   Receiver2.server_source Examples.fresh_world !! "perf_metrics_2016-11-03.parquet"
   = Some (mkFile "PAR1-data" 200) /\
   snd r = true /\
   Receiver2.local_dest (fst r) !! "perf_metrics_2016-11-03.parquet"
   = Some (mkFile "XAR1-data" 200) /\
   Receiver2.server_source (fst r) !! "perf_metrics_2016-11-03.parquet" = None /\
   Receiver2.signals (fst r) !! "2016-11-03.transferred" = Some (mkFile "" 300)).
Proof.
  split.
  - intros md5 channel rename_replaces fs source destination f Hmd5 Hf Hne Hbad.
    destruct (move_file_safely_verifies md5 channel Hmd5 rename_replaces
                fs source destination f Hf Hne) as [_ H].
    destruct (H Hbad) as (H1 & H2 & H3 & _). auto.
  - cbv zeta. repeat split; vm_compute; reflexivity.
Qed.

(* ===================================================================== *)
(** * The join/aggregate engine: one row per key *)
(* ===================================================================== *)

Section ConsumerFacts.
Import Consumer.

Lemma key_eqb_eq (a b : string * string * Z) : key_eqb a b = true <-> a = b.
Proof.
  destruct a as [[a1 a2] a3], b as [[b1 b2] b3]. unfold key_eqb. cbn [fst snd].
  rewrite !Bool.andb_true_iff, !String.eqb_eq, Z.eqb_eq.
  split; [intros [[-> ->] ->]; reflexivity | intros [= -> -> ->]; auto].
Qed.

Lemma existsb_key_eqb k seen : existsb (key_eqb k) seen = true <-> In k seen.
Proof.
  rewrite existsb_exists. split.
  - intros (x & Hx & E). apply key_eqb_eq in E. now subst.
  - intros H. exists k. split; [exact H | now apply key_eqb_eq].
Qed.

Lemma unique_spec l :
  forall seen,
    NoDup (unique seen l) /\
    (forall k, In k (unique seen l) <-> In k l /\ ~ In k seen).
Proof.
  induction l as [|x l IH]; intros seen; cbn [unique].
  - split; [constructor | intros k; cbn; tauto].
  - destruct (existsb (key_eqb x) seen) eqn:E.
    + apply existsb_key_eqb in E. destruct (IH seen) as [N I]. split; [exact N|].
      intros k. rewrite I. cbn [In]. split; [tauto|].
      intros [[<-|H] Hn]; tauto.
    + assert (Hx : ~ In x seen).
      { intros H. apply existsb_key_eqb in H. congruence. }
      destruct (IH (x :: seen)) as [N I]. split.
      * constructor; [|exact N]. rewrite I. cbn [In]. tauto.
      * intros k. cbn [In]. rewrite I. cbn [In].
        destruct (decide (x = k)) as [->|Hne]; [tauto|]. tauto.
Qed.

(** The rows of a day, taken out of a frame with distinct keys, have
    distinct keys. *)
Lemma good_filter (keep : AggregatedRow -> bool) (df : list AggregatedRow) :
  good df -> good (filter keep df).
Proof.
  unfold good. induction df as [|r df IH]; cbn [map filter]; [auto|].
  intros H. inversion H as [|? ? Hr Hdf]; subst.
  destruct (keep r); [|auto]. cbn [map]. constructor; [|auto].
  intros Hin. apply Hr. apply in_map_iff in Hin as (y & E & Hy).
  apply filter_In in Hy as [Hy _]. apply in_map_iff. eauto.
Qed.

Lemma group_of_nonempty df k : In k (map combo_of df) -> group_of df k <> [].
Proof.
  intros H. apply in_map_iff in H as (x & E & Hx).
  intros Hnil. assert (Hin : In x (group_of df k)).
  { apply filter_In. split; [exact Hx | now apply key_eqb_eq]. }
  rewrite Hnil in Hin. exact Hin.
Qed.

Lemma process_chunk_rows_for c j :
  process_chunk c j = rows_for (windowed c j) (unique [] (map combo_of (windowed c j))).
Proof. reflexivity. Qed.

Lemma rows_for_keys df ks :
  (forall k, In k ks -> In k (map combo_of df)) ->
  map key_of (rows_for df ks) = ks.
Proof.
  induction ks as [|k ks IH]; intros H; [reflexivity|].
  unfold rows_for. cbn [flat_map]. fold (rows_for df ks).
  pose proof (group_of_nonempty df k (H k (or_introl eq_refl))) as Hne.
  destruct (group_of df k) as [|fr g]; [congruence|].
  cbn [app map]. rewrite IH by (intros; apply H; now right).
  f_equal. destruct k as [[a b] t]. reflexivity.
Qed.

Lemma process_chunk_keys c j :
  map key_of (process_chunk c j) = unique [] (map combo_of (windowed c j)).
Proof.
  rewrite process_chunk_rows_for. apply rows_for_keys.
  intros k Hk. now apply (unique_spec (map combo_of (windowed c j)) []) in Hk as [Hk _].
Qed.

Lemma rows_for_in df ks r :
  In r (rows_for df ks) ->
  exists first_row, r = result_row (group_of df (key_of r)) first_row (key_of r).
Proof.
  unfold rows_for. rewrite in_flat_map. intros (k & Hk & Hr).
  destruct (group_of df k) as [|fr g] eqn:E; [destruct Hr|].
  destruct Hr as [<-|[]].
  replace (key_of (result_row (fr :: g) fr k)) with k
    by (destruct k as [[a b] t]; reflexivity).
  rewrite E. eauto.
Qed.

Lemma value_col_result_row g fr k e :
  In e expected_events -> value_col e (result_row g fr k) = event_mean g e.
Proof.
  unfold expected_events. cbn [In].
  intros [<-|[<-|[<-|[<-|[<-|[<-|[]]]]]]]; reflexivity.
Qed.


Lemma accumulate_good day df acc :
  good df -> all_good acc -> all_good (accumulate day df acc).
Proof.
  intros Hdf. induction acc as [|[d dfs] acc IH]; intros Hacc day' frames; cbn [accumulate].
  - intros [[= <- <-]|[]]. repeat constructor. exact Hdf.
  - destruct (d =? day)%Z.
    + intros [[= <- <-]|H].
      * apply Forall_app. split; [apply (Hacc d); now left | repeat constructor; exact Hdf].
      * apply (Hacc day'). now right.
    + intros [[= <- <-]|H].
      * apply (Hacc d). now left.
      * apply (IH (fun d' fs' H' => Hacc d' fs' (or_intror H')) day' frames H).
Qed.

Lemma accumulate_result_good result_df acc :
  good result_df -> all_good acc -> all_good (accumulate_result result_df acc).
Proof.
  intros Hr. unfold accumulate_result.
  generalize (days_of [] (map day_key result_df)) as days.
  intros days. revert acc. induction days as [|d days IH]; intros acc Hacc; cbn [fold_left].
  - exact Hacc.
  - apply IH. apply accumulate_good; [|exact Hacc].
    now apply good_filter.
Qed.

Lemma process_chunk_good c j : good (process_chunk c j).
Proof.
  unfold good. rewrite process_chunk_keys. apply unique_spec.
Qed.

Lemma daily_accumulator_good B mem rows jobs :
  all_good (daily_accumulator B mem rows jobs).
Proof.
  unfold daily_accumulator.
  destruct (Z.of_nat (List.length rows) =? 0)%Z; [intros ? ? []|].
  destruct jobs as [|j0 jobs]; [intros ? ? []|].
  generalize (chunks_of (Z.to_nat (num_chunks (Z.of_nat (List.length rows))
                                              (optimized_chunk_size B mem)))
                        (Z.to_nat (optimized_chunk_size B mem)) rows) as chunks.
  intros chunks.
  assert (H0 : all_good []) by (intros ? ? []).
  revert H0. generalize (@nil (Z * list (list AggregatedRow))) as acc.
  induction chunks as [|c chunks IH]; intros acc Hacc; cbn [fold_left]; [exact Hacc|].
  apply IH. destruct c; [exact Hacc|].
  apply accumulate_result_good; [apply process_chunk_good | exact Hacc].
Qed.

(** ** The accumulator, day by day *)

Lemma days_of_spec (l : list Z) :
  forall seen,
    NoDup (days_of seen l) /\
    (forall d, In d (days_of seen l) <-> In d l /\ ~ In d seen).
Proof.
  induction l as [|d l IH]; intros seen; cbn [days_of].
  - split; [constructor|]. intros d. cbn. tauto.
  - destruct (existsb (Z.eqb d) seen) eqn:E.
    + apply existsb_exists in E as (x & Hx & Exd). apply Z.eqb_eq in Exd. subst x.
      destruct (IH seen) as [N I]. split; [exact N|].
      intros d'. rewrite I. cbn [In]. split; [tauto|].
      intros [[->|H] Hn]; tauto.
    + assert (Hd : ~ In d seen).
      { intros H. apply Bool.not_true_iff_false in E. apply E.
        apply existsb_exists. exists d. split; [exact H | apply Z.eqb_refl]. }
      destruct (IH (d :: seen)) as [N I]. split.
      * constructor; [|exact N]. rewrite I. cbn [In]. tauto.
      * intros d'. cbn [In]. rewrite I. cbn [In].
        destruct (Z.eq_dec d d') as [->|Hne]; tauto.
Qed.

Lemma accumulate_days (day : Z) (df : list AggregatedRow) acc :
  map fst (accumulate day df acc)
  = if existsb (Z.eqb day) (map fst acc) then map fst acc else map fst acc ++ [day].
Proof.
  induction acc as [|[d dfs] acc IH]; cbn [accumulate map fst existsb app]; [reflexivity|].
  rewrite (Z.eqb_sym day d).
  destruct (d =? day)%Z; cbn [orb map fst]; [reflexivity|].
  rewrite IH. destruct (existsb (Z.eqb day) (map fst acc)); reflexivity.
Qed.

Lemma accumulate_nodup (day : Z) (df : list AggregatedRow) acc :
  NoDup (map fst acc) -> NoDup (map fst (accumulate day df acc)).
Proof.
  intros N. rewrite accumulate_days.
  destruct (existsb (Z.eqb day) (map fst acc)) eqn:E; [exact N|].
  apply List.NoDup_app; [exact N | repeat constructor; intros [] |].
  intros x Hx [Ex|[]]. subst x. apply Bool.not_true_iff_false in E. apply E.
  apply existsb_exists. exists day. split; [exact Hx | apply Z.eqb_refl].
Qed.






End ConsumerFacts.


(* ===================================================================== *)
(** * The raw-metric transformer: block rate and cpu percentage *)
(* ===================================================================== *)

Section TransformerFacts.
Import Transformer.

Lemma str_lt_irrefl (a : string) : ~ String_as_OT.lt a a.
Proof. destruct String_as_OT.lt_strorder as [Irr _]. exact (Irr a). Qed.

Lemma str_lt_trans (a b c : string) :
  String_as_OT.lt a b -> String_as_OT.lt b c -> String_as_OT.lt a c.
Proof. destruct String_as_OT.lt_strorder as [_ Tr]. exact (Tr a b c). Qed.

Lemma str_cmp_good : good_cmp str_cmp.
Proof.
  unfold good_cmp, str_cmp. split; [|split].
  - intros a b. split.
    + intros H. destruct (String_as_OT.compare_spec a b) as [E|E|E]; try discriminate.
      exact E.
    + intros ->. destruct (String_as_OT.compare_spec b b) as [E|E|E]; [reflexivity| |];
        exfalso; exact (str_lt_irrefl _ E).
  - intros a b.
    destruct (String_as_OT.compare_spec a b) as [E|E|E];
      destruct (String_as_OT.compare_spec b a) as [F|F|F]; cbn [CompOpp]; try reflexivity;
      exfalso; unfold String_as_OT.eq in *;
      first [ subst; exact (str_lt_irrefl _ E)
            | subst; exact (str_lt_irrefl _ F)
            | exact (str_lt_irrefl _ (str_lt_trans _ _ _ E F)) ].
  - intros a b d H1 H2. exact (str_lt_trans a b d H1 H2).
Qed.

Lemma Z_cmp_good : good_cmp Z.compare.
Proof.
  unfold good_cmp. split; [|split].
  - intros a b. apply Z.compare_eq_iff.
  - intros a b. apply Z.compare_antisym.
  - intros a b d. rewrite !Z.compare_lt_iff. lia.
Qed.

Lemma prod_cmp_good {X Y : Type} (cx : X -> X -> comparison) (cy : Y -> Y -> comparison) :
  good_cmp cx -> good_cmp cy -> good_cmp (prod_cmp cx cy).
Proof.
  intros (Ex & Ox & Tx) (Ey & Oy & Ty). unfold good_cmp, prod_cmp, lex.
  split; [|split].
  - intros [a1 a2] [b1 b2]. cbn [fst snd]. split.
    + intros H. destruct (cx a1 b1) eqn:E1; try discriminate.
      apply Ex in E1. apply Ey in H. now subst.
    + intros [= -> ->]. rewrite (proj2 (Ex b1 b1) eq_refl). now apply Ey.
  - intros a b. rewrite (Ox (fst a) (fst b)), (Oy (snd a) (snd b)).
    destruct (cx (fst a) (fst b)); reflexivity.
  - intros a b d.
    destruct (cx (fst a) (fst b)) eqn:E1; try discriminate;
      destruct (cx (fst b) (fst d)) eqn:E2; try discriminate; intros H1 H2.
    + apply Ex in E1, E2. rewrite E1, E2, (proj2 (Ex _ _) eq_refl). eauto.
    + apply Ex in E1. rewrite E1, E2. reflexivity.
    + apply Ex in E2. rewrite <- E2, E1. reflexivity.
    + rewrite (Tx _ _ _ E1 E2). reflexivity.
Qed.

Lemma series_cmp_good : good_cmp series_cmp.
Proof. apply prod_cmp_good; [apply prod_cmp_good|]; apply str_cmp_good. Qed.

Lemma node_key_cmp_good : good_cmp node_key_cmp.
Proof.
  apply prod_cmp_good; [apply prod_cmp_good; apply str_cmp_good | apply Z_cmp_good].
Qed.

Lemma node_key_eqb_eq (a b : node_key) : node_key_eqb a b = true <-> a = b.
Proof.
  unfold node_key_eqb. destruct node_key_cmp_good as (E & _ & _).
  rewrite <- E. destruct (node_key_cmp a b); split; congruence.
Qed.

Section FrameFacts.
Context {A : Type}.
Variable series : A -> string * string * string.
Variable ts : A -> Z.

Lemma row_cmp_good_key : good_cmp (prod_cmp series_cmp Z.compare).
Proof. apply prod_cmp_good; [apply series_cmp_good | apply Z_cmp_good]. Qed.

Lemma row_leb_total a b : row_leb series ts a b = true \/ row_leb series ts b a = true.
Proof.
  unfold row_leb, row_cmp. destruct row_cmp_good_key as (_ & O & _).
  rewrite (O (row_key series ts a) (row_key series ts b)).
  destruct (prod_cmp series_cmp Z.compare (row_key series ts a) (row_key series ts b));
    cbn [CompOpp]; auto.
Qed.

Lemma row_leb_trans a b c :
  row_leb series ts a b = true -> row_leb series ts b c = true ->
  row_leb series ts a c = true.
Proof.
  unfold row_leb, row_cmp. destruct row_cmp_good_key as (E & O & T).
  set (ka := row_key series ts a). set (kb := row_key series ts b).
  set (kc := row_key series ts c).
  destruct (prod_cmp series_cmp Z.compare ka kb) eqn:H1; try discriminate; intros _;
    destruct (prod_cmp series_cmp Z.compare kb kc) eqn:H2; try discriminate; intros _.
  - apply E in H1, H2. rewrite H1, H2, (proj2 (E _ _) eq_refl). reflexivity.
  - apply E in H1. rewrite H1, H2. reflexivity.
  - apply E in H2. rewrite <- H2, H1. reflexivity.
  - rewrite (T _ _ _ H1 H2). reflexivity.
Qed.

Lemma same_series_eq a b : same_series series a b = true <-> series a = series b.
Proof.
  unfold same_series. destruct series_cmp_good as (E & _ & _).
  rewrite <- E. destruct (series_cmp (series a) (series b)); split; congruence.
Qed.

Lemma row_leb_same_series a b :
  series a = series b -> row_leb series ts a b = true -> (ts a <= ts b)%Z.
Proof.
  intros Hs. unfold row_leb, row_cmp, prod_cmp, row_key. cbn [fst snd].
  destruct series_cmp_good as (E & _ & _).
  rewrite (proj2 (E _ _) Hs). cbn [lex].
  intros H. apply Z.compare_le_iff. intros C. rewrite C in H. discriminate.
Qed.

Lemma insert_row_perm x l : Permutation (insert_row series ts x l) (x :: l).
Proof.
  induction l as [|y l IH]; cbn [insert_row]; [reflexivity|].
  destruct (row_leb series ts x y); [reflexivity|].
  rewrite IH. apply perm_swap.
Qed.

Lemma sort_values_perm l : Permutation (sort_values series ts l) l.
Proof.
  induction l as [|x l IH]; cbn [sort_values fold_right]; [reflexivity|].
  fold (sort_values series ts l). rewrite insert_row_perm. now constructor.
Qed.

Lemma insert_row_sorted x l :
  StronglySorted (fun a b => row_leb series ts a b = true) l ->
  StronglySorted (fun a b => row_leb series ts a b = true) (insert_row series ts x l).
Proof.
  induction 1 as [|y l Hl IH Hy]; cbn [insert_row].
  - repeat constructor.
  - destruct (row_leb series ts x y) eqn:E.
    + constructor; [constructor; assumption|].
      constructor; [exact E|].
      rewrite Forall_forall in Hy |- *. intros z Hz.
      eapply row_leb_trans; [exact E | now apply Hy].
    + constructor; [exact IH|].
      assert (Hyx : row_leb series ts y x = true)
        by (destruct (row_leb_total x y); congruence).
      rewrite Forall_forall in Hy |- *. intros z Hz.
      apply (Permutation_in _ (insert_row_perm x l)) in Hz as [<-|Hz]; auto.
Qed.

Lemma sort_values_sorted l :
  StronglySorted (fun a b => row_leb series ts a b = true) (sort_values series ts l).
Proof.
  induction l as [|x l IH]; cbn [sort_values fold_right]; [constructor|].
  now apply insert_row_sorted.
Qed.
End FrameFacts.

Lemma StronglySorted_app {A : Type} (R : A -> A -> Prop) (l1 l2 : list A) :
  StronglySorted R (l1 ++ l2) ->
  StronglySorted R l1 /\ StronglySorted R l2 /\
  forall a b, In a l1 -> In b l2 -> R a b.
Proof.
  induction l1 as [|x l1 IH]; cbn [app]; intros H.
  - split; [constructor|]. split; [exact H|]. intros a b [].
  - inversion H as [|? ? Hs Hf]; subst. destruct (IH Hs) as (H1 & H2 & H3).
    rewrite Forall_forall in Hf.
    split.
    + constructor; [exact H1|]. rewrite Forall_forall. intros z Hz.
      apply Hf. apply in_or_app. now left.
    + split; [exact H2|]. intros a b [<-|Ha] Hb.
      * apply Hf. apply in_or_app. now right.
      * now apply H3.
Qed.

Lemma find_split {A : Type} (f : A -> bool) (l : list A) (p : A) :
  find f l = Some p ->
  exists a b, l = a ++ p :: b /\ f p = true /\ forall y, In y a -> f y = false.
Proof.
  induction l as [|z l IH]; cbn [find]; [discriminate|].
  destruct (f z) eqn:E.
  - intros [= <-]. exists [], l. split; [reflexivity|]. split; [exact E | intros y []].
  - intros H. destruct (IH H) as (a & b & -> & Hp & Ha).
    exists (z :: a), b. split; [reflexivity|]. split; [exact Hp|].
    intros y [<-|Hy]; auto.
Qed.

Section PrevFacts.
Context {A : Type}.
Variable series : A -> string * string * string.
Variable ts : A -> Z.

Lemma with_prev_in (l : list A) :
  forall before x o,
    In (x, o) (with_prev series before l) ->
    exists l1 l2, l = l1 ++ x :: l2 /\ o = find (same_series series x) (rev l1 ++ before).
Proof.
  induction l as [|z l IH]; intros before x o; cbn [with_prev]; [intros []|].
  intros [[= <- <-]|H].
  - exists [], l. split; reflexivity.
  - destruct (IH _ _ _ H) as (l1 & l2 & -> & ->).
    exists (z :: l1), l2. split; [reflexivity|].
    cbn [rev]. now rewrite <- app_assoc.
Qed.

Lemma with_prev_fst (l : list A) :
  forall before, map fst (with_prev series before l) = l.
Proof.
  induction l as [|z l IH]; intros before; cbn [with_prev map fst]; [reflexivity|].
  now rewrite IH.
Qed.

(** In the sorted frame the row before [x] in its group is the sample
    that precedes [x] in its series. *)
Lemma with_prev_consecutive (rows : list A) (x p : A) :
  In (x, Some p) (with_prev series [] (sort_values series ts rows)) ->
  consecutive series ts rows p x.
Proof.
  intros H. apply with_prev_in in H as (l1 & l2 & Hl & Ho).
  rewrite app_nil_r in Ho. symmetry in Ho.
  apply find_split in Ho as (a & b & Hrev & Hp & Ha).
  apply same_series_eq in Hp.
  assert (Hl1 : l1 = rev b ++ p :: rev a).
  { rewrite <- (rev_involutive l1), Hrev, rev_app_distr. cbn [rev].
    now rewrite <- app_assoc. }
  subst l1. rewrite <- app_assoc in Hl. cbn [app] in Hl.
  pose proof (sort_values_sorted series ts rows) as Hs. rewrite Hl in Hs.
  pose proof (sort_values_perm series ts rows) as Hperm. rewrite Hl in Hperm.
  apply StronglySorted_app in Hs as (_ & Hs & Hb).
  inversion Hs as [|? ? Hs' Hpf]; subst. rewrite Forall_forall in Hpf.
  apply StronglySorted_app in Hs' as (_ & Hs' & _).
  inversion Hs' as [|? ? _ Hxf]; subst. rewrite Forall_forall in Hxf.
  assert (Hpx : (ts p <= ts x)%Z).
  { apply (row_leb_same_series series ts); [congruence|].
    apply Hpf. apply in_or_app. right. now left. }
  unfold consecutive. 
  split. { eapply Permutation_in; [exact Hperm|]. apply in_or_app. right. now left. }
  split. { eapply Permutation_in; [exact Hperm|]. apply in_or_app. right. right.
           apply in_or_app. right. now left. }
  split; [congruence|]. split; [exact Hpx|].
  intros y Hy Hsy [Hlo Hhi].
  apply (Permutation_in _ (Permutation_sym Hperm)) in Hy.
  apply in_app_or in Hy as [Hy|[<-|Hy]].
  - assert (ts y <= ts p)%Z; [|lia].
    apply (row_leb_same_series series ts); [congruence|].
    apply Hb; [exact Hy | now left].
  - lia.
  - apply in_app_or in Hy as [Hy|[<-|Hy]].
    + apply in_rev in Hy. apply Ha in Hy.
      assert (same_series series x y = true) by (apply same_series_eq; congruence).
      congruence.
    + lia.
    + assert (ts x <= ts y)%Z; [|lia].
      apply (row_leb_same_series series ts); [congruence|]. now apply Hxf.
Qed.

Lemma with_prev_mid (a b : list A) (x : A) :
  forall before,
    In (x, find (same_series series x) (rev a ++ before))
       (with_prev series before (a ++ x :: b)).
Proof.
  induction a as [|z a IH]; intros before; cbn [app with_prev rev].
  - now left.
  - right. rewrite <- app_assoc. apply IH.
Qed.

(** The other way round: a sample [x] that is the only one of its
    series at its time, with the sample [p] before it, the only one at
    its time, is paired with [p] in the sorted frame. *)
Lemma with_prev_complete (rows : list A) (x p : A) :
  In p rows -> In x rows -> series p = series x -> (ts p < ts x)%Z ->
  (forall y, In y rows -> series y = series x -> ~ (ts p < ts y < ts x)%Z) ->
  (forall y, In y rows -> series y = series x -> ts y = ts p -> y = p) ->
  (forall y, In y rows -> series y = series x -> ts y = ts x -> y = x) ->
  In (x, Some p) (with_prev series [] (sort_values series ts rows)).
Proof.
  intros Hp Hx Hs Hlt Hbetween Hup Hux.
  pose proof (sort_values_sorted series ts rows) as Hsorted.
  pose proof (sort_values_perm series ts rows) as Hperm.
  set (L := sort_values series ts rows) in *.
  assert (HinL : forall y, In y L <-> In y rows).
  { intros y. split; apply Permutation_in; [exact Hperm | now apply Permutation_sym]. }
  set (f := fun z => same_series series x z && (ts z =? ts x)%Z).
  assert (Hf : forall z, f z = true <-> series x = series z /\ ts z = ts x).
  { intros z. unfold f. now rewrite Bool.andb_true_iff, same_series_eq, Z.eqb_eq. }
  destruct (find f L) as [z|] eqn:Ez.
  2:{ exfalso. pose proof (find_none f L Ez x (proj2 (HinL x) Hx)) as Hn.
      assert (f x = true) by (apply Hf; auto). congruence. }
  apply find_split in Ez as (a & b & HL & Hz & Ha).
  apply Hf in Hz as [Hzs Hzt].
  assert (Hzx : z = x).
  { apply Hux; [|congruence|exact Hzt]. apply HinL. rewrite HL.
    apply in_or_app. right. now left. }
  subst z. rewrite HL in Hsorted.
  apply StronglySorted_app in Hsorted as (Hsa & Hsx & Hax).
  inversion Hsx as [|? ? _ Hxb]; subst. rewrite Forall_forall in Hxb.
  assert (Hpa : In p a).
  { pose proof (proj2 (HinL p) Hp) as H. rewrite HL in H.
    apply in_app_or in H as [H|[H|H]]; [exact H| |].
    - subst p. lia.
    - assert (ts x <= ts p)%Z; [|lia].
      apply (row_leb_same_series series ts); [congruence | now apply Hxb]. }
  destruct (find (same_series series x) (rev a)) as [q|] eqn:Eq.
  2:{ exfalso. pose proof (find_none _ _ Eq p (proj1 (in_rev a p) Hpa)) as Hn.
      assert (same_series series x p = true) by (apply same_series_eq; congruence).
      congruence. }
  pose proof (with_prev_mid a b x []) as Hmid. rewrite app_nil_r, Eq in Hmid.
  fold L. rewrite HL.
  enough (q = p) by (subst q; exact Hmid).
  apply find_split in Eq as (a1 & b1 & Hrev & Hq & Ha1).
  apply same_series_eq in Hq.
  assert (Ea : a = rev b1 ++ q :: rev a1).
  { rewrite <- (rev_involutive a), Hrev, rev_app_distr. cbn [rev].
    now rewrite <- app_assoc. }
  assert (Hqa : In q a) by (rewrite Ea; apply in_or_app; right; now left).
  assert (Hqrows : In q rows).
  { apply HinL. rewrite HL. apply in_or_app. now left. }
  assert (Hqx : (ts q <= ts x)%Z).
  { apply (row_leb_same_series series ts); [congruence|]. apply Hax; [exact Hqa | now left]. }
  assert (Hqne : ts q <> ts x).
  { intros E. assert (f q = true) by (apply Hf; auto).
    rewrite (Ha q Hqa) in H. discriminate. }
  assert (Hqp : (ts q <= ts p)%Z).
  { destruct (Z_lt_le_dec (ts p) (ts q)) as [C|C]; [|exact C].
    exfalso. apply (Hbetween q Hqrows); [congruence | lia]. }
  rewrite Ea in Hpa, Hsa.
  apply in_app_or in Hpa as [Hpb|[E|Hpa1]].
  - apply StronglySorted_app in Hsa as (_ & _ & Hbq).
    assert (ts p <= ts q)%Z.
    { apply (row_leb_same_series series ts); [congruence|]. apply Hbq; [exact Hpb | now left]. }
    apply Hup; [exact Hqrows | congruence | lia].
  - exact E.
  - exfalso. apply in_rev in Hpa1. apply Ha1 in Hpa1.
    assert (same_series series x p = true) by (apply same_series_eq; congruence).
    congruence.
Qed.

Lemma with_prev_rows (rows : list A) (x : A) (o : option A) :
  In (x, o) (with_prev series [] (sort_values series ts rows)) -> In x rows.
Proof.
  intros H. apply (in_map fst) in H. rewrite with_prev_fst in H. cbn [fst] in H.
  eapply Permutation_in; [apply sort_values_perm | exact H].
Qed.
End PrevFacts.


Lemma insert_key_in (k z : node_key) (l : list node_key) :
  In z (insert_key k l) <-> z = k \/ In z l.
Proof.
  induction l as [|y l IH]; cbn [insert_key In]; [intuition|].
  destruct (node_key_cmp k y) eqn:C; cbn [In].
  - destruct node_key_cmp_good as (E & _ & _). apply E in C. subst y. intuition.
  - intuition.
  - rewrite IH. intuition.
Qed.

Lemma group_keys_in (z : node_key) (l : list node_key) : In z (group_keys l) <-> In z l.
Proof.
  induction l as [|k l IH]; cbn [group_keys fold_right In]; [reflexivity|].
  fold (group_keys l). rewrite insert_key_in, IH. intuition.
Qed.

Lemma insert_key_sorted (k : node_key) (l : list node_key) :
  StronglySorted (fun a b => node_key_cmp a b = Lt) l ->
  StronglySorted (fun a b => node_key_cmp a b = Lt) (insert_key k l).
Proof.
  destruct node_key_cmp_good as (E & O & T).
  induction 1 as [|y l Hl IH Hy]; cbn [insert_key].
  - repeat constructor.
  - destruct (node_key_cmp k y) eqn:C.
    + constructor; assumption.
    + constructor; [constructor; assumption|].
      constructor; [exact C|].
      rewrite Forall_forall in Hy |- *. intros z Hz. eapply T; [exact C | now apply Hy].
    + constructor; [exact IH|].
      rewrite Forall_forall in Hy |- *. intros z Hz.
      apply insert_key_in in Hz as [->|Hz]; [|now apply Hy].
      rewrite (O k y), C. reflexivity.
Qed.


(** Rational comparisons *)
Lemma Qgeb_true (x y : Q) : Qgeb x y = true <-> (y <= x)%Q.
Proof. unfold Qgeb. apply Qle_bool_iff. Qed.

Lemma Qgtb_true (x y : Q) : Qgtb x y = true <-> (y < x)%Q.
Proof.
  unfold Qgtb. rewrite Bool.negb_true_iff, <- Bool.not_true_iff_false, Qle_bool_iff.
  split; [apply Qnot_le_lt | apply Qlt_not_le].
Qed.

Lemma Qgtb_false (x y : Q) : Qgtb x y = false <-> (x <= y)%Q.
Proof.
  unfold Qgtb. rewrite Bool.negb_false_iff. apply Qle_bool_iff.
Qed.

Lemma clip_lower_nonneg (v : Q) : (0 <= v)%Q -> clip_lower 0 v = v.
Proof.
  intros H. unfold clip_lower. apply Qgtb_false in H. now rewrite H.
Qed.

Lemma Qsum_nonneg (l : list Q) : Forall (fun v => (0 <= v)%Q) l -> (0 <= Qsum l)%Q.
Proof.
  induction 1 as [|v l Hv Hl IH]; cbn [Qsum fold_right]; [apply Qle_refl|].
  fold (Qsum l). rewrite <- (Qplus_0_l 0). now apply Qplus_le_compat.
Qed.

Lemma Qsum_pos (l : list Q) :
  l <> [] -> Forall (fun v => (0 < v)%Q) l -> (0 < Qsum l)%Q.
Proof.
  intros Hne H. induction H as [|v l Hv Hl IH]; [congruence|].
  cbn [Qsum fold_right]. fold (Qsum l).
  destruct l as [|w l'].
  - cbn. rewrite Qplus_0_r. exact Hv.
  - rewrite <- (Qplus_0_l 0). apply Qplus_lt_le_compat; [exact Hv|].
    apply Qlt_le_weak. apply IH. discriminate.
Qed.

Section BlockFacts.

Lemma valid_rate_mask_some (x p : BlockRow) :
  valid_rate_mask (x, Some p) = true <->
  (MIN_TIME_DELTA <= time_delta_seconds x p)%Q /\ (0 <= sector_delta x p)%Q.
Proof.
  unfold valid_rate_mask. cbn [fst snd].
  now rewrite Bool.andb_true_iff, !Qgeb_true.
Qed.

Lemma time_delta_pos (x p : BlockRow) :
  (MIN_TIME_DELTA <= time_delta_seconds x p)%Q ->
  (b_Timestamp_original p < b_Timestamp_original x)%Z.
Proof.
  unfold MIN_TIME_DELTA, time_delta_seconds. intros H.
  assert (H0 : (0 < inject_Z (b_Timestamp_original x - b_Timestamp_original p))%Q).
  { eapply Qlt_le_trans; [|exact H]. reflexivity. }
  change 0%Q with (inject_Z 0) in H0. rewrite <- Zlt_Qlt in H0. lia.
Qed.


Lemma df_valid_rates_in (rows : list BlockRow) (x : BlockRow) (o : option BlockRow) :
  In (x, o) (df_valid_rates rows) ->
  exists p, o = Some p /\ valid_rate_mask (x, Some p) = true /\
            consecutive b_series b_Timestamp_original rows p x.
Proof.
  unfold df_valid_rates. intros H. apply filter_In in H as [Hin Hm].
  destruct o as [p|]; [|discriminate].
  exists p. split; [reflexivity|]. split; [exact Hm|].
  now apply with_prev_consecutive.
Qed.


End BlockFacts.

Lemma filter_nonempty_of_in {A : Type} (f : A -> bool) (l : list A) (x : A) :
  In x l -> f x = true -> filter f l <> [].
Proof.
  intros Hx Hf Hnil. assert (H : In x (filter f l)) by (apply filter_In; auto).
  rewrite Hnil in H. exact H.
Qed.




Section CpuFacts.

Lemma valid_delta_mask_some (x p : CpuRow) :
  valid_delta_mask (x, Some p) = true <->
  (0 <= user_core_delta (core_delta x p))%Q /\
  (0 <= nice_core_delta (core_delta x p))%Q /\
  (0 < total_jiffies_core_delta (core_delta x p))%Q.
Proof.
  unfold valid_delta_mask. cbn [fst snd].
  rewrite !Bool.andb_true_iff, !Qgeb_true, Qgtb_true. tauto.
Qed.

Lemma df_valid_deltas_in (rows : list CpuRow) (x : CpuRow) (d : CoreDelta) :
  In (x, d) (df_valid_deltas rows) ->
  exists p, consecutive c_series c_Timestamp_original rows p x /\
            d = core_delta x p /\
            (0 <= user_core_delta d)%Q /\ (0 <= nice_core_delta d)%Q /\
            (0 < total_jiffies_core_delta d)%Q.
Proof.
  unfold df_valid_deltas. rewrite in_flat_map. intros ([x' o] & Hin & H).
  cbn [fst snd] in H. destruct o as [p|]; [|destruct H].
  destruct (valid_delta_mask (x', Some p)) eqn:Hm; [|destruct H].
  destruct H as [[= <- <-]|[]].
  apply valid_delta_mask_some in Hm as (Hu & Hn & Ht).
  exists p. split; [now apply with_prev_consecutive|]. auto.
Qed.

Lemma node_level_deltas_in (rows : list CpuRow) (n : NodeDelta) :
  In n (node_level_deltas (df_valid_deltas rows)) ->
  n_user n = Transformer.Qsum (map user_core_delta (core_group rows (n_key n))) /\
  n_nice n = Transformer.Qsum (map nice_core_delta (core_group rows (n_key n))) /\
  n_total n = Transformer.Qsum (map total_jiffies_core_delta (core_group rows (n_key n))) /\
  core_group rows (n_key n) <> [].
Proof.
  unfold node_level_deltas. intros H. apply in_map_iff in H as (k & <- & Hk).
  cbn [n_key n_user n_nice n_total]. fold (core_group rows k).
  split; [reflexivity|]. split; [reflexivity|]. split; [reflexivity|].
  apply (proj1 (group_keys_in _ _)) in Hk. apply in_map_iff in Hk as (xd & Hkey & Hxd).
  unfold core_group. intros Hnil. apply map_eq_nil in Hnil.
  revert Hnil. apply (filter_nonempty_of_in _ _ xd Hxd). now apply node_key_eqb_eq.
Qed.

Lemma core_group_valid (rows : list CpuRow) (k : node_key) :
  Forall (fun d => (0 <= user_core_delta d)%Q /\ (0 <= nice_core_delta d)%Q /\
                   (0 < total_jiffies_core_delta d)%Q) (core_group rows k).
Proof.
  rewrite Forall_forall. intros d Hd. unfold core_group in Hd.
  apply in_map_iff in Hd as ([x d'] & <- & Hin). apply filter_In in Hin as [Hin _].
  apply df_valid_deltas_in in Hin as (p & _ & _ & H). exact H.
Qed.

Lemma node_sums (rows : list CpuRow) (n : NodeDelta) :
  In n (node_level_deltas (df_valid_deltas rows)) ->
  (0 <= n_user n)%Q /\ (0 <= n_nice n)%Q /\ (0 < n_total n)%Q.
Proof.
  intros H. destruct (node_level_deltas_in rows n H) as (-> & -> & -> & Hne).
  pose proof (core_group_valid rows (n_key n)) as Hv. rewrite Forall_forall in Hv.
  split; [|split].
  - apply Qsum_nonneg. rewrite Forall_forall. intros v Hin.
    apply in_map_iff in Hin as (d & <- & Hd). now apply Hv.
  - apply Qsum_nonneg. rewrite Forall_forall. intros v Hin.
    apply in_map_iff in Hin as (d & <- & Hd). now apply Hv.
  - apply Qsum_pos.
    + intros E. apply map_eq_nil in E. contradiction.
    + rewrite Forall_forall. intros v Hin.
      apply in_map_iff in Hin as (d & <- & Hd). now apply Hv.
Qed.

Lemma clip_bounds (lo hi v : Q) :
  (lo <= hi)%Q -> (lo <= clip lo hi v)%Q /\ (clip lo hi v <= hi)%Q.
Proof.
  intros H. unfold clip, clip_lower.
  destruct (Qgtb lo v) eqn:E1.
  - destruct (Qgtb lo hi) eqn:E2.
    + apply Qgtb_true in E2. exfalso. exact (Qlt_not_le _ _ E2 H).
    + split; [apply Qle_refl | exact H].
  - apply Qgtb_false in E1. destruct (Qgtb v hi) eqn:E2.
    + split; [exact H | apply Qle_refl].
    + apply Qgtb_false in E2. split; assumption.
Qed.


Lemma final_valid_mask_true (rows : list CpuRow) (n : NodeDelta) :
  In n (node_level_deltas (df_valid_deltas rows)) -> final_valid_mask n = true.
Proof.
  intros H. destruct (node_sums rows n H) as (Hu & Hn & Ht).
  unfold final_valid_mask. rewrite !Bool.andb_true_iff, !Qgeb_true, Qgtb_true.
  repeat split; try assumption.
  unfold Value_cpuuser. apply clip_bounds. apply Qle_bool_iff. reflexivity.
Qed.

Lemma filter_all {A : Type} (f : A -> bool) (l : list A) :
  (forall x, In x l -> f x = true) -> filter f l = l.
Proof.
  induction l as [|x l IH]; intros H; cbn [filter]; [reflexivity|].
  rewrite (H x (or_introl eq_refl)). f_equal. apply IH. intros; apply H; now right.
Qed.

End CpuFacts.


End TransformerFacts.

(* ===================================================================== *)
(** * More on strings *)
(* ===================================================================== *)

Lemma append_assoc (a b c : string) : (a +:+ b) +:+ c = a +:+ (b +:+ c).
Proof.
  induction a as [|x a IH]; [reflexivity|].
  change (String x ((a +:+ b) +:+ c) = String x (a +:+ (b +:+ c))). now rewrite IH.
Qed.

Lemma append_empty (s : string) : s +:+ "" = s.
Proof.
  induction s as [|c s IH]; [reflexivity|].
  change (String c (s +:+ "") = String c s). now rewrite IH.
Qed.

Section GlobFacts.
Import Regex.
Context {R : Type}.
Implicit Types (k : @cont R).

Lemma exec_lit (p : string) :
  forall fuel pos s cap k,
    exec fuel (Lit p) pos (p +:+ s) cap k = k (pos + String.length p)%nat s cap.
Proof.
  induction p as [|c p IH]; intros fuel pos s cap k.
  - cbn [Lit String.length]. rewrite Nat.add_0_r. destruct fuel; reflexivity.
  - cbn [Lit String.length]. change (String c p +:+ s) with (String c (p +:+ s)).
    rewrite exec_cat, exec_chr, Ascii.eqb_refl, IH. f_equal. lia.
Qed.

Lemma exec_lit_all (p : string) fuel pos cap k :
  exec fuel (Lit p) pos p cap k = k (pos + String.length p)%nat "" cap.
Proof. rewrite <- (append_empty p) at 2. apply exec_lit. Qed.
End GlobFacts.

(* ===================================================================== *)
(** * The signal manager: transitions and command line *)
(* ===================================================================== *)

Section TransitionFacts.
Import Signals Transitions.

Lemma get_signal_path_day (dir year month : string) (day : option string) (st : JobStatus) :
  get_signal_path dir year month (day_val day) (PyEnum st)
  = Ok (path_join dir (date_str_of year month day +:+ "." +:+ value st)).
Proof.
  destruct day as [d|]; unfold get_signal_path, date_str_of; cbn [day_val py_len rbind py_format].
  - destruct (String.length month =? 1)%nat, (String.length d =? 1)%nat;
      rewrite ?append_assoc; reflexivity.
  - destruct (String.length month =? 1)%nat; rewrite ?append_assoc; reflexivity.
Qed.

Lemma value_inj (a b : JobStatus) : value a = value b -> a = b.
Proof. destruct a, b; first [reflexivity | discriminate]. Qed.

Lemma signal_name_inj (dir d : string) (a b : JobStatus) :
  path_join dir (d +:+ "." +:+ value a) = path_join dir (d +:+ "." +:+ value b) -> a = b.
Proof.
  intros H. apply path_join_inj in H. do 2 apply app_inj_prefix in H.
  now apply value_inj.
Qed.

Lemma exists_file_lookup (fs : gmap string file) (p : string) :
  (if exists_file fs p then delete p fs else fs) !! p = None.
Proof.
  unfold exists_file. destruct (fs !! p) eqn:E; [apply lookup_delete_eq | exact E].
Qed.

Lemma exists_file_lookup_ne (fs : gmap string file) (p q : string) :
  q <> p -> (if exists_file fs p then delete p fs else fs) !! q = fs !! q.
Proof.
  intros H. destruct (exists_file fs p); [|reflexivity]. now apply lookup_delete_ne.
Qed.

(** The removal block: afterwards neither the [ready] nor the
    [processing] signal of the date is there, and no other file has
    changed. *)
Lemma remove_ready_and_processing_spec (dir : string) (fs : gmap string file)
      (year month : string) (day : option string) :
  let p st := path_join dir (date_str_of year month day +:+ "." +:+ value st) in
  let fs' := remove_ready_and_processing dir fs year month (day_val day) in
  fs' !! p READY = None /\ fs' !! p PROCESSING = None /\
  forall q, q <> p READY -> q <> p PROCESSING -> fs' !! q = fs !! q.
Proof.
  cbv zeta. unfold remove_ready_and_processing. rewrite !get_signal_path_day.
  cbn [fs_step].
  set (pr := path_join dir (date_str_of year month day +:+ "." +:+ value READY)).
  set (pp := path_join dir (date_str_of year month day +:+ "." +:+ value PROCESSING)).
  assert (Hne : pr <> pp) by (intros E; apply signal_name_inj in E; discriminate).
  split; [|split].
  - rewrite exists_file_lookup_ne by exact Hne. apply exists_file_lookup.
  - apply exists_file_lookup.
  - intros q Hr Hp. now rewrite !exists_file_lookup_ne.
Qed.

Lemma create_signal_day (dir : string) (writable : string -> bool) (now : Z)
      (fs : gmap string file)
      (year month : string) (day : option string) (st : JobStatus) (message : string) :
  create_signal dir writable now fs year month (day_val day) (PyEnum st) message
  = if writable (path_join dir (date_str_of year month day +:+ "." +:+ value st))
    then (<[path_join dir (date_str_of year month day +:+ "." +:+ value st)
            := mkFile message now]> fs, true)
    else (fs, false).
Proof.
  unfold create_signal, create_signal_ops. rewrite get_signal_path_day. cbn [rbind].
  destruct (writable _); [|reflexivity].
  cbn [fs_run fold_left fs_step]. now rewrite insert_insert_eq.
Qed.

(** What a [complete] or [failed] signal leaves behind: the removal
    block runs whether or not the signal was written. *)
Lemma terminal_signal_spec (dir : string) (writable : string -> bool) (now : Z)
      (fs : gmap string file)
      (year month : string) (day : option string) (st : JobStatus) (message : string) :
  st <> READY -> st <> PROCESSING ->
  let p st := path_join dir (date_str_of year month day +:+ "." +:+ value st) in
  let r := create_signal dir writable now fs year month (day_val day) (PyEnum st) message in
  let fs' := remove_ready_and_processing dir (fst r) year month (day_val day) in
  snd r = writable (p st) /\
  fs' !! p st = (if writable (p st) then Some (mkFile message now) else fs !! p st) /\
  fs' !! p READY = None /\ fs' !! p PROCESSING = None /\
  (forall q, q <> p st -> q <> p READY -> q <> p PROCESSING -> fs' !! q = fs !! q).
Proof.
  intros H1 H2. cbv zeta. rewrite create_signal_day.
  set (ps := path_join dir (date_str_of year month day +:+ "." +:+ value st)).
  assert (Hr : ps <> path_join dir (date_str_of year month day +:+ "." +:+ value READY))
    by (intros E; apply signal_name_inj in E; congruence).
  assert (Hp : ps <> path_join dir (date_str_of year month day +:+ "." +:+ value PROCESSING))
    by (intros E; apply signal_name_inj in E; congruence).
  destruct (writable ps); cbn [fst snd].
  - destruct (remove_ready_and_processing_spec dir (<[ps := mkFile message now]> fs)
                year month day) as (Hr' & Hp' & Hq).
    split; [reflexivity|].
    split; [rewrite Hq by assumption; apply lookup_insert_eq|].
    split; [exact Hr'|]. split; [exact Hp'|].
    intros q Hc Hqr Hqp. rewrite Hq by assumption. now apply lookup_insert_ne.
  - destruct (remove_ready_and_processing_spec dir fs year month day) as (Hr' & Hp' & Hq).
    split; [reflexivity|]. split; [now apply Hq|].
    split; [exact Hr'|]. split; [exact Hp'|].
    intros q _ Hqr Hqp. now apply Hq.
Qed.


(** X2.  No status query of the manager answers: [is_ready],
    [is_processing], [is_complete] and [is_failed] end with the
    [TypeError] of [check_status] for every directory, year and month,
    and the command [status] of the command line ends with exit
    status 1 and leaves the files as they are, whatever its
    arguments. *)
Theorem status_queries_never_answer
        (dir : string) (writable : string -> bool) (strftime : string) (now : Z)
        (fs : gmap string file) (year month : string) :
  is_ready dir fs year month = Raise TypeError /\
  is_processing dir fs year month = Raise TypeError /\
  is_complete dir fs year month = Raise TypeError /\
  is_failed dir fs year month = Raise TypeError /\
  forall script rest,
    main dir writable strftime now fs (script :: "status" :: year :: month :: rest)
    = (fs, 1%Z).
Proof.
  repeat (split; [reflexivity|]).
  intros script rest. unfold main.
  change (Py.lower "status") with "status".
  destruct (negb _); reflexivity.
Qed.

Lemma lower_value (st : JobStatus) : Py.lower (value st) = value st.
Proof. destruct st; reflexivity. Qed.

(** A daily signal name is never a monthly one. *)
Lemma daily_name_ne_monthly (dir year month d : string) (a b : JobStatus) :
  path_join dir (date_str_of year month (Some d) +:+ "." +:+ value a)
  <> path_join dir (date_str_of year month None +:+ "." +:+ value b).
Proof.
  intros E. apply path_join_inj in E. unfold date_str_of in E.
  rewrite !append_assoc in E. do 3 apply app_inj_prefix in E.
  discriminate E.
Qed.

(** The command line on a valid year and month: the four commands
    reach their method with the month filled to two digits and the
    optional argument in the place of the day. *)
Lemma main_valid (dir : string) (writable : string -> bool) (strftime : string) (now : Z)
      (fs : gmap string file)
      (script year month : string) (rest : list string) (st : JobStatus) :
  isdigit year = true -> isdigit month = true -> String.length year = 4%nat ->
  (1 <= int_of_digits month <= 12)%Z ->
  st <> UNKNOWN ->
  let day := match rest with m :: _ => Some m | [] => None end in
  let p := path_join dir (date_str_of year (zfill 2 month) day +:+ "." +:+ value st) in
  let r := main dir writable strftime now fs (script :: value st :: year :: month :: rest) in
  snd r = (if writable p then 0%Z else 1%Z) /\
  fst r !! p = (if writable p then Some (mkFile (default_text st +:+ strftime) now)
                else fs !! p) /\
  forall q (a : JobStatus),
    q = path_join dir (date_str_of year (zfill 2 month) None +:+ "." +:+ value a) ->
    day <> None -> fst r !! q = fs !! q.
Proof.
  intros Hy Hm Hl [Hlo Hhi] Hst. cbv zeta. unfold main.
  rewrite Hy, Hm, Hl. cbn [Nat.eqb andb].
  replace (1 <=? int_of_digits month)%Z with true by (symmetry; apply Z.leb_le; lia).
  replace (int_of_digits month <=? 12)%Z with true by (symmetry; apply Z.leb_le; lia).
  cbn [andb negb]. rewrite lower_value.
  set (day := match rest with m :: _ => Some m | [] => None end).
  replace (match rest with m :: _ => PyStr m | [] => PyNone end) with (day_val day)
    by (destruct rest; reflexivity).
  destruct st; [congruence| | | |]; cbn [value default_text];
    match goal with |- context [String.eqb ?a ?b] => idtac end;
    repeat match goal with
           | |- context [String.eqb ?a ?b] =>
               let v := eval vm_compute in (String.eqb a b) in
               change (String.eqb a b) with v
           end; cbv iota.
  - unfold create_ready_signal. rewrite create_signal_day. cbn [default_message value].
    destruct (writable _); cbn [fst snd].
    + split; [reflexivity|]. split; [apply lookup_insert_eq|].
      intros q a -> Hd. apply lookup_insert_ne.
      destruct day as [d|]; [|congruence]. intros E.
      now apply (daily_name_ne_monthly dir year (zfill 2 month) d READY a) in E.
    + split; [reflexivity|]. split; reflexivity.
  - unfold create_processing_signal. rewrite create_signal_day. cbn [default_message value].
    destruct (writable _); cbn [fst snd].
    + split; [reflexivity|]. split; [apply lookup_insert_eq|].
      intros q a -> Hd. apply lookup_insert_ne.
      destruct day as [d|]; [|congruence]. intros E.
      now apply (daily_name_ne_monthly dir year (zfill 2 month) d PROCESSING a) in E.
    + split; [reflexivity|]. split; reflexivity.
  - unfold create_complete_signal.
    pose proof (terminal_signal_spec dir writable now fs year (zfill 2 month) day COMPLETE
                  (default_message strftime "Processing completed successfully at " None))
      as H.
    cbv zeta in H. cbn [default_message] in *.
    destruct (create_signal dir writable now fs year (zfill 2 month) (day_val day)
                            (PyEnum COMPLETE) _) as [fs1 r1].
    cbn [fst snd] in *.
    destruct H as (H0 & H1 & _ & _ & H4); [discriminate..|].
    split; [rewrite H0; now destruct (writable _)|]. split; [exact H1|].
    intros q a -> Hd. destruct day as [d|]; [|congruence].
    apply H4; intros E; symmetry in E;
      eapply (daily_name_ne_monthly dir year (zfill 2 month) d); exact E.
  - unfold create_failed_signal.
    pose proof (terminal_signal_spec dir writable now fs year (zfill 2 month) day FAILED
                  (default_message strftime "Processing failed at " None)) as H.
    cbv zeta in H. cbn [default_message] in *.
    destruct (create_signal dir writable now fs year (zfill 2 month) (day_val day)
                            (PyEnum FAILED) _) as [fs1 r1].
    cbn [fst snd] in *.
    destruct H as (H0 & H1 & _ & _ & H4); [discriminate..|].
    split; [rewrite H0; now destruct (writable _)|]. split; [exact H1|].
    intros q a -> Hd. destruct day as [d|]; [|congruence].
    apply H4; intros E; symmetry in E;
      eapply (daily_name_ne_monthly dir year (zfill 2 month) d); exact E.
Qed.

(** X3.  The command line, given a year of four digits and a month
    from 1 to 12: each of the commands [ready], [processing],
    [complete] and [failed] ends with exit status 0 when the signal
    file could be opened and with 1 when it could not.  Without a
    fourth argument the monthly signal [<year>-<MM>.<status>] is the
    one written, with the default text.  A fourth argument, meant as
    the message, is taken for the day: the signal is
    [<year>-<MM>-<argument>.<status>], it holds the default text when
    it could be opened and is as before when not (as for an argument
    with a slash in a directory without subdirectories), and the
    monthly signal is left as it was. *)
Theorem command_line_message_names_the_day
        (dir : string) (writable : string -> bool) (strftime : string) (now : Z)
        (fs : gmap string file)
        (script year month m : string) (st : JobStatus) :
  isdigit year = true -> isdigit month = true -> String.length year = 4%nat ->
  (1 <= int_of_digits month <= 12)%Z ->
  st <> UNKNOWN ->
  let monthly := path_join dir (date_str_of year (zfill 2 month) None +:+ "." +:+ value st) in
  let daily := path_join dir (date_str_of year (zfill 2 month) (Some m) +:+ "." +:+ value st) in
  let r0 := main dir writable strftime now fs [script; value st; year; month] in
  let r := main dir writable strftime now fs [script; value st; year; month; m] in
  snd r0 = (if writable monthly then 0%Z else 1%Z) /\
  fst r0 !! monthly
  = (if writable monthly then Some (mkFile (default_text st +:+ strftime) now)
     else fs !! monthly) /\
  snd r = (if writable daily then 0%Z else 1%Z) /\
  fst r !! daily
  = (if writable daily then Some (mkFile (default_text st +:+ strftime) now)
     else fs !! daily) /\
  fst r !! monthly = fs !! monthly.
Proof.
  intros Hy Hm Hl Hr Hst. cbv zeta.
  destruct (main_valid dir writable strftime now fs script year month [] st Hy Hm Hl Hr Hst)
    as (A1 & A2 & _).
  destruct (main_valid dir writable strftime now fs script year month [m] st Hy Hm Hl Hr Hst)
    as (B1 & B2 & B3).
  split; [exact A1|]. split; [exact A2|]. split; [exact B1|]. split; [exact B2|].
  apply (B3 _ st eq_refl). discriminate.
Qed.

Lemma command_line_message_names_the_day_witness :
  (isdigit "2016" = true /\ isdigit "3" = true /\ String.length "2016" = 4%nat /\
   (1 <= int_of_digits "3" <= 12)%Z /\ COMPLETE <> UNKNOWN) /\
  (let r := main "ready" (flat_dir "ready") "2016-04-01 08:00:00" 7 ∅
                 ["signal.py"; "complete"; "2016"; "3"; "all done"] in
   snd r = 0%Z /\
   fst r !! "ready/2016-03-all done.complete"
   = Some (mkFile "Processing completed successfully at 2016-04-01 08:00:00" 7) /\
   fst r !! "ready/2016-03.complete" = None) /\
  (let r := main "ready" (flat_dir "ready") "2016-04-01 08:00:00" 7 ∅
                 ["signal.py"; "complete"; "2016"; "3"; "all/done"] in
   snd r = 1%Z /\
   fst r !! "ready/2016-03-all/done.complete" = None /\
   fst r !! "ready/2016-03.complete" = None).
Proof.
  assert (H : isdigit "2016" = true /\ isdigit "3" = true /\ String.length "2016" = 4%nat /\
              (1 <= int_of_digits "3" <= 12)%Z /\ COMPLETE <> UNKNOWN).
  { split; [reflexivity|]. split; [reflexivity|]. split; [reflexivity|].
    split; [vm_compute; split; discriminate | discriminate]. }
  split; [exact H|]. destruct H as (Hy & Hm & Hl & Hr & Hst).
  split.
  - destruct (command_line_message_names_the_day
                "ready" (flat_dir "ready") "2016-04-01 08:00:00" 7 ∅
                "signal.py" "2016" "3" "all done" COMPLETE Hy Hm Hl Hr Hst)
      as (_ & _ & H1 & H2 & H3).
    cbv zeta. split; [exact H1|]. split; [exact H2|]. exact H3.
  - destruct (command_line_message_names_the_day
                "ready" (flat_dir "ready") "2016-04-01 08:00:00" 7 ∅
                "signal.py" "2016" "3" "all/done" COMPLETE Hy Hm Hl Hr Hst)
      as (_ & _ & H1 & H2 & H3).
    cbv zeta. split; [exact H1|]. split; [exact H2|]. exact H3.
Defined.
End TransitionFacts.

(* ===================================================================== *)
(** * The join/aggregate engine: chunks, days and values *)
(* ===================================================================== *)

Section DriverFacts.
Import Consumer.

Lemma optimized_chunk_size_min (B : Z) (mem : Q) :
  (100000 <= optimized_chunk_size B mem)%Z.
Proof.
  unfold optimized_chunk_size.
  destruct (Qlt_le_dec 30 mem); [lia|]. destruct (Qlt_le_dec 15 mem); lia.
Qed.

(** Slices of [size] rows, as many as the rows need, give the rows
    back. *)
Lemma chunks_of_concat (size : nat) :
  forall (n : nat) (rows : list MetricRow),
    (List.length rows <= n * size)%nat -> concat (chunks_of n size rows) = rows.
Proof.
  induction n as [|n IH]; intros rows H; cbn [chunks_of concat].
  - destruct rows; [reflexivity | cbn in H; lia].
  - rewrite IH; [apply firstn_skipn|]. rewrite length_skipn. lia.
Qed.

Lemma chunks_of_length (size : nat) :
  forall (n : nat) (rows : list MetricRow),
    Forall (fun c => (List.length c <= size)%nat) (chunks_of n size rows).
Proof.
  induction n as [|n IH]; intros rows; cbn [chunks_of]; constructor; [|apply IH].
  apply firstn_le_length.
Qed.

Lemma chunks_of_nonempty (size : nat) :
  (0 < size)%nat ->
  forall (n : nat) (rows : list MetricRow),
    (n * size < List.length rows + size)%nat ->
    Forall (fun c => c <> []) (chunks_of n size rows).
Proof.
  intros Hs. induction n as [|n IH]; intros rows H; cbn [chunks_of]; constructor.
  - destruct rows as [|r rows]; [cbn in H; lia|].
    destruct size; [lia | discriminate].
  - apply IH. rewrite length_skipn. lia.
Qed.

Lemma num_chunks_bounds (total size : Z) :
  (0 < size)%Z -> (0 <= total)%Z ->
  (total <= num_chunks total size * size)%Z /\
  (num_chunks total size * size < total + size)%Z.
Proof.
  intros Hs Ht. unfold num_chunks.
  pose proof (Z.div_mod (total + size - 1) size ltac:(lia)) as E.
  pose proof (Z.mod_pos_bound (total + size - 1) size Hs) as B. nia.
Qed.

(** X4.  The chunks [process_ts_file_in_parallel] cuts a file into:
    the chunk size is at least 100000 rows; the chunks, in their
    order, hold the rows of the file, each once and in the order of
    the file; no chunk has more rows than the chunk size and none is
    empty. *)
Theorem chunks_cover_the_file (B : Z) (mem : Q) (rows : list MetricRow) :
  let size := optimized_chunk_size B mem in
  let chunks := chunks_of (Z.to_nat (num_chunks (Z.of_nat (List.length rows)) size))
                          (Z.to_nat size) rows in
  (100000 <= size)%Z /\
  concat chunks = rows /\
  Forall (fun c => (Z.of_nat (List.length c) <= size)%Z) chunks /\
  Forall (fun c => c <> []) chunks.
Proof.
  cbv zeta. pose proof (optimized_chunk_size_min B mem) as Hmin.
  set (size := optimized_chunk_size B mem) in *.
  destruct (num_chunks_bounds (Z.of_nat (List.length rows)) size) as [Hlo Hhi]; [lia..|].
  assert (Hn : (0 <= num_chunks (Z.of_nat (List.length rows)) size)%Z).
  { unfold num_chunks. apply Z.div_pos; lia. }
  split; [exact Hmin|]. split; [|split].
  - apply chunks_of_concat. nia.
  - eapply Forall_impl; [|apply chunks_of_length]. cbn beta. intros c Hc. lia.
  - apply chunks_of_nonempty; [lia|]. nia.
Qed.

(** ** The daily accumulator *)

(** The rows of a frame, split by a list of distinct days that holds
    the day of every row, are the rows of the frame. *)
Lemma split_by_day (ds : list Z) :
  NoDup ds ->
  forall (df : list AggregatedRow),
    Permutation (flat_map (fun d => filter (fun r => (day_key r =? d)%Z) df) ds)
                (filter (fun r => existsb (Z.eqb (day_key r)) ds) df).
Proof.
  induction 1 as [|d ds Hd N IH]; intros df; cbn [flat_map existsb].
  - induction df as [|r df IHdf]; [constructor | exact IHdf].
  - rewrite (IH df). clear IH.
    induction df as [|r df IHdf]; [constructor|].
    cbn [filter].
    destruct (day_key r =? d)%Z eqn:E.
    + assert (Hn : existsb (Z.eqb (day_key r)) ds = false).
      { apply Bool.not_true_iff_false. intros H. apply existsb_exists in H as (x & Hx & Ex).
        apply Z.eqb_eq in Ex. apply Z.eqb_eq in E. subst. contradiction. }
      rewrite Hn. cbn [orb app]. constructor. exact IHdf.
    + cbn [orb]. destruct (existsb (Z.eqb (day_key r)) ds).
      * etransitivity; [symmetry; apply Permutation_middle|]. constructor. exact IHdf.
      * exact IHdf.
Qed.

Lemma accumulate_rows (day : Z) (df : list AggregatedRow) acc :
  Permutation (flat_map (fun e => concat (snd e)) (accumulate day df acc))
              (flat_map (fun e => concat (snd e)) acc ++ df).
Proof.
  induction acc as [|[d dfs] acc IH]; cbn [accumulate flat_map snd concat app].
  - rewrite !app_nil_r. reflexivity.
  - destruct (d =? day)%Z; cbn [flat_map snd].
    + rewrite concat_app. cbn [concat]. rewrite app_nil_r.
      rewrite <- !app_assoc. apply Permutation_app_head. apply Permutation_app_comm.
    + rewrite <- app_assoc. apply Permutation_app_head. exact IH.
Qed.

(** Every entry of the accumulator has rows, and they are rows of its
    day. *)
Lemma accumulate_filed (day : Z) (df : list AggregatedRow) acc :
  df <> [] -> Forall (fun r => day_key r = day) df ->
  Forall (fun e => concat (snd e) <> [] /\
                   Forall (fun r => day_key r = fst e) (concat (snd e))) acc ->
  Forall (fun e => concat (snd e) <> [] /\
                   Forall (fun r => day_key r = fst e) (concat (snd e)))
         (accumulate day df acc).
Proof.
  intros Hne Hdf. induction acc as [|[d dfs] acc IH]; intros Hacc; cbn [accumulate].
  - constructor; [|constructor]. cbn [snd fst concat]. rewrite app_nil_r. auto.
  - inversion Hacc as [|? ? [H1 H2] Hrest]; subst. cbn [fst snd] in *.
    destruct (d =? day)%Z eqn:E.
    + apply Z.eqb_eq in E. subst d. constructor; [|exact Hrest]. cbn [fst snd].
      rewrite concat_app. cbn [concat]. rewrite app_nil_r. split.
      * intros C. apply app_eq_nil in C as [_ C]. contradiction.
      * apply Forall_app. auto.
    + constructor; [cbn [fst snd]; auto | auto].
Qed.

Lemma filter_all_rows (ds : list Z) (df : list AggregatedRow) :
  (forall r, In r df -> In (day_key r) ds) ->
  filter (fun r => existsb (Z.eqb (day_key r)) ds) df = df.
Proof.
  induction df as [|r df IH]; intros H; cbn [filter]; [reflexivity|].
  replace (existsb (Z.eqb (day_key r)) ds) with true.
  - f_equal. apply IH. intros; apply H; now right.
  - symmetry. apply existsb_exists. exists (day_key r).
    split; [apply H; now left | apply Z.eqb_refl].
Qed.

(** The invariant of the accumulator: distinct days, every entry with
    rows of its day, and the rows taken so far. *)
Lemma accumulate_result_spec (result_df : list AggregatedRow) acc (seen : list AggregatedRow) :
  NoDup (map fst acc) ->
  Forall (fun e => concat (snd e) <> [] /\
                   Forall (fun r => day_key r = fst e) (concat (snd e))) acc ->
  Permutation (flat_map (fun e => concat (snd e)) acc) seen ->
  let acc' := accumulate_result result_df acc in
  NoDup (map fst acc') /\
  Forall (fun e => concat (snd e) <> [] /\
                   Forall (fun r => day_key r = fst e) (concat (snd e))) acc' /\
  Permutation (flat_map (fun e => concat (snd e)) acc') (seen ++ result_df).
Proof.
  intros N F P. cbv zeta. unfold accumulate_result.
  destruct (days_of_spec (map day_key result_df) []) as [Nd Id].
  assert (Hsplit : Permutation
                     (flat_map (fun d => filter (fun r => (day_key r =? d)%Z) result_df)
                               (days_of [] (map day_key result_df)))
                     result_df).
  { rewrite (split_by_day _ Nd). rewrite filter_all_rows; [reflexivity|].
    intros r Hr. apply Id. split; [now apply in_map | intros []]. }
  assert (Hin : forall d, In d (days_of [] (map day_key result_df)) ->
                          In d (map day_key result_df)).
  { intros d Hd. now apply Id in Hd. }
  revert Hsplit Hin. generalize (days_of [] (map day_key result_df)) as ds.
  intros ds. revert acc seen N F P.
  assert (G : forall ds acc seen,
             NoDup (map fst acc) ->
             Forall (fun e => concat (snd e) <> [] /\
                              Forall (fun r => day_key r = fst e) (concat (snd e))) acc ->
             Permutation (flat_map (fun e => concat (snd e)) acc) seen ->
             (forall d, In d ds -> In d (map day_key result_df)) ->
             let acc' := fold_left
                           (fun acc day =>
                              accumulate day (filter (fun r => (day_key r =? day)%Z) result_df)
                                         acc) ds acc in
             NoDup (map fst acc') /\
             Forall (fun e => concat (snd e) <> [] /\
                              Forall (fun r => day_key r = fst e) (concat (snd e))) acc' /\
             Permutation (flat_map (fun e => concat (snd e)) acc')
                         (seen ++ flat_map (fun d => filter (fun r => (day_key r =? d)%Z)
                                                            result_df) ds)).
  { clear. induction ds as [|d ds IH]; intros acc seen N F P Hin; cbn [fold_left flat_map].
    - rewrite app_nil_r. auto.
    - cbv zeta in IH.
      specialize (IH (accumulate d (filter (fun r => (day_key r =? d)%Z) result_df) acc)
                     (seen ++ filter (fun r => (day_key r =? d)%Z) result_df)).
      rewrite <- app_assoc in IH. apply IH.
      + now apply accumulate_nodup.
      + apply accumulate_filed; [| |exact F].
        * specialize (Hin d (or_introl eq_refl)).
          apply in_map_iff in Hin as (r & E & Hr).
          intros C. assert (Hf : In r (filter (fun r => (day_key r =? d)%Z) result_df)).
          { apply filter_In. split; [exact Hr | now apply Z.eqb_eq]. }
          rewrite C in Hf. destruct Hf.
        * apply Forall_forall. intros r Hr. apply filter_In in Hr as [_ Hr].
          now apply Z.eqb_eq.
      + rewrite accumulate_rows. now apply Permutation_app_tail.
      + intros d' Hd'. apply Hin. now right. }
  intros acc seen N F P Hsplit Hin.
  destruct (G ds acc seen N F P Hin) as (G1 & G2 & G3).
  split; [exact G1|]. split; [exact G2|].
  rewrite G3. now apply Permutation_app_head.
Qed.

Lemma process_chunk_no_jobs (c : list MetricRow) : process_chunk c [] = [].
Proof.
  unfold process_chunk, windowed, join. cbn [filter].
  induction c as [|m c IH]; [reflexivity|]. cbn [map flat_map app]. exact IH.
Qed.

Lemma daily_accumulator_spec (jobs_df : list JobRow) (chunks : list (list MetricRow)) :
  forall acc seen,
    NoDup (map fst acc) ->
    Forall (fun e => concat (snd e) <> [] /\
                     Forall (fun r => day_key r = fst e) (concat (snd e))) acc ->
    Permutation (flat_map (fun e => concat (snd e)) acc) seen ->
    let acc' := fold_left (fun acc ts_chunk =>
                             match ts_chunk with
                             | [] => acc
                             | _ :: _ => accumulate_result (process_chunk ts_chunk jobs_df) acc
                             end) chunks acc in
    NoDup (map fst acc') /\
    Forall (fun e => concat (snd e) <> [] /\
                     Forall (fun r => day_key r = fst e) (concat (snd e))) acc' /\
    Permutation (flat_map (fun e => concat (snd e)) acc')
                (seen ++ flat_map (fun c => process_chunk c jobs_df) chunks).
Proof.
  induction chunks as [|c chunks IH]; intros acc seen N F P; cbn [fold_left flat_map].
  - rewrite app_nil_r. auto.
  - cbv zeta in IH. rewrite app_assoc. destruct c as [|m c].
    + change (process_chunk [] jobs_df) with (@nil AggregatedRow). rewrite app_nil_r.
      now apply IH.
    + destruct (accumulate_result_spec (process_chunk (m :: c) jobs_df) acc seen N F P)
        as (A1 & A2 & A3).
      now apply IH.
Qed.

(** X5.  The frames [process_ts_file_in_parallel] hands over for
    writing: there is one frame for each day, no frame is empty, every
    row of a frame lies in the day of the frame, and the rows of all
    frames together are the rows the chunks produced, each as often as
    it was produced: no row is lost and none is written twice. *)
Theorem rows_are_filed_under_their_day
        (B : Z) (mem : Q) (rows : list MetricRow) (jobs_df : list JobRow) :
  let size := optimized_chunk_size B mem in
  let chunks := chunks_of (Z.to_nat (num_chunks (Z.of_nat (List.length rows)) size))
                          (Z.to_nat size) rows in
  let out := process_ts_file_in_parallel B mem rows jobs_df in
  NoDup (map fst out) /\
  Forall (fun e => snd e <> [] /\ Forall (fun r => day_key r = fst e) (snd e)) out /\
  Permutation (concat (map snd out)) (flat_map (fun c => process_chunk c jobs_df) chunks).
Proof.
  cbv zeta. unfold process_ts_file_in_parallel, daily_accumulator.
  destruct (Z.of_nat (List.length rows) =? 0)%Z eqn:E0.
  { apply Z.eqb_eq in E0. destruct rows; [|discriminate]. cbn [map concat].
    split; [constructor|]. split; [apply Forall_nil|].
    induction (Z.to_nat (num_chunks _ _)) as [|n IH]; [constructor|].
    cbn [chunks_of flat_map]. rewrite firstn_nil, skipn_nil. exact IH. }
  destruct jobs_df as [|j jobs_df].
  { cbn [map concat]. split; [constructor|]. split; [constructor|].
    induction (chunks_of _ _ rows) as [|c cs IH]; [constructor|].
    cbn [flat_map]. rewrite process_chunk_no_jobs. exact IH. }
  destruct (daily_accumulator_spec (j :: jobs_df)
              (chunks_of (Z.to_nat (num_chunks (Z.of_nat (List.length rows))
                                               (optimized_chunk_size B mem)))
                         (Z.to_nat (optimized_chunk_size B mem)) rows)
              [] [] (NoDup_nil _) (Forall_nil _) (Permutation_refl _)) as (A1 & A2 & A3).
  cbv zeta in A1, A2, A3. cbn [app] in A3.
  set (acc := fold_left _ _ []) in *.
  split; [|split].
  - rewrite map_map. cbn [fst]. exact A1.
  - apply Forall_map. cbn [fst snd]. exact A2.
  - rewrite map_map. cbn [snd]. rewrite <- flat_map_concat_map. exact A3.
Qed.

(** ** The rows of a chunk *)

Lemma rows_for_first df ks r :
  In r (rows_for df ks) ->
  exists first_row g,
    group_of df (key_of r) = first_row :: g /\
    r = result_row (first_row :: g) first_row (key_of r).
Proof.
  unfold rows_for. rewrite in_flat_map. intros (k & Hk & Hr).
  destruct (group_of df k) as [|fr g] eqn:E; [destruct Hr|].
  destruct Hr as [<-|[]].
  replace (key_of (result_row (fr :: g) fr k)) with k
    by (destruct k as [[a b] t]; reflexivity).
  rewrite E. eauto.
Qed.

Lemma windowed_in (ts_chunk : list MetricRow) (jobs_df : list JobRow) (x : joined) :
  In x (windowed ts_chunk jobs_df) ->
  In (snd x) jobs_df /\
  Job_Id (fst x) = jobID (snd x) /\
  (start_time (snd x) <= Timestamp (fst x) <= end_time (snd x))%Z /\
  exists m, In m ts_chunk /\
            fst x = mkMetric (Timestamp m) (normalize_job_id (Job_Id m))
                             (Host m) (Event m) (Value m).
Proof.
  unfold windowed. intros H. apply filter_In in H as [H W].
  unfold join in H. apply in_flat_map in H as (m' & Hm' & H).
  apply in_map_iff in H as (j & <- & Hj). apply filter_In in Hj as [Hj E].
  apply String.eqb_eq in E. apply in_map_iff in Hm' as (m & <- & Hm).
  unfold in_window in W. cbn [fst snd] in *.
  apply Bool.andb_true_iff in W as [W1 W2]. apply Z.leb_le in W1, W2.
  split; [exact Hj|]. split; [exact E|]. split; [lia|]. eauto.
Qed.

Lemma truncate_minute_spec (t : Z) :
  (truncate_minute t mod 60 = 0)%Z /\ (truncate_minute t <= t < truncate_minute t + 60)%Z.
Proof.
  unfold truncate_minute. pose proof (Z.mod_pos_bound t 60 ltac:(lia)) as B.
  split; [|lia].
  rewrite (Z.div_mod t 60) at 1 by lia.
  replace (60 * (t / 60) + t mod 60 - t mod 60)%Z with ((t / 60) * 60)%Z by lia.
  apply Z.mod_mul. lia.
Qed.

(** X6.  Every row a chunk produces stands for a full minute and goes
    back to a metric row of the chunk and to an accounting record: the
    time is a multiple of 60 seconds, the unit is ["mixed"], the
    accounting record is one of [jobs_df] with the job id of the row,
    and some metric row of the chunk has the (normalised) job id and
    the host of the row, a time stamp in the minute of the row, and
    lies in the window from the start to the end of the job.  So the
    time of the row is at most the end of the job and less than a
    minute before its start. *)
Theorem aggregated_row_comes_from_its_job
        (ts_chunk : list MetricRow) (jobs_df : list JobRow) :
  Forall (fun r =>
            (time r mod 60 = 0)%Z /\
            unit r = "mixed" /\
            In (job_info r) jobs_df /\
            jobID (job_info r) = jid r /\
            (start_time (job_info r) - 60 < time r <= end_time (job_info r))%Z /\
            exists m, In m ts_chunk /\
                      normalize_job_id (Job_Id m) = jid r /\
                      Host m = host r /\
                      (time r <= Timestamp m < time r + 60)%Z /\
                      (start_time (job_info r) <= Timestamp m <= end_time (job_info r))%Z)
         (process_chunk ts_chunk jobs_df).
Proof.
  apply Forall_forall. intros r Hr. rewrite process_chunk_rows_for in Hr.
  apply rows_for_first in Hr as (fr & g & Hg & Er).
  assert (Hfr : In fr (group_of (windowed ts_chunk jobs_df) (key_of r)))
    by (rewrite Hg; now left).
  apply filter_In in Hfr as [Hw Hk]. apply key_eqb_eq in Hk.
  destruct (windowed_in _ _ _ Hw) as (Hj & Hid & Hwin & m & Hm & Efr).
  unfold combo_of, key_of in Hk. injection Hk as K1 K2 K3.
  rewrite Efr in K1, K2, K3, Hid, Hwin. cbn [Job_Id Host Timestamp] in *.
  assert (Ejob : job_info r = snd fr) by (rewrite Er; reflexivity).
  assert (Eunit : unit r = "mixed") by (rewrite Er; reflexivity).
  destruct (truncate_minute_spec (Timestamp m)) as [T1 T2].
  rewrite Ejob. rewrite K3 in T1, T2.
  split; [exact T1|]. split; [exact Eunit|]. split; [exact Hj|].
  split; [congruence|]. split; [lia|].
  exists m. repeat split; try assumption; lia.
Qed.

(** ** Means *)

Lemma Qsum_bounds (lo hi : Q) (l : list Q) :
  Forall (fun v => lo <= v /\ v <= hi)%Q l ->
  (inject_Z (Z.of_nat (List.length l)) * lo <= Consumer.Qsum l)%Q /\
  (Consumer.Qsum l <= inject_Z (Z.of_nat (List.length l)) * hi)%Q.
Proof.
  induction 1 as [|v l [Hlo Hhi] _ [IH1 IH2]].
  - cbn. split; apply Qle_bool_iff; rewrite Qmult_0_l; reflexivity.
  - cbn [List.length Consumer.Qsum fold_right].
    fold (Consumer.Qsum l).
    rewrite Nat2Z.inj_succ. unfold Z.succ. rewrite inject_Z_plus.
    split.
    + setoid_replace ((inject_Z (Z.of_nat (List.length l)) + inject_Z 1) * lo)%Q
        with (lo + inject_Z (Z.of_nat (List.length l)) * lo)%Q using relation Qeq by ring.
      now apply Qplus_le_compat.
    + setoid_replace ((inject_Z (Z.of_nat (List.length l)) + inject_Z 1) * hi)%Q
        with (hi + inject_Z (Z.of_nat (List.length l)) * hi)%Q using relation Qeq by ring.
      now apply Qplus_le_compat.
Qed.

(** The mean of a selection lies between any two bounds of its
    values. *)
Lemma mean_bounds (lo hi : Q) (l : list Q) (v : Q) :
  Forall (fun v => lo <= v /\ v <= hi)%Q l ->
  mean l = Some v -> (lo <= v)%Q /\ (v <= hi)%Q.
Proof.
  intros H. unfold mean. destruct l as [|x l]; [discriminate|].
  intros [= <-]. destruct (Qsum_bounds lo hi (x :: l) H) as [B1 B2].
  set (n := inject_Z (Z.of_nat (List.length (x :: l)))) in *.
  assert (Hn : (0 < n)%Q).
  { unfold n, Qlt. cbn [Qnum Qden inject_Z List.length]. lia. }
  split.
  - apply Qle_shift_div_l; [exact Hn|]. now rewrite Qmult_comm.
  - apply Qle_shift_div_r; [exact Hn|]. now rewrite Qmult_comm.
Qed.

(** X7.  A value column of a result row lies between any two bounds
    of the values of the chunk for its event: when every metric row
    of the event has a value from [lo] to [hi], so has every row of
    the result that is not null in the column of the event. *)
Theorem value_columns_stay_within_bounds
        (ts_chunk : list MetricRow) (jobs_df : list JobRow) (e : string) (lo hi : Q) :
  In e expected_events ->
  (forall m, In m ts_chunk -> Event m = e -> (lo <= Value m)%Q /\ (Value m <= hi)%Q) ->
  Forall (fun r => match value_col e r with
                   | Some v => (lo <= v)%Q /\ (v <= hi)%Q
                   | None => True
                   end)
         (process_chunk ts_chunk jobs_df).
Proof.
  intros He Hb. apply Forall_forall. intros r Hr. rewrite process_chunk_rows_for in Hr.
  apply rows_for_in in Hr as [fr Er].
  assert (Ev : value_col e r
               = event_mean (group_of (windowed ts_chunk jobs_df) (key_of r)) e).
  { rewrite Er at 1. now apply value_col_result_row. }
  rewrite Ev. clear Ev.
  destruct (event_mean _ e) as [v|] eqn:Em; [|exact I].
  unfold event_mean in Em. eapply mean_bounds; [|exact Em].
  apply Forall_forall. intros v' Hv'. apply in_map_iff in Hv' as (x & <- & Hx).
  apply filter_In in Hx as [Hx Hev]. apply String.eqb_eq in Hev.
  apply filter_In in Hx as [Hx _].
  destruct (windowed_in _ _ _ Hx) as (_ & _ & _ & m & Hm & Efr).
  rewrite Efr in Hev |- *. cbn [Event Value] in *. now apply Hb.
Qed.

Lemma value_columns_stay_within_bounds_witness :
  In "cpuuser" expected_events /\
  (forall m, In m [Examples.cpu_row; Examples.mem_row] -> Event m = "cpuuser" ->
             (0 <= Value m)%Q /\ (Value m <= 100)%Q) /\
  Forall (fun r => match value_col "cpuuser" r with
                   | Some v => (0 <= v)%Q /\ (v <= 100)%Q
                   | None => True
                   end)
         (process_chunk [Examples.cpu_row; Examples.mem_row] [Examples.job1]).
Proof.
  assert (H1 : In "cpuuser" expected_events) by (left; reflexivity).
  assert (H2 : forall m, In m [Examples.cpu_row; Examples.mem_row] -> Event m = "cpuuser" ->
                         (0 <= Value m)%Q /\ (Value m <= 100)%Q).
  { intros m [<-|[<-|[]]] E; [|discriminate E].
    split; apply Qle_bool_iff; reflexivity. }
  split; [exact H1|]. split; [exact H2|].
  exact (value_columns_stay_within_bounds
           [Examples.cpu_row; Examples.mem_row] [Examples.job1] "cpuuser" 0 100 H1 H2).
Defined.
End DriverFacts.

(* ===================================================================== *)
(** * The raw-metric transformer: NFS rate and memory *)
(* ===================================================================== *)

Section NfsFacts.
Import Transformer Nfs.

Lemma nfs_mask_some (x p : NfsRow) :
  valid_rate_mask (x, Some p) = true <->
  (MIN_TIME_DELTA <= time_delta_seconds x p)%Q /\ (0 <= byte_delta x p)%Q.
Proof.
  unfold valid_rate_mask. cbn [fst snd].
  now rewrite Bool.andb_true_iff, !Qgeb_true.
Qed.

Lemma nfs_time_delta_pos (x p : NfsRow) :
  (MIN_TIME_DELTA <= time_delta_seconds x p)%Q ->
  (l_Timestamp_original p < l_Timestamp_original x)%Z.
Proof.
  unfold MIN_TIME_DELTA, time_delta_seconds. intros H.
  assert (H0 : (0 < inject_Z (l_Timestamp_original x - l_Timestamp_original p))%Q).
  { eapply Qlt_le_trans; [|exact H]. reflexivity. }
  change 0%Q with (inject_Z 0) in H0. rewrite <- Zlt_Qlt in H0. lia.
Qed.

Lemma nfs_rate_formula (x p : NfsRow) :
  valid_rate_mask (x, Some p) = true ->
  (Value_rate (x, Some p)
   == byte_delta x p / inject_Z (2 ^ 20) / time_delta_seconds x p)%Q /\
  (0 <= Value_rate (x, Some p))%Q.
Proof.
  intros Hm. pose proof Hm as Hm'. apply nfs_mask_some in Hm' as [Ht Hs].
  assert (Htd : (0 < time_delta_seconds x p)%Q).
  { eapply Qlt_le_trans; [|exact Ht]. reflexivity. }
  unfold Value_rate. cbn [fst snd]. rewrite Hm.
  assert (Hnn : (0 <= byte_delta x p * BYTES_TO_MB / time_delta_seconds x p)%Q).
  { apply Qle_shift_div_l; [exact Htd|]. rewrite Qmult_0_l.
    apply Qmult_le_0_compat; [exact Hs | apply Qle_bool_iff; reflexivity]. }
  rewrite clip_lower_nonneg by exact Hnn. split; [|exact Hnn].
  unfold BYTES_TO_MB.
  change (inject_Z (1024 * 1024)) with (inject_Z (2 ^ 20)).
  field. repeat split; intros E.
  all: first [ rewrite E in Htd; exact (Qlt_irrefl 0 Htd)
             | vm_compute in E; discriminate ].
Qed.

Lemma nfs_valid_in (rows : list NfsRow) (x : NfsRow) (o : option NfsRow) :
  In (x, o) (df_valid_rates rows) ->
  exists p, o = Some p /\ valid_rate_mask (x, Some p) = true /\
            consecutive l_series l_Timestamp_original rows p x.
Proof.
  unfold df_valid_rates. intros H. apply filter_In in H as [Hin Hm].
  destruct o as [p|]; [|discriminate].
  exists p. split; [reflexivity|]. split; [exact Hm|].
  now apply with_prev_consecutive.
Qed.
End NfsFacts.

Section OneRowPerInstant.
Import Transformer.
Context {A : Type}.
Variable series : A -> string * string * string.
Variable ts : A -> Z.
(** A mask that lets a row pass only with a previous row that is
    strictly earlier. *)
Variable valid : A * option A -> bool.
Hypothesis valid_none : forall x, valid (x, None) = false.
Hypothesis valid_later : forall x p, valid (x, Some p) = true -> (ts p < ts x)%Z.

(** In a sorted frame, of the rows of one series at one instant only
    the first can pass the mask: the row before each of the others is
    a row of the same instant. *)
Lemma valid_rows_distinct (l : list A) :
  StronglySorted (fun a b => row_leb series ts a b = true) l ->
  forall before,
    NoDup (map (fun xo => row_key series ts (fst xo))
               (filter valid (with_prev series before l))).
Proof.
  induction 1 as [|x rest Hs IH Hx]; intros before; cbn [with_prev filter map];
    [constructor|].
  assert (Hnot : ~ In (row_key series ts x)
                      (map (fun xo => row_key series ts (fst xo))
                           (filter valid (with_prev series (x :: before) rest)))).
  { intros Hin. apply in_map_iff in Hin as ([y o] & Ek & Hy). cbn [fst] in Ek.
    apply filter_In in Hy as [Hy Hv].
    unfold row_key in Ek. injection Ek as Es Et.
    apply with_prev_in in Hy as (l1 & l2 & -> & Ho).
    destruct o as [p|]; [|now rewrite valid_none in Hv].
    apply valid_later in Hv. symmetry in Ho.
    apply find_split in Ho as (a & b & Hab & Hp & Ha).
    apply same_series_eq in Hp.
    assert (Hcases : p = x \/ In p l1).
    { apply app_eq_app in Hab as [l [[E1 E2]|[E1 E2]]].
      - destruct l as [|z l].
        + injection E2 as ->. now left.
        + injection E2 as -> _. right. apply in_rev. rewrite E1.
          apply in_or_app. right. now left.
      - destruct l as [|z l].
        + injection E2 as ->. now left.
        + injection E2 as <- _. exfalso.
          assert (Hxa : In x a) by (rewrite E1; apply in_or_app; right; now left).
          apply Ha in Hxa.
          assert (same_series series y x = true) by now apply same_series_eq.
          congruence. }
    destruct Hcases as [->|Hp1]; [lia|].
    rewrite Forall_forall in Hx.
    assert (H1 : (ts x <= ts p)%Z).
    { apply (row_leb_same_series series ts); [congruence|].
      apply Hx. apply in_or_app. now left. }
    apply StronglySorted_app in Hs as (_ & _ & Hbetween).
    assert (H2 : (ts p <= ts y)%Z).
    { apply (row_leb_same_series series ts); [congruence|].
      apply Hbetween; [exact Hp1 | now left]. }
    lia. }
  destruct (valid (x, find (same_series series x) before)); cbn [map fst].
  - constructor; [exact Hnot | apply IH].
  - apply IH.
Qed.
End OneRowPerInstant.

Section NfsRates.
Import Transformer Nfs.

Lemma nfs_valid_keys_distinct (rows : list NfsRow) :
  NoDup (map (fun xp => l_node_key (fst xp)) (df_valid_rates rows)).
Proof.
  pose proof (valid_rows_distinct l_series l_Timestamp_original valid_rate_mask
                (fun x => eq_refl)
                (fun x p H => nfs_time_delta_pos x p (proj1 (proj1 (nfs_mask_some x p) H)))
                (sort_values l_series l_Timestamp_original rows)
                (sort_values_sorted l_series l_Timestamp_original rows) []) as N.
  fold (df_valid_rates rows) in N.
  apply (NoDup_map_inv (fun k : node_key => (fst (fst k), snd (fst k), "", snd k))).
  rewrite map_map. exact N.
Qed.

Lemma group_keys_length (l : list node_key) :
  NoDup l -> List.length (group_keys l) = List.length l.
Proof.
  induction 1 as [|k l Hk N IH]; [reflexivity|].
  cbn [group_keys fold_right List.length]. fold (group_keys l). rewrite <- IH.
  assert (Hk' : ~ In k (group_keys l)) by now rewrite group_keys_in.
  clear - Hk'. induction (group_keys l) as [|y g IHg]; [reflexivity|].
  cbn [insert_key]. destruct (node_key_cmp k y) eqn:C.
  - destruct node_key_cmp_good as (E & _ & _). apply E in C. subst y.
    exfalso. apply Hk'. now left.
  - reflexivity.
  - cbn [List.length]. rewrite IHg; [reflexivity|]. intros H. apply Hk'. now right.
Qed.

Lemma group_keys_sorted (l : list node_key) :
  StronglySorted (fun a b => node_key_cmp a b = Lt) (group_keys l).
Proof.
  induction l as [|k l IH]; cbn [group_keys fold_right]; [constructor|].
  now apply insert_key_sorted.
Qed.

(** With distinct keys a group is a single row. *)
Lemma single_group {X : Type} (key : X -> node_key) (l : list X) (e : X) :
  NoDup (map key l) -> In e l ->
  filter (fun e' => node_key_eqb (key e') (key e)) l = [e].
Proof.
  induction l as [|z l IH]; intros N He; [destruct He|].
  cbn [map] in N. inversion N as [|? ? Hz Nl]; subst. cbn [filter].
  destruct He as [->|He].
  - rewrite (proj2 (node_key_eqb_eq _ _) eq_refl). f_equal.
    clear IH N Nl. induction l as [|w l IHl]; [reflexivity|]. cbn [filter].
    destruct (node_key_eqb (key w) (key e)) eqn:E.
    + apply node_key_eqb_eq in E. exfalso. apply Hz. cbn [map]. left. exact E.
    + apply IHl. intros H. apply Hz. now right.
  - destruct (node_key_eqb (key z) (key e)) eqn:E.
    + apply node_key_eqb_eq in E. exfalso. apply Hz. rewrite E. now apply in_map.
    + now apply IH.
Qed.

Lemma sorted_map_keys (l : list node_key) (f : node_key -> FrescoRow) :
  (forall k, out_key (f k) = k) ->
  StronglySorted (fun a b => node_key_cmp a b = Lt) l ->
  StronglySorted (fun a b => node_key_cmp (out_key a) (out_key b) = Lt) (map f l).
Proof.
  intros Hf. induction 1 as [|k l Hs IH Hk]; cbn [map]; constructor; [exact IH|].
  rewrite Forall_forall in Hk |- *. intros r Hr. apply in_map_iff in Hr as (k' & <- & Hk').
  rewrite !Hf. now apply Hk.
Qed.

(** The rates and the rows of [process_nfs_file], in the terms of the
    frame. *)
Lemma nfs_rates_spec (rows : list NfsRow) :
  (forall x o, In (x, o) (df_valid_rates rows) ->
     exists p, o = Some p /\
       consecutive l_series l_Timestamp_original rows p x /\
       (l_Timestamp_original p < l_Timestamp_original x)%Z /\
       (0 <= byte_delta x p)%Q /\
       (Value_rate (x, o)
        == byte_delta x p / inject_Z (2 ^ 20) / time_delta_seconds x p)%Q /\
       (0 <= Value_rate (x, o))%Q) /\
  NoDup (map (fun xp => l_node_key (fst xp)) (df_valid_rates rows)) /\
  (forall out, In out (process_nfs_file rows) ->
     f_Event out = "nfs" /\ f_Units out = "MB/s" /\
     exists xp, In xp (df_valid_rates rows) /\
                l_node_key (fst xp) = out_key out /\
                (f_Value out == Value_rate xp)%Q) /\
  StronglySorted (fun a b => node_key_cmp (out_key a) (out_key b) = Lt)
                 (process_nfs_file rows) /\
  List.length (process_nfs_file rows) = List.length (df_valid_rates rows).
Proof.
  split.
  { intros x o H. apply nfs_valid_in in H as (p & -> & Hm & Hc).
    exists p. split; [reflexivity|]. split; [exact Hc|].
    pose proof (proj1 (nfs_mask_some x p) Hm) as [Ht Hb].
    split; [now apply nfs_time_delta_pos|]. split; [exact Hb|].
    now apply nfs_rate_formula. }
  split; [apply nfs_valid_keys_distinct|].
  split.
  { intros out H. unfold process_nfs_file in H. apply in_map_iff in H as (k & <- & Hk).
    apply (proj1 (group_keys_in _ _)) in Hk. apply in_map_iff in Hk as (xp & Ek & Hxp).
    cbn [f_Event f_Units f_Value].
    split; [reflexivity|]. split; [reflexivity|].
    exists xp. split; [exact Hxp|]. split.
    { rewrite Ek. destruct k as [[a b] c]. reflexivity. }
    rewrite <- Ek.
    rewrite (single_group (fun xp => l_node_key (fst xp)) _ xp
               (nfs_valid_keys_distinct rows) Hxp).
    cbn [map Transformer.Qsum fold_right]. apply Qplus_0_r. }
  split.
  { unfold process_nfs_file. apply sorted_map_keys; [|apply group_keys_sorted].
    intros [[a b] c]. reflexivity. }
  unfold process_nfs_file. rewrite length_map, group_keys_length.
  - apply length_map.
  - apply nfs_valid_keys_distinct.
Qed.
(** A pair of samples that follow each other in their series, each
    the only sample of the series at its time, with bytes that have
    not gone down, is a valid rate. *)
Lemma nfs_valid_rates_complete (rows : list NfsRow) (x p : NfsRow) :
  In p rows -> In x rows -> l_series p = l_series x ->
  (l_Timestamp_original p < l_Timestamp_original x)%Z ->
  (forall y, In y rows -> l_series y = l_series x ->
             ~ (l_Timestamp_original p < l_Timestamp_original y < l_Timestamp_original x)%Z) ->
  (forall y, In y rows -> l_series y = l_series x ->
             l_Timestamp_original y = l_Timestamp_original p -> y = p) ->
  (forall y, In y rows -> l_series y = l_series x ->
             l_Timestamp_original y = l_Timestamp_original x -> y = x) ->
  (read_bytes p + write_bytes p <= read_bytes x + write_bytes x)%Q ->
  In (x, Some p) (df_valid_rates rows).
Proof.
  intros Hp Hx Hs Hlt Hb Hup Hux Hbytes. unfold df_valid_rates. apply filter_In. split.
  - now apply with_prev_complete.
  - apply nfs_mask_some. split.
    + unfold MIN_TIME_DELTA, time_delta_seconds.
      apply Qle_trans with (inject_Z 1); [apply Qle_bool_iff; reflexivity|].
      rewrite <- Zle_Qle. lia.
    + unfold byte_delta, total_bytes. lra.
Qed.

(** X8.  For every llite file: a row gives a rate only when it has a
    previous row in its (jobID, node) series, ordered by time, that is
    strictly earlier, with a byte delta, of the bytes read and written
    together, of at least 0; the rate is
    [byte_delta / 2^20 / time_delta] and is not negative.  At most one
    row of a (jobID, node, timestamp) gives a rate, so the sum of the
    node-level aggregation has one term: the output has exactly one
    row for each row with a valid rate, with that rate as its value,
    event "nfs" and units "MB/s", in ascending order of
    (jobID, node, timestamp).  A sample that follows another of its
    series, both alone at their times, with bytes that have not gone
    down, has an output row with its rate.  (Floats are read as
    rationals.) *)
Theorem nfs_rate_per_node (rows : list NfsRow) :
  (forall x o, In (x, o) (df_valid_rates rows) ->
     exists p, o = Some p /\
       consecutive l_series l_Timestamp_original rows p x /\
       (l_Timestamp_original p < l_Timestamp_original x)%Z /\
       (0 <= (read_bytes x + write_bytes x) - (read_bytes p + write_bytes p))%Q /\
       (Value_rate (x, o)
        == ((read_bytes x + write_bytes x) - (read_bytes p + write_bytes p))
           / inject_Z (2 ^ 20)
           / inject_Z (l_Timestamp_original x - l_Timestamp_original p))%Q /\
       (0 <= Value_rate (x, o))%Q) /\
  NoDup (map (fun xp => (l_jobID (fst xp), l_node (fst xp), l_Timestamp_original (fst xp)))
             (df_valid_rates rows)) /\
  (forall out, In out (process_nfs_file rows) ->
     f_Event out = "nfs" /\ f_Units out = "MB/s" /\
     exists xp, In xp (df_valid_rates rows) /\
                (l_jobID (fst xp), l_node (fst xp), l_Timestamp_original (fst xp))
                = out_key out /\
                (f_Value out == Value_rate xp)%Q) /\
  StronglySorted (fun a b => node_key_cmp (out_key a) (out_key b) = Lt)
                 (process_nfs_file rows) /\
  List.length (process_nfs_file rows) = List.length (df_valid_rates rows) /\
  (forall x p,
     In p rows -> In x rows -> l_series p = l_series x ->
     (l_Timestamp_original p < l_Timestamp_original x)%Z ->
     (forall y, In y rows -> l_series y = l_series x ->
        ~ (l_Timestamp_original p < l_Timestamp_original y < l_Timestamp_original x)%Z) ->
     (forall y, In y rows -> l_series y = l_series x ->
        l_Timestamp_original y = l_Timestamp_original p -> y = p) ->
     (forall y, In y rows -> l_series y = l_series x ->
        l_Timestamp_original y = l_Timestamp_original x -> y = x) ->
     (read_bytes p + write_bytes p <= read_bytes x + write_bytes x)%Q ->
     exists out, In out (process_nfs_file rows) /\
       out_key out = (l_jobID x, l_node x, l_Timestamp_original x) /\
       (f_Value out
        == ((read_bytes x + write_bytes x) - (read_bytes p + write_bytes p))
           / inject_Z (2 ^ 20)
           / inject_Z (l_Timestamp_original x - l_Timestamp_original p))%Q).
Proof.
  destruct (nfs_rates_spec rows) as (H1 & H2 & H3 & H4 & H5).
  split; [exact H1|]. split; [exact H2|]. split; [exact H3|]. split; [exact H4|].
  split; [exact H5|].
  intros x p Hp Hx Hs Hlt Hb Hup Hux Hbytes.
  pose proof (nfs_valid_rates_complete rows x p Hp Hx Hs Hlt Hb Hup Hux Hbytes) as Hin.
  exists {| f_Job_Id := l_jobID x; f_Host := l_node x; f_Event := "nfs";
            f_Value := Transformer.Qsum
                         (map Value_rate
                              (filter (fun xp => node_key_eqb (l_node_key (fst xp))
                                                              (l_node_key x))
                                      (df_valid_rates rows)));
            f_Units := "MB/s"; f_Timestamp := l_Timestamp_original x |}.
  split; [|split; [reflexivity|]].
  - unfold process_nfs_file. apply in_map_iff. exists (l_node_key x).
    split; [reflexivity|]. apply group_keys_in. apply in_map_iff.
    exists (x, Some p). split; [reflexivity | exact Hin].
  - cbn [f_Value].
    pose proof (single_group (fun xp => l_node_key (fst xp)) _ (x, Some p)
                  (nfs_valid_keys_distinct rows) Hin) as E.
    cbn [fst] in E. rewrite E.
    cbn [map Transformer.Qsum fold_right]. rewrite Qplus_0_r.
    destruct (H1 x (Some p) Hin) as (p' & [= <-] & _ & _ & _ & Hf & _). exact Hf.
Qed.
End NfsRates.

Section OutputOrder.
Import Transformer.

(** X9.  The block and the cpu transformer emit their rows in strictly
    ascending order of (Job Id, Host, Timestamp), the order in which
    [groupby] lists its groups; the frame they return is empty exactly
    when no row of the input has a valid delta. *)
Theorem node_level_rows_are_sorted_by_key (blocks : list BlockRow) (cpus : list CpuRow) :
  StronglySorted (fun a b => node_key_cmp (out_key a) (out_key b) = Lt)
                 (process_block_file blocks) /\
  StronglySorted (fun a b => node_key_cmp (out_key a) (out_key b) = Lt)
                 (process_cpu_file cpus) /\
  (process_block_file blocks = [] <-> df_valid_rates blocks = []) /\
  (process_cpu_file cpus = [] <-> df_valid_deltas cpus = []).
Proof.
  assert (Hnil : forall l : list node_key, group_keys l = [] <-> l = []).
  { intros l. split; [|intros ->; reflexivity].
    destruct l as [|k l]; [reflexivity|]. intros H.
    assert (Hin : In k (group_keys (k :: l))) by (apply group_keys_in; now left).
    rewrite H in Hin. destruct Hin. }
  split; [|split; [|split]].
  - unfold process_block_file. apply sorted_map_keys; [|apply group_keys_sorted].
    intros [[a b] c]. reflexivity.
  - unfold process_cpu_file.
    rewrite (filter_all final_valid_mask) by apply final_valid_mask_true.
    unfold node_level_deltas. rewrite map_map.
    apply sorted_map_keys; [|apply group_keys_sorted].
    intros [[a b] c]. reflexivity.
  - unfold process_block_file. split.
    + intros H. apply map_eq_nil in H. apply (proj1 (Hnil _)) in H. now apply map_eq_nil in H.
    + intros ->. reflexivity.
  - unfold process_cpu_file.
    rewrite (filter_all final_valid_mask) by apply final_valid_mask_true.
    unfold node_level_deltas. split.
    + intros H. apply map_eq_nil in H. apply map_eq_nil in H.
      apply (proj1 (Hnil _)) in H. now apply map_eq_nil in H.
    + intros ->. reflexivity.
Qed.

(** X10.  A file in which every series has a single sample gives no
    row: a rate or a percentage needs two samples of a series. *)
Theorem single_samples_give_no_rows
        (blocks : list BlockRow) (cpus : list CpuRow) (llites : list Nfs.NfsRow) :
  (NoDup (map b_series blocks) -> process_block_file blocks = []) /\
  (NoDup (map c_series cpus) -> process_cpu_file cpus = []) /\
  (NoDup (map Nfs.l_series llites) -> Nfs.process_nfs_file llites = []).
Proof.
  assert (G : forall (A : Type) (series : A -> string * string * string) (ts : A -> Z)
                     (rows : list A) (p x : A),
             NoDup (map series rows) -> consecutive series ts rows p x ->
             (ts p < ts x)%Z -> False).
  { intros A series ts rows p x N (Hp & Hx & Hs & _ & _) Hlt.
    assert (E : p = x); [|subst; lia].
    clear Hlt. induction rows as [|r rows IH]; [destruct Hp|].
    cbn [map] in N. inversion N as [|? ? Hr N']; subst.
    destruct Hp as [->|Hp], Hx as [->|Hx]; auto.
    - exfalso. apply Hr. rewrite Hs. now apply in_map.
    - exfalso. apply Hr. rewrite <- Hs. now apply in_map. }
  split; [|split]; intros N.
  - unfold process_block_file.
    destruct (df_valid_rates blocks) as [|[x o] l] eqn:E; [reflexivity|].
    exfalso. assert (H : In (x, o) (df_valid_rates blocks)) by (rewrite E; now left).
    apply df_valid_rates_in in H as (p & -> & Hm & Hc).
    apply valid_rate_mask_some in Hm as [Ht _]. apply time_delta_pos in Ht.
    exact (G _ _ _ _ _ _ N Hc Ht).
  - unfold process_cpu_file.
    destruct (df_valid_deltas cpus) as [|[x d] l] eqn:E; [reflexivity|].
    exfalso. assert (H : In (x, d) (df_valid_deltas cpus)) by (rewrite E; now left).
    unfold df_valid_deltas in H. apply in_flat_map in H as ([x' o] & Hin & H).
    cbn [fst snd] in H. destruct o as [p|]; [|destruct H].
    pose proof (with_prev_consecutive c_series c_Timestamp_original cpus x' p Hin) as Hc.
    destruct Hc as (Hp & Hx & Hs & _ & _).
    assert (Epx : p = x').
    { clear - N Hp Hx Hs. induction cpus as [|r rows IH]; [destruct Hp|].
      cbn [map] in N. inversion N as [|? ? Hr N']; subst.
      destruct Hp as [->|Hp], Hx as [->|Hx]; auto.
      - exfalso. apply Hr. rewrite Hs. now apply in_map.
      - exfalso. apply Hr. rewrite <- Hs. now apply in_map. }
    subst p. destruct (valid_delta_mask (x', Some x')) eqn:Hm; [|destruct H].
    apply valid_delta_mask_some in Hm as (_ & _ & Hpos).
    unfold total_jiffies_core_delta, core_delta in Hpos.
    cbn [user_core_delta nice_core_delta system_core_delta idle_core_delta
         iowait_core_delta irq_core_delta softirq_core_delta] in Hpos.
    revert Hpos. apply Qle_not_lt.
    apply Qle_lteq. right. ring.
  - unfold Nfs.process_nfs_file.
    destruct (Nfs.df_valid_rates llites) as [|[x o] l] eqn:E; [reflexivity|].
    exfalso. assert (H : In (x, o) (Nfs.df_valid_rates llites)) by (rewrite E; now left).
    apply nfs_valid_in in H as (p & -> & Hm & Hc).
    apply nfs_mask_some in Hm as [Ht _]. apply nfs_time_delta_pos in Ht.
    exact (G _ _ _ _ _ _ N Hc Ht).
Qed.
End OutputOrder.

Section MemFacts.
Import Transformer Mem.

Lemma clip_lower_spec (v : Q) : (0 <= clip_lower 0 v)%Q /\ (v <= clip_lower 0 v)%Q.
Proof.
  unfold clip_lower. destruct (Qgtb 0 v) eqn:E.
  - apply Qgtb_true in E. split; [apply Qle_refl | now apply Qlt_le_weak].
  - apply Qgtb_false in E. split; [exact E | apply Qle_refl].
Qed.

Lemma memory_used_bounds (r : MemRow) :
  (0 <= memory_used_bytes r)%Q /\ (memory_used_bytes r <= MemTotal' r)%Q /\
  (0 <= FilePages' r)%Q /\ (FilePages' r <= memory_used_bytes r)%Q.
Proof.
  unfold FilePages', memory_used_bytes, MemFree', MemTotal'.
  destruct (clip_lower_spec (MemTotal r)) as [T0 _].
  destruct (clip_lower_spec (MemFree r)) as [F0 _].
  destruct (clip_lower_spec (FilePages r)) as [P0 _].
  set (T := clip_lower 0 (MemTotal r)) in *.
  set (F := clip_lower 0 (MemFree r)) in *.
  set (P := clip_lower 0 (FilePages r)) in *.
  clearbody T F P.
  assert (HF : (0 <= Qmin F T)%Q) by (apply Q.min_glb; assumption).
  assert (HFT : (Qmin F T <= T)%Q) by apply Q.le_min_r.
  assert (HP : (Qmin (Qmin P T) (T - Qmin F T) <= T - Qmin F T)%Q) by apply Q.le_min_r.
  assert (HP0 : (0 <= Qmin (Qmin P T) (T - Qmin F T))%Q).
  { apply Q.min_glb; [apply Q.min_glb; assumption | lra]. }
  repeat split; lra.
Qed.

Lemma scaled_value (v : Q) :
  (0 <= v)%Q -> (clip_lower 0 (v * BYTES_TO_GB) == v / inject_Z (2 ^ 30))%Q.
Proof.
  intros H. rewrite clip_lower_nonneg.
  - unfold BYTES_TO_GB. change (inject_Z (1024 ^ 3)) with (inject_Z (2 ^ 30)).
    field. intros E. vm_compute in E. discriminate.
  - apply Qmult_le_0_compat; [exact H | apply Qle_bool_iff; reflexivity].
Qed.

(** X11.  The memory transformer emits two rows for each input row
    whose timestamp parses, first all [memused] rows and then all
    [memused_minus_diskcache] rows, both in the order of the input and
    with units "GB".  With the three columns clipped at 0 and the free
    memory capped by the total, [memused] is (total - free) / 2^30 and
    [memused_minus_diskcache] is that less the file pages (capped by
    the total and by the used memory); so for every row
    0 <= memused_minus_diskcache <= memused <= total / 2^30. *)
Theorem memory_values_are_ordered (rows : list MemRow) :
  let df := parsed rows in
  let out := process_mem_file rows in
  List.length out = (2 * List.length df)%nat /\
  List.length df = List.length (filter (fun r => Consumer.is_not_null (m_timestamp r)) rows) /\
  forall i r t,
    nth_error df i = Some (r, t) ->
    m_timestamp r = Some t /\ In r rows /\
    nth_error out i
    = Some (mkFresco (m_jobID r) (m_node r) "memused" (memused_value r) "GB" t) /\
    nth_error out (List.length df + i)
    = Some (mkFresco (m_jobID r) (m_node r) "memused_minus_diskcache"
                     (memused_minus_diskcache_value r) "GB" t) /\
    (memused_value r == (MemTotal' r - MemFree' r) / inject_Z (2 ^ 30))%Q /\
    (memused_minus_diskcache_value r
     == (MemTotal' r - MemFree' r - FilePages' r) / inject_Z (2 ^ 30))%Q /\
    (0 <= memused_minus_diskcache_value r)%Q /\
    (memused_minus_diskcache_value r <= memused_value r)%Q /\
    (memused_value r <= MemTotal' r / inject_Z (2 ^ 30))%Q.
Proof.
  cbv zeta. unfold process_mem_file, memused_df, memused_minus_diskcache_df.
  split; [rewrite length_app, !length_map; lia|].
  split.
  { unfold parsed. induction rows as [|r rows IH]; [reflexivity|].
    cbn [flat_map filter]. destruct (m_timestamp r); cbn [Consumer.is_not_null];
      rewrite ?length_app; cbn [List.length app]; now rewrite IH. }
  intros i r t Hi.
  assert (Hin : In (r, t) (parsed rows)) by (eapply nth_error_In; exact Hi).
  unfold parsed in Hin. apply in_flat_map in Hin as (r' & Hr' & Hin).
  destruct (m_timestamp r') as [t'|] eqn:Et; [|destruct Hin].
  destruct Hin as [[= <- <-]|[]].
  destruct (memory_used_bounds r') as (U0 & UT & P0 & PU).
  assert (D0 : (0 <= memory_used_bytes r' - FilePages' r')%Q) by lra.
  assert (Hpos : (0 < inject_Z (2 ^ 30))%Q) by reflexivity.
  pose proof (scaled_value _ U0) as E1. pose proof (scaled_value _ D0) as E2.
  fold (memused_value r') in E1. fold (memused_minus_diskcache_value r') in E2.
  split; [exact Et|]. split; [exact Hr'|].
  split.
  { rewrite nth_error_app1 by (rewrite length_map; apply nth_error_Some; congruence).
    rewrite nth_error_map, Hi. reflexivity. }
  split.
  { rewrite nth_error_app2 by (rewrite length_map; lia).
    rewrite length_map. replace (List.length (parsed rows) + i - List.length (parsed rows))%nat
      with i by lia.
    rewrite nth_error_map, Hi. reflexivity. }
  split; [exact E1|]. split; [exact E2|].
  split.
  { rewrite E2. apply Qle_shift_div_l; [exact Hpos|]. now rewrite Qmult_0_l. }
  split.
  { rewrite E1, E2. apply Qmult_le_compat_r; [|apply Qlt_le_weak, Qinv_lt_0_compat, Hpos].
    lra. }
  rewrite E1. apply Qmult_le_compat_r; [exact UT|].
  apply Qlt_le_weak, Qinv_lt_0_compat, Hpos.
Qed.
End MemFacts.

(* ===================================================================== *)
(** * The receiver of step 3: moving and waiting *)
(* ===================================================================== *)

Section MoveFacts.
Import Receiver3.
Variable md5 : string -> string.
Variable channel : string -> string.
Variable rename_replaces : bool.

End MoveFacts.

Section WaitFacts.
Import Stable.
Variable size_at : nat -> nat.
Variable clock : nat -> Z.
Variable shutdown_requested : nat -> bool.

(** The loop keeps the last [stable_time + 1] readings equal to
    [last_size]. *)
Lemma wait_loop_true (timeout : Z) :
  forall fuel k last_size stable_time,
    (stable_time <= k)%nat -> (stable_time < 5)%nat ->
    (forall i, (i <= stable_time)%nat -> size_at (k - i) = last_size) ->
    (forall i, (1 <= i <= k)%nat -> shutdown_requested i = false) ->
    wait_loop size_at clock shutdown_requested fuel timeout k last_size stable_time
    = Some true ->
    exists j, (forall i, (i <= 5)%nat -> size_at (j + i) = size_at j) /\
              (0 < size_at j)%nat /\
              (clock (j + 5) - clock 0 < timeout)%Z /\
              (forall i, (1 <= i <= j + 5)%nat -> shutdown_requested i = false).
Proof.
  induction fuel as [|fuel IH]; intros k L s Hk Hs Hinv Hno; cbn [wait_loop]; [discriminate|].
  destruct (clock (S k) - clock 0 <? timeout)%Z eqn:Ht; [|discriminate].
  apply Z.ltb_lt in Ht.
  destruct (shutdown_requested (S k)) eqn:Hsd; [discriminate|].
  assert (Hno' : forall i, (1 <= i <= S k)%nat -> shutdown_requested i = false).
  { intros i Hi. destruct (Nat.eq_dec i (S k)) as [->|Hne]; [exact Hsd|]. apply Hno. lia. }
  destruct ((size_at (S k) =? L)%nat && (0 <? size_at (S k))%nat) eqn:Hc.
  - apply Bool.andb_true_iff in Hc as [Heq Hpos].
    apply Nat.eqb_eq in Heq. apply Nat.ltb_lt in Hpos.
    assert (Hinv' : forall i, (i <= S s)%nat -> size_at (S k - i) = L).
    { intros i Hi. destruct i as [|i]; [now rewrite Nat.sub_0_r|].
      cbn [Nat.sub]. apply Hinv. lia. }
    destruct (5 <=? S s)%nat eqn:H5.
    + intros _. apply Nat.leb_le in H5. assert (s = 4)%nat by lia. subst s.
      exists (k - 4)%nat.
      assert (E0 : size_at (k - 4) = L) by (apply (Hinv 4%nat); lia).
      split; [|split; [|split]].
      * intros i Hi. rewrite E0.
        replace (k - 4 + i)%nat with (S k - (5 - i))%nat by lia.
        apply Hinv'. lia.
      * rewrite E0, <- Heq. exact Hpos.
      * replace (k - 4 + 5)%nat with (S k) by lia. exact Ht.
      * intros i Hi. apply Hno'. lia.
    + apply Nat.leb_gt in H5. apply IH; [lia | lia | exact Hinv' | exact Hno'].
  - apply IH; [lia | lia | | exact Hno']. intros i Hi. replace i with 0%nat by lia.
    now rewrite Nat.sub_0_r.
Qed.

Lemma wait_loop_false (timeout : Z) :
  forall fuel k last_size stable_time,
    wait_loop size_at clock shutdown_requested fuel timeout k last_size stable_time
    = Some false ->
    exists j, (k <= j < k + fuel)%nat /\
              ((timeout <= clock (S j) - clock 0)%Z \/ shutdown_requested (S j) = true).
Proof.
  induction fuel as [|fuel IH]; intros k L s; cbn [wait_loop]; [discriminate|].
  destruct (clock (S k) - clock 0 <? timeout)%Z eqn:Ht.
  - destruct (shutdown_requested (S k)) eqn:Hsd.
    { intros _. exists k. split; [lia | now right]. }
    destruct ((size_at (S k) =? L)%nat && (0 <? size_at (S k))%nat).
    + destruct (5 <=? S s)%nat; [discriminate|].
      intros H. apply IH in H as (j & Hj & Hc). exists j. split; [lia | exact Hc].
    + intros H. apply IH in H as (j & Hj & Hc). exists j. split; [lia | exact Hc].
  - intros _. apply Z.ltb_ge in Ht. exists k. split; [lia | now left].
Qed.

Lemma wait_loop_returns (timeout : Z) :
  (forall k, (clock k + 1 <= clock (S k))%Z) ->
  forall fuel k last_size stable_time,
    (Z.max 0 (timeout - (clock k - clock 0)) < Z.of_nat fuel)%Z ->
    wait_loop size_at clock shutdown_requested fuel timeout k last_size stable_time <> None.
Proof.
  intros Hadv. induction fuel as [|fuel IH]; intros k L s Hf; cbn [wait_loop]; [lia|].
  destruct (clock (S k) - clock 0 <? timeout)%Z eqn:Ht; [|discriminate].
  apply Z.ltb_lt in Ht. specialize (Hadv k).
  assert (Hf' : (Z.max 0 (timeout - (clock (S k) - clock 0)) < Z.of_nat fuel)%Z) by lia.
  destruct (shutdown_requested (S k)); [discriminate|].
  destruct ((size_at (S k) =? L)%nat && (0 <? size_at (S k))%nat).
  - destruct (5 <=? S s)%nat; [discriminate | now apply IH].
  - now apply IH.
Qed.

(** A round that finds the shutdown flag set ends the wait. *)
Lemma wait_loop_shutdown (timeout : Z) (fuel k last_size stable_time : nat) :
  (clock (S k) - clock 0 < timeout)%Z -> shutdown_requested (S k) = true ->
  wait_loop size_at clock shutdown_requested (S fuel) timeout k last_size stable_time
  = Some false.
Proof.
  intros Ht Hs. cbn [wait_loop]. apply Z.ltb_lt in Ht. now rewrite Ht, Hs.
Qed.

(** X13.  [wait_for_stable_file] answers [True] only after six
    readings of the size in a row, one in each round, that are equal
    and not zero, the last of them taken before the timeout, and with
    no round that found a shutdown requested; it answers [False] only
    when a reading of the clock is not below the timeout or a round
    finds the shutdown flag set, and a shutdown that is requested when
    the first round begins makes it answer [False] at once.  With a
    clock that advances by a second or more from one reading to the
    next, it returns within [timeout + 1] rounds. *)
Theorem stable_means_six_equal_readings (fuel : nat) (timeout : Z) :
  (wait_for_stable_file size_at clock shutdown_requested fuel timeout = Some true ->
   exists j, (forall i, (i <= 5)%nat -> size_at (j + i) = size_at j) /\
             (0 < size_at j)%nat /\
             (clock (j + 5) - clock 0 < timeout)%Z /\
             (forall i, (1 <= i <= j + 5)%nat -> shutdown_requested i = false)) /\
  (wait_for_stable_file size_at clock shutdown_requested fuel timeout = Some false ->
   exists j, (j < fuel)%nat /\
             ((timeout <= clock (S j) - clock 0)%Z \/ shutdown_requested (S j) = true)) /\
  ((clock 1 - clock 0 < timeout)%Z -> shutdown_requested 1 = true ->
   wait_for_stable_file size_at clock shutdown_requested (S fuel) timeout = Some false) /\
  ((forall k, (clock k + 1 <= clock (S k))%Z) ->
   (Z.max 0 timeout < Z.of_nat fuel)%Z ->
   wait_for_stable_file size_at clock shutdown_requested fuel timeout <> None).
Proof.
  unfold wait_for_stable_file. split; [|split; [|split]].
  - apply wait_loop_true; [lia | lia | |].
    + intros i Hi. now replace i with 0%nat by lia.
    + intros i Hi. lia.
  - intros H. apply wait_loop_false in H as (j & Hj & Hc). exists j. split; [lia | exact Hc].
  - apply wait_loop_shutdown.
  - intros Hadv Hf. apply wait_loop_returns; [exact Hadv|]. lia.
Qed.
End WaitFacts.

(* ===================================================================== *)
(** * The receiver of step 2: listing and transferring *)
(* ===================================================================== *)

(** A name made of the prefix, any text and the suffix passes the
    glob [<prefix>*<suffix>]. *)
Lemma glob_prefix_suffix_matches (prefix mid suffix : string) :
  Receiver2.matches (Receiver2.glob_prefix_suffix prefix suffix)
                    (prefix +:+ mid +:+ suffix) = true.
Proof.
  unfold Receiver2.matches, Regex.re_match, Regex.match_at, Receiver2.glob_prefix_suffix.
  rewrite exec_cat, exec_bol. cbn [Nat.eqb]. rewrite exec_cat, exec_lit. cbv beta. rewrite exec_cat.
  edestruct (exec_star_any (R := nat * string * option string) mid suffix) as [y Hy];
    [| |rewrite Hy; destruct y as [[? ?] ?]; reflexivity].
  - rewrite !length_append. lia.
  - cbv beta. rewrite exec_cat, exec_lit_all. destruct (S _); reflexivity.
Qed.

Lemma join_split (sep : ascii) (s : string) :
  Py.join (String sep "") (Py.split sep s) = s.
Proof.
  induction s as [|c s IH]; [reflexivity|]. cbn [Py.split].
  destruct (Ascii.eqb_spec c sep) as [->|Hne].
  - destruct (Py.split sep s) as [|t ts] eqn:E.
    + destruct s; cbn in E; [discriminate|].
      destruct (Ascii.eqb _ _); [discriminate|]. destruct (Py.split sep s); discriminate.
    + change (Py.join (String sep "") ("" :: t :: ts))
        with ("" +:+ String sep "" +:+ Py.join (String sep "") (t :: ts)).
      rewrite IH. reflexivity.
  - destruct (Py.split sep s) as [|t ts] eqn:E.
    + destruct s; cbn in E; [discriminate|].
      destruct (Ascii.eqb _ _); [discriminate|]. destruct (Py.split sep s); discriminate.
    + destruct ts as [|t' ts'].
      * cbn [Py.join] in *. now rewrite IH.
      * change (Py.join (String sep "") (String c t :: t' :: ts'))
          with (String c (t +:+ String sep "" +:+ Py.join (String sep "") (t' :: ts'))).
        f_equal. exact IH.
Qed.

Section TransferFacts.
Import Receiver2.
Variable channel : string -> string.

Lemma cleanup_input_files_three (w : world) (d : string) :
  (exists w', cleanup_input_files w d = Some w' /\
              server_source w' = server_source w /\ local_dest w' = local_dest w /\
              signals w' = signals w) <->
  List.length (Py.split "-" d) = 3%nat.
Proof.
  unfold cleanup_input_files, find_input_file.
  destruct (Py.split "-" d) as [|y [|m [|dd [|x l]]]]; cbn [List.length]; split;
    try (intros (w' & [=] & _)); try discriminate; try reflexivity.
  intros _. eexists. split; [reflexivity|]. auto.
Qed.

Lemma finish_transfer_none (now : Z) (w : world) (name d : string) :
  List.length (Py.split "-" d) <> 3%nat -> finish_transfer now w name d = None.
Proof.
  intros H. unfold finish_transfer.
  destruct (cleanup_input_files w d) as [w'|] eqn:E; [|reflexivity].
  exfalso. apply H. unfold cleanup_input_files, find_input_file in E.
  destruct (Py.split "-" d) as [|y [|m [|dd [|x l]]]]; try discriminate. reflexivity.
Qed.

Lemma finish_transfer_some (now : Z) (w : world) (name d : string) :
  List.length (Py.split "-" d) = 3%nat ->
  exists w', finish_transfer now w name d = Some w' /\ local_dest w' = local_dest w.
Proof.
  intros H. apply cleanup_input_files_three with (w := w) in H as (w' & E & _ & L & _).
  unfold finish_transfer. rewrite E. eexists. split; [reflexivity|]. exact L.
Qed.

(** X15.  The outcome of [transfer_file].  A transfer that returns
    [False] has changed neither the source directory, nor the
    signals, nor the input files.  With a date of three fields the
    transfer returns [True] exactly when a file of the name is at the
    destination already or in the source directory; with any other
    date it returns [False].  At the destination only the file and
    its temporary name are ever written. *)
Theorem transfer_file_outcome (now : Z) (w : world) (name d : string) :
  let r := transfer_file channel now w name d in
  (snd r = false ->
   server_source (fst r) = server_source w /\ signals (fst r) = signals w /\
   input_metrics (fst r) = input_metrics w) /\
  (List.length (Py.split "-" d) = 3%nat ->
   snd r = exists_file (local_dest w) name || exists_file (server_source w) name) /\
  (List.length (Py.split "-" d) <> 3%nat -> snd r = false) /\
  (forall q, q <> name -> q <> "temp_" +:+ name ->
             local_dest (fst r) !! q = local_dest w !! q).
Proof.
  cbv zeta. unfold transfer_file.
  destruct (exists_file (local_dest w) name) eqn:Ed; cbn [orb].
  - destruct (Nat.eq_dec (List.length (Py.split "-" d)) 3) as [H3|H3].
    + destruct (finish_transfer_some now w name d H3) as (w' & -> & L).
      cbn [fst snd]. split; [discriminate|]. split; [reflexivity|].
      split; [congruence|]. intros q _ _. now rewrite L.
    + rewrite (finish_transfer_none now w name d H3). cbn [fst snd].
      split; [auto|]. split; [congruence|]. split; [reflexivity|]. reflexivity.
  - unfold exists_file at 1. destruct (server_source w !! name) as [src|] eqn:Es.
    + set (w1 := mkWorld _ _ _ _).
      assert (Hq : forall q, q <> name -> q <> "temp_" +:+ name ->
                             local_dest w1 !! q = local_dest w !! q).
      { intros q Hn Ht. subst w1. cbn [local_dest fs_run fold_left fs_step].
        rewrite lookup_insert_eq, lookup_insert_ne, lookup_delete_ne, lookup_insert_ne
          by congruence. reflexivity. }
      destruct (Nat.eq_dec (List.length (Py.split "-" d)) 3) as [H3|H3].
      * destruct (finish_transfer_some now w1 name d H3) as (w' & -> & L).
        cbn [fst snd]. split; [discriminate|]. split; [reflexivity|].
        split; [congruence|]. intros q Hn Ht. rewrite L. now apply Hq.
      * rewrite (finish_transfer_none now w1 name d H3). cbn [fst snd].
        cbn [server_source signals input_metrics local_dest].
        split; [subst w1; auto|]. split; [congruence|]. split; [reflexivity|].
        intros q Hn Ht. rewrite lookup_delete_ne by congruence. now apply Hq.
    + cbn [fst snd server_source signals input_metrics local_dest].
      split; [auto|]. split; [reflexivity|]. split; [reflexivity|].
      intros q Hn Ht. now rewrite lookup_delete_ne by congruence.
Qed.

Lemma in_names (dir : gmap string file) (n : string) (f : file) :
  dir !! n = Some f -> In n (names dir).
Proof.
  intros H. unfold names. apply in_map_iff. exists (n, f). split; [reflexivity|].
  apply list_elem_of_In. now apply elem_of_map_to_list.
Qed.

Lemma monthly_ne_daily (month dd x : string) :
  month +:+ ".complete" <> (month +:+ "-" +:+ dd) +:+ x.
Proof.
  rewrite append_assoc. intros E. apply app_inj_prefix in E. discriminate E.
Qed.

(** X16.  The signal of a month outlives the transfer of its files.
    [transfer_file] looks for the files of the month that remain in
    the source directory before it removes the file it has just
    transferred, so that file is always found: the [complete] signal
    of the month is as it was after the transfer, also when the file
    was the last one of the month. *)
Theorem monthly_signal_outlives_its_files
        (now : Z) (w : world) (d y m dd : string) (src : file) :
  Py.split "-" d = [y; m; dd] ->
  server_source w !! source_name d = Some src ->
  let r := transfer_file channel now w (source_name d) d in
  let month_signal := y +:+ "-" +:+ m +:+ ".complete" in
  snd r = true /\
  server_source (fst r) = delete (source_name d) (server_source w) /\
  signals (fst r) !! month_signal = signals w !! month_signal.
Proof.
  intros Hsplit Hs. cbv zeta.
  assert (Ed : d = (y +:+ "-" +:+ m) +:+ "-" +:+ dd).
  { rewrite <- (join_split "-" d), Hsplit. cbn [Py.join]. now rewrite !append_assoc. }
  assert (Em : month_of d = y +:+ "-" +:+ m).
  { unfold month_of. rewrite Hsplit. reflexivity. }
  assert (Hfin : forall w1,
             server_source w1 = server_source w -> signals w1 = signals w ->
             exists w', finish_transfer now w1 (source_name d) d = Some w' /\
                        server_source w' = delete (source_name d) (server_source w) /\
                        signals w' !! (y +:+ "-" +:+ m +:+ ".complete")
                        = signals w !! (y +:+ "-" +:+ m +:+ ".complete")).
  { intros w1 E1 E2. unfold finish_transfer, cleanup_input_files, find_input_file.
    rewrite Hsplit. cbn [server_source signals input_metrics local_dest].
    rewrite Em, E1, E2.
    assert (Hin : In (source_name d)
                     (filter (matches (glob_prefix_suffix
                                         ("perf_metrics_" +:+ (y +:+ "-" +:+ m) +:+ "-")
                                         ".parquet"))
                             (names (server_source w)))).
    { apply filter_In. split; [now apply in_names with (f := src)|].
      unfold source_name. rewrite Ed at 1.
      replace ("perf_metrics_" +:+ ((y +:+ "-" +:+ m) +:+ "-" +:+ dd) +:+ ".parquet")
        with (("perf_metrics_" +:+ (y +:+ "-" +:+ m) +:+ "-") +:+ dd +:+ ".parquet")
        by (now rewrite !append_assoc).
      apply glob_prefix_suffix_matches. }
    destruct (filter _ _) as [|n0 rest]; [destruct Hin|].
    eexists. split; [reflexivity|]. cbn [server_source signals].
    split; [reflexivity|].
    replace (y +:+ "-" +:+ m +:+ ".complete") with ((y +:+ "-" +:+ m) +:+ ".complete")
      by (now rewrite !append_assoc).
    rewrite lookup_delete_ne.
    - cbn [fs_step]. destruct (signals w !! (d +:+ ".transferred"));
        apply lookup_insert_ne; apply not_eq_sym; apply complete_ne_transferred.
    - rewrite Ed. apply not_eq_sym. apply monthly_ne_daily. }
  unfold transfer_file.
  destruct (exists_file (local_dest w) (source_name d)).
  - destruct (Hfin w eq_refl eq_refl) as (w' & -> & F1 & F2). cbn [fst snd]. auto.
  - rewrite Hs. set (w1 := mkWorld _ _ _ _).
    destruct (Hfin w1 eq_refl eq_refl) as (w' & -> & F1 & F2). cbn [fst snd]. auto.
Qed.

End TransferFacts.

Lemma monthly_signal_outlives_its_files_witness :
  (Py.split "-" "2016-11-30" = ["2016"; "11"; "30"] /\
   Receiver2.server_source Scenarios.last_file_of_month !! Receiver2.source_name "2016-11-30"
   = Some (mkFile "PAR1" 200)) /\
  let r := Receiver2.transfer_file (fun c => c) 300 Scenarios.last_file_of_month
                         (Receiver2.source_name "2016-11-30") "2016-11-30" in
  snd r = true /\
  Receiver2.server_source (fst r)
  = delete (Receiver2.source_name "2016-11-30") (Receiver2.server_source Scenarios.last_file_of_month) /\
  Receiver2.signals (fst r) !! "2016-11.complete"
  = Receiver2.signals Scenarios.last_file_of_month !! "2016-11.complete".
Proof.
  split; [split; reflexivity|].
  exact (monthly_signal_outlives_its_files (fun c => c) 300 Scenarios.last_file_of_month
           "2016-11-30" "2016" "11" "30" (mkFile "PAR1" 200) eq_refl eq_refl).
Defined.

Section ListingFacts.
Import Receiver2.

(** What holds of the files listed so far: each is in the source
    directory, and its day has no [.transferred] signal. *)
Lemma listed_shrinks (acc acc' : world * list (string * string)) :
  shrinks (fst acc) (fst acc') ->
  Forall (fun e => exists_file (server_source (fst acc)) (snd e) = true /\
                   signals (fst acc) !! (fst e +:+ ".transferred") = None) (snd acc) ->
  Forall (fun e => exists_file (server_source (fst acc')) (snd e) = true /\
                   signals (fst acc') !! (fst e +:+ ".transferred") = None) (snd acc).
Proof.
  intros (S1 & _ & _ & S4) H. eapply Forall_impl; [|exact H]. cbn beta.
  intros e [He Ht]. rewrite S1. split; [exact He|].
  destruct (S4 (fst e +:+ ".transferred")) as [E|[E _]]; [now rewrite E | exact E].
Qed.

Lemma check_transferred_go_on (w : world) (c : file) (d : string) :
  snd (check_transferred w c d) = true ->
  signals (fst (check_transferred w c d)) !! (d +:+ ".transferred") = None.
Proof.
  unfold check_transferred.
  destruct (signals w !! (d +:+ ".transferred")) as [t|] eqn:E; cbn [fst snd].
  - destruct (mtime t <? mtime c)%Z; cbn [fst snd]; [|discriminate].
    intros _. apply lookup_delete_eq.
  - auto.
Qed.

Lemma visit_month_file_listed (c : file) acc (n : string) :
  exists_file (server_source (fst acc)) n = true ->
  Forall (fun e => exists_file (server_source (fst acc)) (snd e) = true /\
                   signals (fst acc) !! (fst e +:+ ".transferred") = None) (snd acc) ->
  let acc' := visit_month_file c acc n in
  Forall (fun e => exists_file (server_source (fst acc')) (snd e) = true /\
                   signals (fst acc') !! (fst e +:+ ".transferred") = None) (snd acc').
Proof.
  intros Hn H. cbv zeta.
  pose proof (visit_month_file_grows c acc n) as [G _].
  pose proof (listed_shrinks acc _ G H) as H'.
  unfold visit_month_file in *.
  destruct (search_group1 output_file_re n) as [d|]; [|exact H].
  pose proof (check_transferred_go_on (fst acc) c d) as Hgo.
  pose proof (check_transferred_shrinks (fst acc) c d) as (S1 & _).
  destruct (check_transferred (fst acc) c d) as [w1 go_on]. cbn [fst snd] in *.
  destruct go_on; cbn [fst snd] in *; [|exact H'].
  apply Forall_app. split; [exact H'|]. constructor; [|constructor]. cbn [fst snd].
  split; [now rewrite S1 | now apply Hgo].
Qed.

Lemma names_exist (dir : gmap string file) (n : string) :
  In n (names dir) -> exists_file dir n = true.
Proof.
  unfold names, exists_file. intros H. apply in_map_iff in H as ([n' f] & <- & H).
  apply list_elem_of_In, elem_of_map_to_list in H. cbn [fst]. now rewrite H.
Qed.

Lemma visit_signal_listed acc (n : string) :
  Forall (fun e => exists_file (server_source (fst acc)) (snd e) = true /\
                   signals (fst acc) !! (fst e +:+ ".transferred") = None) (snd acc) ->
  let acc' := visit_signal acc n in
  Forall (fun e => exists_file (server_source (fst acc')) (snd e) = true /\
                   signals (fst acc') !! (fst e +:+ ".transferred") = None) (snd acc').
Proof.
  intros H. cbv zeta.
  pose proof (visit_signal_grows acc n) as [G _].
  pose proof (listed_shrinks acc _ G H) as H'.
  unfold visit_signal in *.
  destruct (signals (fst acc) !! n) as [c|]; [|exact H].
  destruct (match_group1 daily_pattern n) as [d|].
  - pose proof (check_transferred_go_on (fst acc) c d) as Hgo.
    destruct (check_transferred (fst acc) c d) as [w1 go_on]. cbn [fst snd] in *.
    destruct go_on; cbn [fst snd] in *; [|exact H'].
    destruct (exists_file (server_source w1) (source_name d)) eqn:Ex;
      cbn [fst snd] in *; [|exact H'].
    apply Forall_app. split; [exact H'|]. constructor; [|constructor]. cbn [fst snd].
    split; [exact Ex | now apply Hgo].
  - destruct (match_group1 monthly_pattern n) as [m|]; [|exact H].
    destruct (exists_file (signals (fst acc)) (m +:+ ".transferred")); [exact H|].
    clear G H'.
    assert (Hfiles : Forall (fun f => exists_file (server_source (fst acc)) f = true)
                       (filter (matches (glob_prefix_suffix
                                           ("perf_metrics_" +:+ m +:+ "-") ".parquet"))
                               (names (server_source (fst acc))))).
    { apply Forall_forall. intros f Hf. apply filter_In in Hf as [Hf _].
      now apply names_exist. }
    revert Hfiles. generalize (filter (matches (glob_prefix_suffix
                                           ("perf_metrics_" +:+ m +:+ "-") ".parquet"))
                               (names (server_source (fst acc)))) as files.
    intros files. generalize (eq_refl (server_source (fst acc))).
    generalize (server_source (fst acc)) at 2 3 as src0.
    revert acc H. induction files as [|f files IH]; intros acc H src0 Esrc Hfiles;
      cbn [fold_left]; [exact H|].
    inversion Hfiles as [|? ? Hf Hrest]; subst.
    apply (IH (visit_month_file c acc f)) with (src0 := server_source (fst acc)).
    + apply visit_month_file_listed; assumption.
    + pose proof (visit_month_file_grows c acc f) as [(S1 & _) _]. exact S1.
    + exact Hrest.
Qed.

Lemma fold_visit_listed (l : list string) :
  forall acc,
    Forall (fun e => exists_file (server_source (fst acc)) (snd e) = true /\
                     signals (fst acc) !! (fst e +:+ ".transferred") = None) (snd acc) ->
    let acc' := fold_left visit_signal l acc in
    Forall (fun e => exists_file (server_source (fst acc')) (snd e) = true /\
                     signals (fst acc') !! (fst e +:+ ".transferred") = None) (snd acc').
Proof.
  induction l as [|n l IH]; intros acc Hacc; cbn [fold_left]; [exact Hacc|].
  apply IH. now apply visit_signal_listed.
Qed.

(** X14.  [find_completed_files] changes nothing but the signal
    directory, where it removes [.transferred] signals only; every
    file it lists is in the source directory, and the day it is
    listed for has no [.transferred] signal when the function
    returns. *)
Theorem find_completed_files_lists_what_is_there (w : world) :
  let r := find_completed_files w in
  shrinks w (fst r) /\
  Forall (fun e => exists_file (server_source w) (snd e) = true /\
                   signals (fst r) !! (fst e +:+ ".transferred") = None) (snd r).
Proof.
  cbv zeta. unfold find_completed_files.
  set (l := filter (matches (glob_suffix ".complete")) (names (signals w))).
  pose proof (fold_grows visit_signal visit_signal_grows l (w, [])) as [G _].
  cbn [fst] in G. split; [exact G|].
  pose proof (fold_visit_listed l (w, []) (Forall_nil _)) as H. cbv zeta in H.
  destruct G as (S1 & _). rewrite S1 in H. exact H.
Qed.

Lemma visit_stale_signal_drops acc d c :
  is_daily_key d = true ->
  signals (fst acc) !! (d +:+ ".complete") = Some c ->
  (forall t, signals (fst acc) !! (d +:+ ".transferred") = Some t -> (mtime t < mtime c)%Z) ->
  signals (fst (visit_signal acc (d +:+ ".complete"))) !! (d +:+ ".transferred") = None.
Proof.
  intros Hd Hc Ht. unfold visit_signal. rewrite Hc.
  unfold is_daily_key in Hd. apply andb_prop in Hd as [Hd _].
  destruct (match_group1 daily_pattern (d +:+ ".complete")) as [g|]; [|discriminate].
  apply String.eqb_eq in Hd. subst g.
  unfold check_transferred.
  destruct (signals (fst acc) !! (d +:+ ".transferred")) as [t|] eqn:E.
  - specialize (Ht t eq_refl). apply Z.ltb_lt in Ht. rewrite Ht.
    cbn [server_source with_signals].
    destruct (exists_file _ _); cbn [fst snd signals with_signals]; apply lookup_delete_eq.
  - destruct (exists_file _ _); cbn [fst snd]; exact E.
Qed.

(** X17.  A day whose [complete] signal is newer than its
    [transferred] signal and whose output file is not in the source
    directory: [find_completed_files] removes the [transferred] signal
    before it looks for the file, so the day loses the record of its
    transfer, keeps its [complete] signal and is not listed. *)
Theorem stale_signal_is_dropped_without_its_file (w : world) (d : string) (c t : file) :
  is_daily_key d = true ->
  signals w !! (d +:+ ".complete") = Some c ->
  signals w !! (d +:+ ".transferred") = Some t ->
  (mtime t < mtime c)%Z ->
  server_source w !! source_name d = None ->
  let r := find_completed_files w in
  signals (fst r) !! (d +:+ ".transferred") = None /\
  signals (fst r) !! (d +:+ ".complete") = Some c /\
  Forall (fun e => snd e <> source_name d) (snd r).
Proof.
  intros Hd Hc Ht Hlt Hs.
  assert (GL : shrinks w (fst (find_completed_files w)) /\
               Forall (fun e => exists_file (server_source w) (snd e) = true)
                      (snd (find_completed_files w))).
  { unfold find_completed_files.
    set (l := filter (matches (glob_suffix ".complete")) (names (signals w))).
    pose proof (fold_grows visit_signal visit_signal_grows l (w, [])) as [G _].
    cbn [fst] in G. split; [exact G|].
    pose proof (fold_visit_listed l (w, []) (Forall_nil _)) as H. cbv zeta in H.
    destruct G as (S1 & _). rewrite S1 in H.
    eapply Forall_impl; [|exact H]. cbn beta. tauto. }
  destruct GL as [G L].
  cbv zeta. split; [|split].
  - unfold find_completed_files.
    set (L0 := filter _ _).
    assert (HL : In (d +:+ ".complete") L0).
    { subst L0. apply filter_In. split; [|apply glob_complete_matches].
      now apply in_names with (f := c). }
    apply in_split in HL as (L1 & L2 & ->).
    rewrite fold_left_app. cbn [fold_left].
    pose proof (fold_grows visit_signal visit_signal_grows L1 (w, [])) as G1.
    set (acc1 := fold_left visit_signal L1 (w, [])) in *.
    destruct G1 as [(S1 & S2 & S3 & S4) _]. cbn [fst] in *.
    assert (Hc1 : signals (fst acc1) !! (d +:+ ".complete") = Some c).
    { destruct (S4 (d +:+ ".complete")) as [E|[_ [x E]]]; [now rewrite E|].
      now apply complete_ne_transferred in E. }
    assert (Ht1 : forall t', signals (fst acc1) !! (d +:+ ".transferred") = Some t' ->
                             (mtime t' < mtime c)%Z).
    { intros t' E. destruct (S4 (d +:+ ".transferred")) as [E'|[E' _]]; [|congruence].
      rewrite E', Ht in E. now injection E as <-. }
    pose proof (visit_stale_signal_drops acc1 d c Hd Hc1 Ht1) as V.
    pose proof (fold_grows visit_signal visit_signal_grows L2
                  (visit_signal acc1 (d +:+ ".complete"))) as [(_ & _ & _ & U4) _].
    destruct (U4 (d +:+ ".transferred")) as [E|[E _]]; [now rewrite E | exact E].
  - destruct G as (_ & _ & _ & S4).
    destruct (S4 (d +:+ ".complete")) as [E|[_ [x E]]]; [now rewrite E|].
    now apply complete_ne_transferred in E.
  - eapply Forall_impl; [|exact L]. cbn beta. intros e He E. rewrite E in He.
    unfold exists_file in He. rewrite Hs in He. discriminate.
Qed.
End ListingFacts.

Lemma stale_signal_is_dropped_without_its_file_witness :
  (Receiver2.is_daily_key "2016-11-03" = true /\
   Receiver2.signals Scenarios.stale_without_file !! "2016-11-03.complete"
   = Some (mkFile "done" 200) /\
   Receiver2.signals Scenarios.stale_without_file !! "2016-11-03.transferred"
   = Some (mkFile "" 100) /\
   (100 < 200)%Z /\
   Receiver2.server_source Scenarios.stale_without_file
     !! Receiver2.source_name "2016-11-03" = None) /\
  let r := Receiver2.find_completed_files Scenarios.stale_without_file in
  Receiver2.signals (fst r) !! "2016-11-03.transferred" = None /\
  Receiver2.signals (fst r) !! "2016-11-03.complete" = Some (mkFile "done" 200) /\
  Forall (fun e => snd e <> Receiver2.source_name "2016-11-03") (snd r).
Proof.
  assert (H1 : Receiver2.is_daily_key "2016-11-03" = true) by (vm_compute; reflexivity).
  assert (H2 : Receiver2.signals Scenarios.stale_without_file !! "2016-11-03.complete"
               = Some (mkFile "done" 200)) by (vm_compute; reflexivity).
  assert (H3 : Receiver2.signals Scenarios.stale_without_file !! "2016-11-03.transferred"
               = Some (mkFile "" 100)) by (vm_compute; reflexivity).
  assert (H4 : (100 < 200)%Z) by lia.
  assert (H5 : Receiver2.server_source Scenarios.stale_without_file
                 !! Receiver2.source_name "2016-11-03" = None) by (vm_compute; reflexivity).
  split; [auto|].
  exact (stale_signal_is_dropped_without_its_file Scenarios.stale_without_file
           "2016-11-03" (mkFile "done" 200) (mkFile "" 100) H1 H2 H3 H4 H5).
Defined.

(* ===================================================================== *)
(** * The fetcher: what a download leaves on disk *)
(* ===================================================================== *)

Section DownloadFacts.
Import Fetcher.
Variable respond : string -> nat -> response.

Lemma delivers_body (r : response) :
  delivers r = true <-> exists chunks, r = Body chunks true /\ written chunks <> "".
Proof.
  unfold delivers. destruct r as [|chunks [|]]; split;
    try discriminate; try (intros (c & [=] & _); fail).
  - intros H. exists chunks. split; [reflexivity|]. intros E. rewrite E in H. discriminate.
  - intros (c & [= <-] & H). destruct (written chunks); [congruence | reflexivity].
Qed.

(** The loop stops at the first attempt that delivers and keeps what
    that attempt wrote; when none delivers, the file is what the last
    attempt left. *)
Lemma download_loop_trace now url p remaining :
  forall attempt fs,
    let r := download_loop respond now fs url p attempt remaining in
    (snd r = true ->
     exists i chunks,
       (attempt <= i < attempt + remaining)%nat /\
       respond url i = Body chunks true /\ written chunks <> "" /\
       (forall j, (attempt <= j < i)%nat -> delivers (respond url j) = false) /\
       fst r !! p = Some (mkFile (written chunks) now)) /\
    (snd r = false ->
     (forall j, (attempt <= j < attempt + remaining)%nat -> delivers (respond url j) = false) /\
     (forall chunks complete,
         (0 < remaining)%nat ->
         respond url (attempt + remaining - 1) = Body chunks complete ->
         fst r !! p = Some (mkFile (written chunks) now)) /\
     ((forall j, (attempt <= j < attempt + remaining)%nat -> respond url j = HttpError) ->
      fst r = fs)).
Proof.
  induction remaining as [|n IH]; intros attempt fs; cbn [download_loop].
  - cbn [fst snd]. split; [discriminate|]. intros _.
    split; [intros j Hj; lia|]. split; [intros; lia | reflexivity].
  - rewrite attempt_once_spec.
    destruct (delivers (respond url attempt)) eqn:Hd.
    + cbn [fst snd]. split; [|discriminate]. intros _.
      apply delivers_body in Hd as (chunks & E & Hne).
      exists attempt, chunks. split; [lia|]. split; [exact E|]. split; [exact Hne|].
      split; [intros j Hj; lia|]. rewrite E. cbn [after_attempt]. apply lookup_insert_eq.
    + specialize (IH (S attempt) (after_attempt now fs p (respond url attempt))).
      cbv zeta in IH. destruct IH as [IH1 IH2]. split.
      * intros H. destruct (IH1 H) as (i & chunks & Hi & E & Hne & Hbefore & Hfile).
        exists i, chunks. split; [lia|]. split; [exact E|]. split; [exact Hne|].
        split; [|exact Hfile]. intros j Hj.
        destruct (Nat.eq_dec j attempt) as [->|Hja]; [exact Hd | apply Hbefore; lia].
      * intros H. destruct (IH2 H) as (Hnone & Hlast & Herr). split; [|split].
        -- intros j Hj. destruct (Nat.eq_dec j attempt) as [->|Hja];
             [exact Hd | apply Hnone; lia].
        -- intros chunks complete _ E. destruct n as [|n].
           ++ replace (attempt + 1 - 1)%nat with attempt in E by lia.
              cbn [download_loop fst]. rewrite E. cbn [after_attempt].
              apply lookup_insert_eq.
           ++ apply (Hlast chunks complete); [lia|].
              replace (S attempt + S n - 1)%nat with (attempt + S (S n) - 1)%nat by lia.
              exact E.
        -- intros Hall. rewrite Herr.
           ++ rewrite (Hall attempt) by lia. reflexivity.
           ++ intros j Hj. apply Hall. lia.
Qed.

(** X18.  What [download_file] leaves on disk, for any number of
    retries.  A download that returns [True] has stopped at the first
    attempt whose stream ended well with at least one byte, and the
    file holds the bytes of that attempt.  A download that returns
    [False] had no such attempt; the file then holds what the last
    attempt wrote, a partial or an empty body included, and when no
    attempt got an answer no file has changed.  With no retry allowed
    nothing is requested, and a success is not undone by allowing one
    more attempt. *)
Theorem download_file_keeps_the_first_delivery
        (max_retries : nat) (now : Z) (fs : gmap string file) (url p : string) :
  let r := download_file respond max_retries now fs url p in
  (snd r = true ->
   exists i chunks,
     (i < max_retries)%nat /\
     respond url i = Body chunks true /\ written chunks <> "" /\
     (forall j, (j < i)%nat -> delivers (respond url j) = false) /\
     fst r !! p = Some (mkFile (written chunks) now)) /\
  (snd r = false ->
   (forall j, (j < max_retries)%nat -> delivers (respond url j) = false) /\
   (forall chunks complete,
       (0 < max_retries)%nat ->
       respond url (max_retries - 1) = Body chunks complete ->
       fst r !! p = Some (mkFile (written chunks) now)) /\
   ((forall j, (j < max_retries)%nat -> respond url j = HttpError) -> fst r = fs)) /\
  download_file respond 0 now fs url p = (fs, false) /\
  (snd r = true -> download_file respond (S max_retries) now fs url p = r).
Proof.
  cbv zeta. unfold download_file.
  pose proof (download_loop_trace now url p max_retries 0 fs) as [T F]. cbv zeta in T, F.
  split.
  { intros H. destruct (T H) as (i & chunks & Hi & E & Hne & Hb & Hf).
    exists i, chunks. split; [lia|]. split; [exact E|]. split; [exact Hne|].
    split; [|exact Hf]. intros j Hj. apply Hb. lia. }
  split.
  { intros H. destruct (F H) as (Hn & Hl & He). split; [|split].
    - intros j Hj. apply Hn. lia.
    - intros chunks complete Hpos E. apply (Hl chunks complete Hpos). exact E.
    - intros Hall. apply He. intros j Hj. apply Hall. lia. }
  split; [reflexivity|].
  clear T F. generalize 0%nat as attempt. revert fs.
  induction max_retries as [|n IH]; intros fs attempt; [discriminate|].
  cbn [download_loop]. destruct (attempt_once respond now fs url p attempt) as [fs1 ok].
  destruct ok; [reflexivity|]. intros H. rewrite <- (IH fs1 (S attempt) H). reflexivity.
Qed.
End DownloadFacts.

(* ===================================================================== *)
(** * Dated names *)
(* ===================================================================== *)

Section RegexSteps.
Import Regex.
Context {R : Type}.
Implicit Types (k : @cont R) (a b : regex).

Lemma exec_eps fuel pos s cap k : exec fuel Eps pos s cap k = k pos s cap.
Proof. destruct fuel; reflexivity. Qed.

Lemma exec_eol fuel pos s cap k :
  exec fuel Eol pos s cap k = match s with EmptyString => k pos s cap | _ => None end.
Proof. destruct fuel; reflexivity. Qed.

Lemma exec_alt fuel a b pos s cap k :
  exec fuel (Alt a b) pos s cap k
  = match exec fuel a pos s cap k with
    | Some x => Some x
    | None => exec fuel b pos s cap k
    end.
Proof. destruct fuel; reflexivity. Qed.

Lemma exec_group fuel a pos s cap k :
  exec fuel (Group a) pos s cap k
  = exec fuel a pos s cap
         (fun pos' s' _ => k pos' s' (Some (substring 0 (pos' - pos) s))).
Proof. destruct fuel; reflexivity. Qed.

(** A pattern that begins with a character class. *)
Lemma exec_chr_some fuel p pos s cap k y :
  exec fuel (Chr p) pos s cap k = Some y ->
  exists c s', s = String c s' /\ p c = true /\ k (S pos) s' cap = Some y.
Proof.
  rewrite exec_chr. destruct s as [|c s']; [discriminate|].
  destruct (p c) eqn:E; [|discriminate]. eauto.
Qed.

(** [.*] stops somewhere. *)
Lemma exec_star_any_some :
  forall fuel pos s cap k y,
    exec fuel (Star Receiver2.any_char) pos s cap k = Some y ->
    exists s1 s2, s = s1 +:+ s2 /\ k (pos + String.length s1)%nat s2 cap = Some y.
Proof.
  induction fuel as [|f IH]; intros pos s cap k y H.
  - rewrite exec_star_O in H. exists "", s. rewrite Nat.add_0_r. auto.
  - rewrite exec_star_S in H. unfold Receiver2.any_char at 1 in H. rewrite exec_chr in H.
    destruct s as [|c s'].
    + exists "", "". rewrite Nat.add_0_r. auto.
    + replace (pos <? S pos)%nat with true in H by (symmetry; apply Nat.ltb_lt; lia).
      fold Receiver2.any_char in H.
      destruct (exec f (Star Receiver2.any_char) (S pos) s' cap k) as [x|] eqn:E.
      * injection H as <-. apply IH in E as (s1 & s2 & -> & Hk).
        exists (String c s1), s2. split; [reflexivity|].
        cbn [String.length]. rewrite <- Hk. f_equal. lia.
      * exists "", (String c s'). rewrite Nat.add_0_r. auto.
Qed.

Lemma exec_lit_some (p : string) :
  forall fuel pos s cap k y,
    exec fuel (Lit p) pos s cap k = Some y ->
    exists rest, s = p +:+ rest /\ k (pos + String.length p)%nat rest cap = Some y.
Proof.
  induction p as [|c p IH]; intros fuel pos s cap k y H.
  - cbn [Lit] in H. rewrite exec_eps in H. exists s. rewrite Nat.add_0_r. auto.
  - cbn [Lit] in H. rewrite exec_cat in H.
    apply exec_chr_some in H as (c' & s' & -> & Ec & H). apply Ascii.eqb_eq in Ec. subst c'.
    apply IH in H as (rest & -> & Hk). exists rest. split; [reflexivity|].
    cbn [String.length]. rewrite <- Hk. f_equal. lia.
Qed.
End RegexSteps.

(** A name passes the glob [*<suffix>] exactly when it ends with the
    suffix. *)
Lemma glob_suffix_spec (suffix name : string) :
  Receiver2.matches (Receiver2.glob_suffix suffix) name = true <->
  exists d, name = d +:+ suffix.
Proof.
  split.
  - unfold Receiver2.matches, Regex.re_match, Regex.match_at, Receiver2.glob_suffix.
    destruct (Regex.exec _ _ _ _ _ _) as [y|] eqn:H; [intros _|discriminate].
    rewrite exec_cat, exec_bol in H. cbn [Nat.eqb] in H. rewrite exec_cat in H.
    apply exec_star_any_some in H as (s1 & s2 & -> & H). cbv beta in H.
    rewrite exec_cat in H. apply exec_lit_some in H as (rest & -> & H). cbv beta in H.
    rewrite exec_eol in H. destruct rest; [|discriminate].
    exists s1. now rewrite append_empty.
  - intros [d ->].
    unfold Receiver2.matches, Regex.re_match, Regex.match_at, Receiver2.glob_suffix.
    rewrite exec_cat, exec_bol. cbn [Nat.eqb]. rewrite exec_cat.
    edestruct (exec_star_any (R := nat * string * option string) d suffix) as [y Hy];
      [| |rewrite Hy; destruct y as [[? ?] ?]; reflexivity].
    + rewrite length_append. lia.
    + cbv beta. rewrite exec_cat.
      rewrite exec_lit_all. rewrite exec_eol. reflexivity.
Qed.

Section TimesFacts.
Import Regex.
Context {R : Type}.
Implicit Types (k : @cont R).

(** [n] characters of a class. *)
Lemma exec_times_some (p : ascii -> bool) :
  forall n fuel pos s cap k y,
    exec fuel (Times n (Chr p)) pos s cap k = Some y ->
    exists a rest, s = a +:+ rest /\ String.length a = n /\
                   forallb p (list_ascii_of_string a) = true /\
                   k (pos + n)%nat rest cap = Some y.
Proof.
  induction n as [|n IH]; intros fuel pos s cap k y H; cbn [Times] in H.
  - rewrite exec_eps in H. exists "", s. rewrite Nat.add_0_r. auto.
  - rewrite exec_cat in H. apply exec_chr_some in H as (c & s' & -> & Hc & H).
    apply IH in H as (a & rest & -> & Hlen & Hall & Hk).
    exists (String c a), rest. split; [reflexivity|].
    cbn [String.length list_ascii_of_string forallb]. rewrite Hc, Hall, Hlen.
    split; [reflexivity|]. split; [reflexivity|]. rewrite <- Hk. f_equal. lia.
Qed.

Lemma exec_times (p : ascii -> bool) :
  forall n fuel pos a rest cap k,
    String.length a = n -> forallb p (list_ascii_of_string a) = true ->
    exec fuel (Times n (Chr p)) pos (a +:+ rest) cap k = k (pos + n)%nat rest cap.
Proof.
  induction n as [|n IH]; intros fuel pos a rest cap k Hlen Hall; cbn [Times].
  - destruct a; [|discriminate]. rewrite exec_eps, Nat.add_0_r. reflexivity.
  - destruct a as [|c a]; [discriminate|].
    cbn [String.length list_ascii_of_string forallb] in Hlen, Hall.
    apply andb_prop in Hall as [Hc Hall]. injection Hlen as Hlen.
    change (String c a +:+ rest) with (String c (a +:+ rest)).
    rewrite exec_cat, exec_chr, Hc, IH by assumption. f_equal. lia.
Qed.

Lemma exec_py_eol_some fuel pos s cap k y :
  exec fuel Dated.py_eol pos s cap k = Some y -> s = "" \/ s = String "010" "".
Proof.
  unfold Dated.py_eol, Opt. rewrite exec_cat, exec_alt, exec_chr.
  destruct s as [|c s]; [auto|].
  destruct (Ascii.eqb_spec "010"%char c) as [<-|Hne].
  - rewrite exec_eol, exec_eps, exec_eol. destruct s; [auto | discriminate].
  - rewrite exec_eps, exec_eol. discriminate.
Qed.

Lemma exec_py_eol_end fuel pos cap k :
  exec fuel Dated.py_eol pos "" cap k = k pos "" cap.
Proof.
  unfold Dated.py_eol, Opt. rewrite exec_cat, exec_alt, exec_chr, exec_eps, exec_eol.
  reflexivity.
Qed.
End TimesFacts.

Section DatedFacts.
Import Regex Dated.

Lemma matches_some (r : regex) (s : string) :
  Receiver2.matches r s = true <-> exists y, match_at r 0 s = Some y.
Proof.
  unfold Receiver2.matches, re_match. destruct (match_at r 0 s) as [[[p t] c]|]; split;
    try discriminate; eauto. intros [y [=]].
Qed.

Lemma digits_spec (n : nat) (s : string) :
  digits n s = true <->
  String.length s = n /\ forallb is_digit (list_ascii_of_string s) = true.
Proof. unfold digits. now rewrite Bool.andb_true_iff, Nat.eqb_eq. Qed.

(** The names the monthly pattern accepts. *)
Lemma monthly_re_spec (s : string) :
  Receiver2.matches monthly_re s = true <->
  exists y m, digits 4 y = true /\ digits 2 m = true /\
              (s = y +:+ "-" +:+ m \/ s = y +:+ "-" +:+ m +:+ String "010" "").
Proof.
  rewrite matches_some. unfold match_at, monthly_re. split.
  - intros [r H]. rewrite exec_cat, exec_bol in H. cbn [Nat.eqb] in H.
    rewrite exec_cat in H. apply exec_times_some in H as (y & s1 & -> & Hy1 & Hy2 & H).
    cbv beta in H. rewrite exec_cat in H. apply exec_lit_some in H as (s2 & -> & H).
    cbv beta in H. rewrite exec_cat in H.
    apply exec_times_some in H as (m & s3 & -> & Hm1 & Hm2 & H).
    cbv beta in H. apply exec_py_eol_some in H.
    exists y, m. rewrite !digits_spec. split; [auto|]. split; [auto|].
    destruct H as [->| ->]; [left | right]; rewrite ?append_empty; reflexivity.
  - intros (y & m & Hy & Hm & Hs). apply digits_spec in Hy as [Hy1 Hy2], Hm as [Hm1 Hm2].
    rewrite exec_cat, exec_bol. cbn [Nat.eqb]. rewrite exec_cat.
    destruct Hs as [-> | ->].
    + rewrite (exec_times is_digit 4 _ _ y) by assumption. cbv beta.
      rewrite exec_cat, exec_lit. cbv beta. rewrite exec_cat.
      rewrite <- (append_empty m).
      rewrite (exec_times is_digit 2 _ _ m) by assumption. cbv beta.
      rewrite exec_py_eol_end. eauto.
    + rewrite (exec_times is_digit 4 _ _ y) by assumption. cbv beta.
      rewrite exec_cat, exec_lit. cbv beta. rewrite exec_cat.
      rewrite (exec_times is_digit 2 _ _ m) by assumption. cbv beta.
      unfold py_eol, Opt. rewrite exec_cat, exec_alt, exec_chr.
      cbn [Ascii.eqb Bool.eqb]. rewrite exec_eol. eauto.
Qed.

(** The names the daily pattern accepts. *)
Lemma daily_re_spec (s : string) :
  Receiver2.matches daily_re s = true <->
  exists y m d, digits 4 y = true /\ digits 2 m = true /\ digits 2 d = true /\
                (s = y +:+ "-" +:+ m +:+ "-" +:+ d \/
                 s = y +:+ "-" +:+ m +:+ "-" +:+ d +:+ String "010" "").
Proof.
  rewrite matches_some. unfold match_at, daily_re. split.
  - intros [r H]. rewrite exec_cat, exec_bol in H. cbn [Nat.eqb] in H.
    rewrite exec_cat in H. apply exec_times_some in H as (y & s1 & -> & Hy1 & Hy2 & H).
    cbv beta in H. rewrite exec_cat in H. apply exec_lit_some in H as (s2 & -> & H).
    cbv beta in H. rewrite exec_cat in H.
    apply exec_times_some in H as (m & s3 & -> & Hm1 & Hm2 & H).
    cbv beta in H. rewrite exec_cat in H. apply exec_lit_some in H as (s4 & -> & H).
    cbv beta in H. rewrite exec_cat in H.
    apply exec_times_some in H as (d & s5 & -> & Hd1 & Hd2 & H).
    cbv beta in H. apply exec_py_eol_some in H.
    exists y, m, d. rewrite !digits_spec. split; [auto|]. split; [auto|]. split; [auto|].
    destruct H as [->| ->]; [left | right]; rewrite ?append_empty; reflexivity.
  - intros (y & m & d & Hy & Hm & Hd & Hs).
    apply digits_spec in Hy as [Hy1 Hy2], Hm as [Hm1 Hm2], Hd as [Hd1 Hd2].
    rewrite exec_cat, exec_bol. cbn [Nat.eqb]. rewrite exec_cat.
    destruct Hs as [-> | ->].
    + rewrite (exec_times is_digit 4 _ _ y) by assumption. cbv beta.
      rewrite exec_cat, exec_lit. cbv beta. rewrite exec_cat.
      rewrite (exec_times is_digit 2 _ _ m) by assumption. cbv beta.
      rewrite exec_cat, exec_lit. cbv beta. rewrite exec_cat.
      rewrite <- (append_empty d).
      rewrite (exec_times is_digit 2 _ _ d) by assumption. cbv beta.
      rewrite exec_py_eol_end. eauto.
    + rewrite (exec_times is_digit 4 _ _ y) by assumption. cbv beta.
      rewrite exec_cat, exec_lit. cbv beta. rewrite exec_cat.
      rewrite (exec_times is_digit 2 _ _ m) by assumption. cbv beta.
      rewrite exec_cat, exec_lit. cbv beta. rewrite exec_cat.
      rewrite (exec_times is_digit 2 _ _ d) by assumption. cbv beta.
      unfold py_eol, Opt. rewrite exec_cat, exec_alt, exec_chr.
      cbn [Ascii.eqb Bool.eqb]. rewrite exec_eol. eauto.
Qed.

(** The links the folder pattern accepts. *)
Lemma monthly_folder_re_spec (s : string) :
  _is_monthly_folder s = true <->
  exists y m, digits 4 y = true /\ digits 2 m = true /\
              In s [y +:+ "-" +:+ m; y +:+ "-" +:+ m +:+ "/";
                    y +:+ "-" +:+ m +:+ String "010" "";
                    y +:+ "-" +:+ m +:+ "/" +:+ String "010" ""].
Proof.
  unfold _is_monthly_folder. rewrite matches_some. unfold match_at, monthly_folder_re. split.
  - intros [r H]. rewrite exec_cat, exec_bol in H. cbn [Nat.eqb] in H.
    rewrite exec_cat in H. apply exec_times_some in H as (y & s1 & -> & Hy1 & Hy2 & H).
    cbv beta in H. rewrite exec_cat in H. apply exec_lit_some in H as (s2 & -> & H).
    cbv beta in H. rewrite exec_cat in H.
    apply exec_times_some in H as (m & s3 & -> & Hm1 & Hm2 & H).
    cbv beta in H. rewrite exec_cat in H. unfold Opt in H. rewrite exec_alt in H.
    exists y, m. rewrite !digits_spec. split; [auto|]. split; [auto|].
    destruct (exec _ (Lit "/") _ s3 _ _) as [x|] eqn:E.
    + apply exec_lit_some in E as (s4 & -> & E). cbv beta in E.
      apply exec_py_eol_some in E. cbn [In].
      destruct E as [->| ->]; [right; left | right; right; right; left]; reflexivity.
    + rewrite exec_eps in H. apply exec_py_eol_some in H. cbn [In].
      destruct H as [->| ->]; [left | right; right; left]; rewrite ?append_empty; reflexivity.
  - intros (y & m & Hy & Hm & Hs). apply digits_spec in Hy as [Hy1 Hy2], Hm as [Hm1 Hm2].
    rewrite exec_cat, exec_bol. cbn [Nat.eqb]. rewrite exec_cat.
    cbn [In] in Hs. destruct Hs as [<-|[<-|[<-|[<-|[]]]]].
    + rewrite (exec_times is_digit 4 _ _ y) by assumption. cbv beta.
      rewrite exec_cat, exec_lit. cbv beta. rewrite exec_cat.
      rewrite <- (append_empty m).
      rewrite (exec_times is_digit 2 _ _ m) by assumption. cbv beta.
      rewrite exec_cat. unfold Opt. rewrite exec_alt.
      cbn [Lit]. rewrite exec_cat, exec_chr, exec_eps, exec_py_eol_end. eauto.
    + rewrite (exec_times is_digit 4 _ _ y) by assumption. cbv beta.
      rewrite exec_cat, exec_lit. cbv beta. rewrite exec_cat.
      rewrite (exec_times is_digit 2 _ _ m) by assumption. cbv beta.
      rewrite exec_cat. unfold Opt. rewrite exec_alt, exec_lit_all. cbv beta.
      rewrite exec_py_eol_end. eauto.
    + rewrite (exec_times is_digit 4 _ _ y) by assumption. cbv beta.
      rewrite exec_cat, exec_lit. cbv beta. rewrite exec_cat.
      rewrite (exec_times is_digit 2 _ _ m) by assumption. cbv beta.
      rewrite exec_cat. unfold Opt. rewrite exec_alt.
      cbn [Lit]. rewrite exec_cat, exec_chr. cbn [Ascii.eqb Bool.eqb].
      rewrite exec_eps. unfold py_eol, Opt. rewrite exec_cat, exec_alt, exec_chr.
      cbn [Ascii.eqb Bool.eqb]. rewrite exec_eol. eauto.
    + rewrite (exec_times is_digit 4 _ _ y) by assumption. cbv beta.
      rewrite exec_cat, exec_lit. cbv beta. rewrite exec_cat.
      rewrite (exec_times is_digit 2 _ _ m) by assumption. cbv beta.
      rewrite exec_cat. unfold Opt. rewrite exec_alt.
      rewrite (exec_lit "/"). cbv beta.
      unfold py_eol, Opt. rewrite exec_cat, exec_alt, exec_chr.
      cbn [Ascii.eqb Bool.eqb]. rewrite exec_eol. eauto.
Qed.

(** ** Splitting and stripping dated names *)

Lemma digits_no_char (n : nat) (s : string) (c : ascii) :
  is_digit c = false -> digits n s = true -> no_char c s.
Proof.
  intros Hc H. apply digits_spec in H as [_ H]. unfold no_char. clear n.
  induction s as [|x s IH]; [reflexivity|].
  cbn [list_ascii_of_string forallb] in *. apply andb_prop in H as [Hx Hs].
  rewrite IH by exact Hs. rewrite Bool.andb_true_r.
  destruct (Ascii.eqb_spec x c) as [->|]; [congruence | reflexivity].
Qed.

Lemma no_char_app (c : ascii) (a b : string) :
  no_char c a -> no_char c b -> no_char c (a +:+ b).
Proof.
  unfold no_char. induction a as [|x a IH]; intros Ha Hb; [exact Hb|].
  change (String x a +:+ b) with (String x (a +:+ b)).
  cbn [list_ascii_of_string forallb] in *. apply andb_prop in Ha as [Hx Ha].
  now rewrite Hx, IH.
Qed.

Lemma split_no_sep (sep : ascii) (s : string) : no_char sep s -> Py.split sep s = [s].
Proof.
  unfold no_char. induction s as [|x s IH]; intros H; [reflexivity|].
  cbn [list_ascii_of_string forallb] in H. apply andb_prop in H as [Hx Hs].
  cbn [Py.split]. apply Bool.negb_true_iff in Hx. rewrite Hx, IH by exact Hs. reflexivity.
Qed.

Lemma split_field (sep : ascii) (a rest : string) :
  no_char sep a -> Py.split sep (a +:+ String sep rest) = a :: Py.split sep rest.
Proof.
  unfold no_char. induction a as [|x a IH]; intros H.
  - change ("" +:+ String sep rest) with (String sep rest).
    cbn [Py.split]. now rewrite Ascii.eqb_refl.
  - cbn [list_ascii_of_string forallb] in H. apply andb_prop in H as [Hx Ha].
    change (String x a +:+ String sep rest) with (String x (a +:+ String sep rest)).
    cbn [Py.split]. apply Bool.negb_true_iff in Hx. rewrite Hx, IH by exact Ha. reflexivity.
Qed.

Lemma before_last_dot_app (x ext : string) :
  no_char "." ext ->
  before_last_dot (x +:+ String "." ext) = Some x.
Proof.
  intros He.
  assert (Hext : before_last_dot ext = None).
  { unfold no_char in He. induction ext as [|c e IH]; [reflexivity|].
    cbn [list_ascii_of_string forallb] in He. apply andb_prop in He as [Hc He].
    cbn [before_last_dot]. rewrite IH by exact He.
    apply Bool.negb_true_iff in Hc. now rewrite Hc. }
  induction x as [|c x IH].
  - change ("" +:+ String "." ext) with (String "." ext).
    cbn [before_last_dot]. rewrite Hext. reflexivity.
  - change (String c x +:+ String "." ext) with (String c (x +:+ String "." ext)).
    cbn [before_last_dot]. now rewrite IH.
Qed.

(** The stem of a name that ends in [.ready]. *)
Lemma stem_ready (x : string) :
  stem (x +:+ ".ready") = if Py.truthy x then x else ".ready".
Proof.
  unfold stem. change ".ready" with (String "." "ready") at 1 2.
  rewrite before_last_dot_app by reflexivity.
  rewrite length_append. destruct x as [|c x]; [reflexivity|].
  replace (0 <? String.length (String c x))%nat with true
    by (symmetry; apply Nat.ltb_lt; cbn [String.length]; lia).
  replace (String.length (String c x)
           <? String.length (String c x) + String.length (String "." "ready") - 1)%nat
    with true by (symmetry; apply Nat.ltb_lt; cbn [String.length]; lia).
  reflexivity.
Qed.

Lemma digits_length (n : nat) (s : string) : digits n s = true -> String.length s = n.
Proof. intros H. now apply digits_spec in H. Qed.

Lemma newline_no_dash (d0 d : string) :
  digits 2 d0 = true -> d = d0 \/ d = d0 +:+ String "010" "" -> no_char "-" d.
Proof.
  intros Hd [->| ->].
  - now apply (digits_no_char 2).
  - apply no_char_app; [now apply (digits_no_char 2) | reflexivity].
Qed.

Lemma field_length (d0 d : string) :
  digits 2 d0 = true -> d = d0 \/ d = d0 +:+ String "010" "" ->
  (2 <= String.length d <= 3)%nat.
Proof.
  intros Hd [->| ->]; [|rewrite length_append]; rewrite (digits_length 2 d0 Hd);
    cbn [String.length]; lia.
Qed.

(** The date part [y-m] is taken for a monthly date and never for a
    daily one; [y-m-d] is taken for a daily date. *)
Lemma monthly_date (y m0 m : string) :
  digits 4 y = true -> digits 2 m0 = true ->
  m = m0 \/ m = m0 +:+ String "010" "" ->
  Receiver2.matches daily_re (y +:+ "-" +:+ m) = false /\
  Receiver2.matches monthly_re (y +:+ "-" +:+ m) = true /\
  Py.split "-" (y +:+ "-" +:+ m) = [y; m].
Proof.
  intros Hy Hm0 Hm. split; [|split].
  - apply Bool.not_true_iff_false. intros H.
    apply daily_re_spec in H as (y' & m' & d' & Hy' & Hm' & Hd' & E).
    pose proof (field_length m0 m Hm0 Hm) as L.
    apply digits_length in Hy, Hy', Hm', Hd'.
    destruct E as [E|E]; apply (f_equal String.length) in E;
      rewrite !length_append in E; cbn [String.length] in E; lia.
  - apply monthly_re_spec. exists y, m0. split; [exact Hy|]. split; [exact Hm0|].
    destruct Hm as [->| ->]; auto.
  - change (y +:+ "-" +:+ m) with (y +:+ String "-" m).
    rewrite split_field by now apply (digits_no_char 4).
    rewrite split_no_sep by now apply (newline_no_dash m0). reflexivity.
Qed.

Lemma daily_date (y m d0 d : string) :
  digits 4 y = true -> digits 2 m = true -> digits 2 d0 = true ->
  d = d0 \/ d = d0 +:+ String "010" "" ->
  Receiver2.matches daily_re (y +:+ "-" +:+ m +:+ "-" +:+ d) = true /\
  Py.split "-" (y +:+ "-" +:+ m +:+ "-" +:+ d) = [y; m; d].
Proof.
  intros Hy Hm Hd0 Hd. split.
  - apply daily_re_spec. exists y, m, d0. split; [exact Hy|]. split; [exact Hm|].
    split; [exact Hd0|]. destruct Hd as [->| ->]; auto.
  - change (y +:+ "-" +:+ m +:+ "-" +:+ d) with (y +:+ String "-" (m +:+ String "-" d)).
    rewrite split_field by now apply (digits_no_char 4).
    rewrite split_field by now apply (digits_no_char 2).
    rewrite split_no_sep by now apply (newline_no_dash d0). reflexivity.
Qed.

(** What [get_ready_jobs] makes of one name of the directory. *)
Lemma ready_job_of_name (x : string) (j : ready_job) :
  In j (let date_str := stem (x +:+ ".ready") in
        if Receiver2.matches daily_re date_str then
          match Py.split "-"%char date_str with
          | [year; month; day] => [Daily year month day]
          | _ => []
          end
        else if Receiver2.matches monthly_re date_str then
          match Py.split "-"%char date_str with
          | [year; month] => [Monthly year month]
          | _ => []
          end
        else []) <->
  match j with
  | Monthly y m =>
      x = y +:+ "-" +:+ m /\ digits 4 y = true /\
      exists m0, digits 2 m0 = true /\ (m = m0 \/ m = m0 +:+ String "010" "")
  | Daily y m d =>
      x = y +:+ "-" +:+ m +:+ "-" +:+ d /\ digits 4 y = true /\ digits 2 m = true /\
      exists d0, digits 2 d0 = true /\ (d = d0 \/ d = d0 +:+ String "010" "")
  end.
Proof.
  cbv zeta. rewrite stem_ready. destruct x as [|c x].
  { cbn [Py.truthy].
    replace (Receiver2.matches daily_re ".ready") with false by (vm_compute; reflexivity).
    replace (Receiver2.matches monthly_re ".ready") with false by (vm_compute; reflexivity).
    split; [intros []|]. destruct j as [y m|y m d]; intros (E & Hy & _);
      apply digits_length in Hy; destruct y; discriminate. }
  cbn [Py.truthy]. set (s := String c x).
  destruct (Receiver2.matches daily_re s) eqn:Ed.
  - apply daily_re_spec in Ed as (y & m & d0 & Hy & Hm & Hd0 & E).
    assert (Hd : exists d, (d = d0 \/ d = d0 +:+ String "010" "") /\
                           s = y +:+ "-" +:+ m +:+ "-" +:+ d).
    { destruct E as [E|E]; [exists d0 | exists (d0 +:+ String "010" "")]; auto. }
    destruct Hd as (d & Hd & Es). rewrite Es.
    destruct (daily_date y m d0 d Hy Hm Hd0 Hd) as [_ ->]. cbn [In]. split.
    + intros [<-|[]]. split; [reflexivity|]. split; [exact Hy|]. split; [exact Hm|]. eauto.
    + destruct j as [y' m'|y' m' d'].
      * intros (E' & Hy' & m0 & Hm0 & Hm').
        destruct (monthly_date y' m0 m' Hy' Hm0 Hm') as (Hno & _).
        rewrite <- E' in Hno.
        assert (Hyes : Receiver2.matches daily_re (y +:+ "-" +:+ m +:+ "-" +:+ d) = true)
          by apply (daily_date y m d0 d Hy Hm Hd0 Hd).
        congruence.
      * intros (E' & Hy' & Hm' & d0' & Hd0' & Hd').
        destruct (daily_date y' m' d0' d' Hy' Hm' Hd0' Hd') as [_ S'].
        destruct (daily_date y m d0 d Hy Hm Hd0 Hd) as [_ S].
        rewrite <- E', S in S'. injection S' as -> -> ->. now left.
  - destruct (Receiver2.matches monthly_re s) eqn:Em.
    + apply monthly_re_spec in Em as (y & m0 & Hy & Hm0 & E).
      assert (Hm : exists m, (m = m0 \/ m = m0 +:+ String "010" "") /\
                             s = y +:+ "-" +:+ m).
      { destruct E as [E|E]; [exists m0 | exists (m0 +:+ String "010" "")]; auto. }
      destruct Hm as (m & Hm & Es). rewrite Es.
      destruct (monthly_date y m0 m Hy Hm0 Hm) as (_ & _ & ->). cbn [In]. split.
      * intros [<-|[]]. split; [reflexivity|]. split; [exact Hy|]. eauto.
      * destruct j as [y' m'|y' m' d'].
        -- intros (E' & Hy' & m0' & Hm0' & Hm').
           destruct (monthly_date y' m0' m' Hy' Hm0' Hm') as (_ & _ & S').
           destruct (monthly_date y m0 m Hy Hm0 Hm) as (_ & _ & S).
           rewrite <- E', S in S'. injection S' as -> ->. now left.
        -- intros (E' & Hy' & Hm' & d0' & Hd0' & Hd').
           destruct (daily_date y' m' d0' d' Hy' Hm' Hd0' Hd') as [Hyes _].
           rewrite <- E', <- Es in Hyes. congruence.
    + split; [intros []|]. destruct j as [y m|y m d].
      * intros (E & Hy & m0 & Hm0 & Hm).
        destruct (monthly_date y m0 m Hy Hm0 Hm) as (_ & Hyes & _).
        rewrite <- E in Hyes. congruence.
      * intros (E & Hy & Hm & d0 & Hd0 & Hd).
        destruct (daily_date y m d0 d Hy Hm Hd0 Hd) as [Hyes _].
        rewrite <- E in Hyes. congruence.
Qed.

(** X19.  [get_ready_jobs] returns [(year, month)] exactly for the
    files [<year>-<month>.ready] of the ready directory and
    [(year, month, day)] exactly for the files
    [<year>-<month>-<day>.ready], where the year has four digits and
    the month and the day two.  The last field may carry a line feed
    at its end, which the [$] of the pattern lets pass: the tuple
    then holds the field with the line feed.  No other name of the
    directory gives a job. *)
Theorem ready_jobs_are_the_dated_ready_files (names : list string) (j : ready_job) :
  In j (get_ready_jobs names) <->
  match j with
  | Monthly y m =>
      In (y +:+ "-" +:+ m +:+ ".ready") names /\ digits 4 y = true /\
      exists m0, digits 2 m0 = true /\ (m = m0 \/ m = m0 +:+ String "010" "")
  | Daily y m d =>
      In (y +:+ "-" +:+ m +:+ "-" +:+ d +:+ ".ready") names /\
      digits 4 y = true /\ digits 2 m = true /\
      exists d0, digits 2 d0 = true /\ (d = d0 \/ d = d0 +:+ String "010" "")
  end.
Proof.
  unfold get_ready_jobs. rewrite in_flat_map. split.
  - intros (name & Hname & Hj). apply filter_In in Hname as [Hin Hglob].
    apply glob_suffix_spec in Hglob as [x ->].
    apply ready_job_of_name in Hj. destruct j as [y m|y m d].
    + destruct Hj as (-> & H). split; [|exact H]. now rewrite !append_assoc in Hin.
    + destruct Hj as (-> & H). split; [|exact H]. now rewrite !append_assoc in Hin.
  - destruct j as [y m|y m d].
    + intros (Hin & H). exists ((y +:+ "-" +:+ m) +:+ ".ready"). split.
      * apply filter_In. split; [now rewrite !append_assoc|].
        apply glob_suffix_spec. eauto.
      * apply ready_job_of_name. auto.
    + intros (Hin & H). exists ((y +:+ "-" +:+ m +:+ "-" +:+ d) +:+ ".ready"). split.
      * apply filter_In. split; [now rewrite !append_assoc|].
        apply glob_suffix_spec. eauto.
      * apply ready_job_of_name. auto.
Qed.
End DatedFacts.

(* ===================================================================== *)
(** * The monthly folders of the listing *)
(* ===================================================================== *)

Section FolderFacts.
Import Regex Dated Transformer Transitions.

Lemma append_String (x : ascii) (a b : string) : String x a +:+ b = String x (a +:+ b).
Proof. reflexivity. Qed.

(** [rstrip('/')] looks at the end of the name only. *)
Lemma rstrip_slash_end (a b : string) :
  rstrip_slash b <> "" -> rstrip_slash (a +:+ b) = a +:+ rstrip_slash b.
Proof.
  intros Hb. induction a as [|x a IH]; [reflexivity|].
  rewrite !append_String. cbn [rstrip_slash]. rewrite IH.
  destruct a as [|x' a]; rewrite ?append_String; [|reflexivity].
  change ("" +:+ rstrip_slash b) with (rstrip_slash b).
  destruct (rstrip_slash b); [contradiction|reflexivity].
Qed.

Lemma rstrip_slash_month (m : string) (tail : string) :
  digits 2 m = true ->
  In tail [""; "/"; String "010" ""; "/" +:+ String "010" ""] ->
  rstrip_slash (m +:+ tail) <> "" /\
  rstrip_slash (m +:+ tail) = m +:+ (if String.eqb tail "/" then "" else tail).
Proof.
  intros Hm Ht. apply digits_spec in Hm as [Hl Hd].
  destruct m as [|a [|b [|c m]]]; try discriminate. clear Hl.
  cbn [list_ascii_of_string forallb] in Hd.
  apply Bool.andb_true_iff in Hd as [Ha Hd]. apply Bool.andb_true_iff in Hd as [Hb _].
  assert (Eb : Ascii.eqb b "/" = false).
  { apply Ascii.eqb_neq. intros ->. discriminate. }
  cbn [In] in Ht. destruct Ht as [<-|[<-|[<-|[<-|[]]]]];
    rewrite ?append_String; change ("" +:+ ?t) with t;
    cbn [rstrip_slash String.eqb Ascii.eqb Bool.eqb]; rewrite ?Eb;
    split; (discriminate || reflexivity).
Qed.

(** What becomes of a link that is taken for a monthly folder. *)
Lemma rstrip_slash_folder (y m tail : string) :
  digits 2 m = true ->
  In tail [""; "/"; String "010" ""; "/" +:+ String "010" ""] ->
  rstrip_slash (y +:+ "-" +:+ m +:+ tail) =
  y +:+ "-" +:+ m +:+ (if String.eqb tail "/" then "" else tail).
Proof.
  intros Hm Ht. destruct (rstrip_slash_month m tail Hm Ht) as [Hne E].
  rewrite rstrip_slash_end.
  - rewrite rstrip_slash_end by exact Hne. now rewrite E.
  - rewrite rstrip_slash_end by exact Hne. discriminate.
Qed.

(** [list.sort] on names. *)
Lemma insert_name_perm (x : string) (l : list string) :
  Permutation (insert_name x l) (x :: l).
Proof.
  induction l as [|y l IH]; cbn [insert_name]; [reflexivity|].
  destruct (str_cmp x y); try reflexivity.
  rewrite IH. apply perm_swap.
Qed.

Lemma sort_names_perm (l : list string) : Permutation (sort_names l) l.
Proof.
  induction l as [|x l IH]; cbn [sort_names fold_right]; [reflexivity|].
  fold (sort_names l). rewrite insert_name_perm. now constructor.
Qed.

Lemma name_le_trans (a b c : string) :
  str_cmp a b <> Gt -> str_cmp b c <> Gt -> str_cmp a c <> Gt.
Proof.
  destruct str_cmp_good as (Heq & _ & Htr). intros Hab Hbc.
  destruct (str_cmp a b) eqn:Eab; [| |contradiction].
  - apply Heq in Eab. now subst b.
  - destruct (str_cmp b c) eqn:Ebc; [| |contradiction].
    + apply Heq in Ebc. subst c. now rewrite Eab.
    + now rewrite (Htr a b c Eab Ebc).
Qed.

Lemma insert_name_sorted (x : string) (l : list string) :
  StronglySorted (fun a b => str_cmp a b <> Gt) l ->
  StronglySorted (fun a b => str_cmp a b <> Gt) (insert_name x l).
Proof.
  destruct str_cmp_good as (_ & Hopp & _).
  induction 1 as [|y l Hs IH Hy]; cbn [insert_name]; [repeat constructor|].
  destruct (str_cmp x y) eqn:E.
  - constructor; [now constructor|]. constructor; [now rewrite E|].
    eapply Forall_impl; [|exact Hy]. intros z Hz. cbv beta in Hz |- *.
    apply (name_le_trans x y z); [now rewrite E|exact Hz].
  - constructor; [now constructor|]. constructor; [now rewrite E|].
    eapply Forall_impl; [|exact Hy]. intros z Hz. cbv beta in Hz |- *.
    apply (name_le_trans x y z); [now rewrite E|exact Hz].
  - constructor; [exact IH|].
    apply (Permutation_Forall (Permutation_sym (insert_name_perm x l))).
    constructor; [|exact Hy]. rewrite Hopp, E. discriminate.
Qed.

Lemma sort_names_sorted (l : list string) :
  StronglySorted (fun a b => str_cmp a b <> Gt) (sort_names l).
Proof.
  induction l as [|x l IH]; cbn [sort_names fold_right]; [constructor|].
  now apply insert_name_sorted.
Qed.

(** X20.  [discover_folders] returns the links of the listing that
    read [<year>-<month>] or [<year>-<month>/], year of four digits
    and month of two, without the slash at the end, as often as the
    listing has them: a month linked with and without the slash comes
    twice.  A link with a line feed at its end passes the pattern too
    and is returned as it is, with its slash if it has one.  Nothing
    else is returned. *)
Theorem discovered_folders_are_the_monthly_links (hrefs : list string) :
  Permutation (discover_folders hrefs) (map rstrip_slash (filter _is_monthly_folder hrefs)) /\
  forall f : string,
    In f (discover_folders hrefs) <->
    exists y m, digits 4 y = true /\ digits 2 m = true /\
      ((f = y +:+ "-" +:+ m /\
        (In (y +:+ "-" +:+ m) hrefs \/ In (y +:+ "-" +:+ m +:+ "/") hrefs)) \/
       (f = y +:+ "-" +:+ m +:+ String "010" "" /\ In f hrefs) \/
       (f = y +:+ "-" +:+ m +:+ "/" +:+ String "010" "" /\ In f hrefs)).
Proof.
  assert (Hp : Permutation (discover_folders hrefs)
                 (map rstrip_slash (filter _is_monthly_folder hrefs)))
    by apply sort_names_perm.
  split; [exact Hp|]. intros f. split.
  - intros Hf. apply (Permutation_in _ Hp) in Hf.
    apply in_map_iff in Hf as (h & <- & Hh). apply filter_In in Hh as [Hin Hm].
    apply monthly_folder_re_spec in Hm as (y & m & Hy & Hm & Hcase).
    exists y, m. split; [exact Hy|]. split; [exact Hm|].
    cbn [In] in Hcase. destruct Hcase as [<-|[<-|[<-|[<-|[]]]]].
    + left. rewrite <- (append_empty m) at 1.
      rewrite (rstrip_slash_folder y m "" Hm) by (cbn; auto).
      cbn [String.eqb]. rewrite append_empty. split; [reflexivity|]. now left.
    + left. rewrite (rstrip_slash_folder y m "/" Hm) by (cbn; auto).
      cbn [String.eqb Ascii.eqb Bool.eqb andb]. rewrite append_empty.
      split; [reflexivity|]. now right.
    + right; left. rewrite (rstrip_slash_folder y m (String "010" "") Hm) by (cbn; auto).
      cbn [String.eqb Ascii.eqb Bool.eqb andb]. split; [reflexivity|exact Hin].
    + right; right.
      rewrite (rstrip_slash_folder y m ("/" +:+ String "010" "") Hm) by (cbn; auto).
      rewrite ?append_String; change ("" +:+ String "010" "") with (String "010" ""); cbn [String.eqb Ascii.eqb Bool.eqb andb]. split; [reflexivity|exact Hin].
  - intros (y & m & Hy & Hm & Hcase).
    apply (Permutation_in _ (Permutation_sym Hp)). apply in_map_iff.
    assert (Hin : forall tail,
               In tail [""; "/"; String "010" ""; "/" +:+ String "010" ""] ->
               In (y +:+ "-" +:+ m +:+ tail) hrefs ->
               In (y +:+ "-" +:+ m +:+ tail) (filter _is_monthly_folder hrefs)).
    { intros tail Ht Hh. apply filter_In. split; [exact Hh|].
      apply monthly_folder_re_spec. exists y, m. split; [exact Hy|]. split; [exact Hm|].
      cbn [In] in Ht |- *. destruct Ht as [<-|[<-|[<-|[<-|[]]]]]; auto. 
      left. now rewrite append_empty. }
    destruct Hcase as [[-> [Hh|Hh]]|[[-> Hh]|[-> Hh]]].
    + exists (y +:+ "-" +:+ m +:+ ""). split.
      * rewrite (rstrip_slash_folder y m "" Hm) by (cbn; auto).
        cbn [String.eqb]. now rewrite append_empty.
      * apply Hin; [cbn; auto|]. now rewrite append_empty.
    + exists (y +:+ "-" +:+ m +:+ "/"). split.
      * rewrite (rstrip_slash_folder y m "/" Hm) by (cbn; auto).
        cbn [String.eqb Ascii.eqb Bool.eqb andb]. now rewrite append_empty.
      * apply Hin; [cbn; auto|exact Hh].
    + exists (y +:+ "-" +:+ m +:+ String "010" ""). split.
      * now rewrite (rstrip_slash_folder y m (String "010" "") Hm) by (cbn; auto).
      * apply Hin; [cbn; auto|exact Hh].
    + exists (y +:+ "-" +:+ m +:+ "/" +:+ String "010" ""). split.
      * now rewrite (rstrip_slash_folder y m ("/" +:+ String "010" "") Hm) by (cbn; auto).
      * apply (Hin ("/" +:+ String "010" "")); [cbn; auto|exact Hh].
Qed.

(** The order of the names against the order of the numbers. *)
Lemma int_of_digits_cons (c : ascii) (s : string) :
  int_of_digits (String c s) =
  ((Z.of_nat (nat_of_ascii c) - 48) * 10 ^ Z.of_nat (String.length s) + int_of_digits s)%Z.
Proof.
  unfold int_of_digits. cbn [list_ascii_of_string fold_left].
  generalize (Z.of_nat (nat_of_ascii c) - 48)%Z. intros d.
  replace (10 * 0 + d)%Z with d by lia.
  assert (H : forall (t : string) (acc : Z),
             fold_left (fun acc c => (10 * acc + (Z.of_nat (nat_of_ascii c) - 48))%Z)
               (list_ascii_of_string t) acc =
             (acc * 10 ^ Z.of_nat (String.length t) +
              fold_left (fun acc c => (10 * acc + (Z.of_nat (nat_of_ascii c) - 48))%Z)
                (list_ascii_of_string t) 0)%Z).
  { induction t as [|x t IH]; intros acc; cbn [list_ascii_of_string fold_left String.length].
    - cbn. lia.
    - rewrite IH. rewrite (IH (10 * 0 + _)%Z).
      rewrite Nat2Z.inj_succ, Z.pow_succ_r by lia. ring. }
  apply H.
Qed.

Lemma is_digit_range (c : ascii) :
  is_digit c = true -> (0 <= Z.of_nat (nat_of_ascii c) - 48 <= 9)%Z.
Proof.
  unfold is_digit, in_range. cbv zeta. rewrite Bool.andb_true_iff, !Nat.leb_le. lia.
Qed.

Lemma int_of_digits_bound (s : string) :
  forallb is_digit (list_ascii_of_string s) = true ->
  (0 <= int_of_digits s < 10 ^ Z.of_nat (String.length s))%Z.
Proof.
  induction s as [|c s IH]; [intros _; cbn; lia|].
  cbn [list_ascii_of_string forallb String.length]. rewrite Bool.andb_true_iff.
  intros [Hc Hs]. specialize (IH Hs). apply is_digit_range in Hc.
  rewrite int_of_digits_cons, Nat2Z.inj_succ, Z.pow_succ_r by lia. nia.
Qed.

Lemma digits_cmp (n : nat) (a b : string) :
  digits n a = true -> digits n b = true ->
  str_cmp a b = (int_of_digits a ?= int_of_digits b)%Z.
Proof.
  rewrite !digits_spec. intros [La Ha] [Lb Hb]. revert n b La Lb Ha Hb.
  induction a as [|x a IH]; intros n [|y b] La Lb Ha Hb;
    cbn [String.length] in La, Lb; try (subst n; discriminate); [reflexivity|].
  cbn [list_ascii_of_string forallb] in Ha, Hb.
  apply Bool.andb_true_iff in Ha as [Hx Ha]. apply Bool.andb_true_iff in Hb as [Hy Hb].
  destruct n as [|n]; [discriminate|]. injection La as La. injection Lb as Lb.
  pose proof (int_of_digits_bound a Ha) as Ba. pose proof (int_of_digits_bound b Hb) as Bb.
  rewrite La in Ba. rewrite Lb in Bb. rewrite !int_of_digits_cons, La, Lb.
  unfold str_cmp in *. cbn [String_as_OT.compare].
  unfold Ascii_as_OT.compare. 
  replace (N_as_OT.compare (N_of_ascii x) (N_of_ascii y))
    with (Z.of_nat (nat_of_ascii x) ?= Z.of_nat (nat_of_ascii y))%Z.
  2:{ unfold nat_of_ascii. rewrite !N_nat_Z. apply N2Z.inj_compare. }
  apply is_digit_range in Hx, Hy.
  assert (Hp : (0 < 10 ^ Z.of_nat n)%Z) by (apply Z.pow_pos_nonneg; lia).
  destruct (Z.compare_spec (Z.of_nat (nat_of_ascii x)) (Z.of_nat (nat_of_ascii y))) as [E|E|E].
  - rewrite E. rewrite (IH n b La Lb Ha Hb). symmetry. apply Z.add_compare_mono_l.
  - symmetry. apply Z.compare_lt_iff. nia.
  - symmetry. apply Z.compare_gt_iff. nia.
Qed.

Lemma str_cmp_fields (a b s t : string) :
  String.length a = String.length b ->
  str_cmp (a +:+ s) (b +:+ t) =
  match str_cmp a b with Eq => str_cmp s t | c => c end.
Proof.
  unfold str_cmp. revert b. induction a as [|x a IH]; intros [|y b] L;
    try discriminate; [reflexivity|].
  rewrite !append_String. cbn [String_as_OT.compare]. destruct (Ascii_as_OT.compare x y); try reflexivity.
  apply IH. now injection L.
Qed.

Lemma month_order (y m y' m' : string) :
  digits 4 y = true -> digits 2 m = true -> digits 4 y' = true -> digits 2 m' = true ->
  str_cmp (y +:+ "-" +:+ m) (y' +:+ "-" +:+ m') =
  match (int_of_digits y ?= int_of_digits y')%Z with
  | Eq => (int_of_digits m ?= int_of_digits m')%Z
  | c => c
  end.
Proof.
  intros Hy Hm Hy' Hm'.
  rewrite str_cmp_fields
    by now rewrite (digits_length 4 y Hy), (digits_length 4 y' Hy').
  rewrite (digits_cmp 4 y y' Hy Hy').
  destruct (int_of_digits y ?= int_of_digits y')%Z; try reflexivity.
  rewrite (str_cmp_fields "-" "-") by reflexivity.
  exact (digits_cmp 2 m m' Hm Hm').
Qed.

(** X21.  The folders [discover_folders] returns are in ascending
    order of their names, and for the names [<year>-<month>] this is
    the order of time: of two of them the one that comes first has
    the earlier year, or the same year and no later month. *)
Theorem discovered_folders_are_chronological (hrefs : list string) :
  StronglySorted (fun a b => str_cmp a b <> Gt) (discover_folders hrefs) /\
  forall (before between after : list string) (y m y' m' : string),
    discover_folders hrefs =
      before ++ (y +:+ "-" +:+ m) :: between ++ (y' +:+ "-" +:+ m') :: after ->
    digits 4 y = true -> digits 2 m = true ->
    digits 4 y' = true -> digits 2 m' = true ->
    (int_of_digits y < int_of_digits y')%Z \/
    (int_of_digits y = int_of_digits y' /\ (int_of_digits m <= int_of_digits m')%Z).
Proof.
  assert (Hs : StronglySorted (fun a b => str_cmp a b <> Gt) (discover_folders hrefs))
    by apply sort_names_sorted.
  split; [exact Hs|].
  intros before between after y m y' m' E Hy Hm Hy' Hm'. rewrite E in Hs.
  apply StronglySorted_app in Hs as (_ & Hs & _).
  apply StronglySorted_inv in Hs as [_ Hall].
  rewrite Forall_forall in Hall.
  assert (Hle : str_cmp (y +:+ "-" +:+ m) (y' +:+ "-" +:+ m') <> Gt).
  { apply Hall. apply in_or_app. right. now left. }
  rewrite (month_order y m y' m' Hy Hm Hy' Hm') in Hle.
  destruct (Z.compare_spec (int_of_digits y) (int_of_digits y')) as [Ey|Ey|Ey].
  - right. split; [exact Ey|]. now apply Z.compare_le_iff.
  - now left.
  - contradiction.
Qed.
End FolderFacts.

(* ===================================================================== *)
(** * The shape of a parsed host list *)
(* ===================================================================== *)

Section HostListFacts.
Import Consumer.

(** [strip] leaves nothing to strip. *)
Lemma rstrip_twice (s : string) : Py.rstrip (Py.rstrip s) = Py.rstrip s.
Proof.
  induction s as [|c s IH]; [reflexivity|]. cbn [Py.rstrip].
  destruct (Py.rstrip s) as [|d t] eqn:E.
  - destruct (Py.isspace c) eqn:Ec; [reflexivity|]. cbn [Py.rstrip]. now rewrite Ec.
  - change (Py.rstrip (String c (String d t)))
      with (match Py.rstrip (String d t) with
            | "" => if Py.isspace c then "" else String c ""
            | String a u => String c (String a u)
            end).
    now rewrite IH.
Qed.

Lemma lstrip_head (s : string) :
  match Py.lstrip s with "" => True | String c _ => Py.isspace c = false end.
Proof.
  induction s as [|c s IH]; [exact I|]. cbn [Py.lstrip].
  destruct (Py.isspace c) eqn:Ec; [exact IH|exact Ec].
Qed.

Lemma rstrip_head (c : ascii) (s : string) :
  Py.isspace c = false -> exists t, Py.rstrip (String c s) = String c t.
Proof.
  intros Hc. cbn [Py.rstrip]. destruct (Py.rstrip s) as [|d t]; [|eauto].
  rewrite Hc. eauto.
Qed.

Lemma strip_twice (s : string) : Py.strip (Py.strip s) = Py.strip s.
Proof.
  unfold Py.strip. pose proof (lstrip_head s) as H.
  destruct (Py.lstrip s) as [|c t]; [reflexivity|].
  destruct (rstrip_head c t H) as [u E]. rewrite E. cbn [Py.lstrip]. rewrite H.
  rewrite <- E. apply rstrip_twice.
Qed.

(** [sorted(set(...))] *)
Lemma compare_as_OT (a b : string) : String.compare a b = String_as_OT.compare a b.
Proof.
  revert b. induction a as [|x a IH]; intros [|y b]; reflexivity.
Qed.

Lemma name_lt_trans (a b c : string) :
  String.compare a b = Lt -> String.compare b c = Lt -> String.compare a c = Lt.
Proof.
  rewrite !compare_as_OT. destruct str_cmp_good as (_ & _ & Htr). apply Htr.
Qed.

Lemma insert_sorted_in (x y : string) (l : list string) :
  In y (Py.insert_sorted x l) <-> y = x \/ In y l.
Proof.
  induction l as [|z l IH]; cbn [Py.insert_sorted In]; [intuition auto|].
  destruct (String.compare x z) eqn:E; cbn [In].
  - apply String.compare_eq_iff in E. subst z. intuition auto.
  - intuition auto.
  - rewrite IH. intuition auto.
Qed.

Lemma sorted_set_in (y : string) (l : list string) : In y (Py.sorted_set l) <-> In y l.
Proof.
  induction l as [|x l IH]; cbn [Py.sorted_set fold_right In]; [reflexivity|].
  fold (Py.sorted_set l). rewrite insert_sorted_in, IH. intuition auto.
Qed.

Lemma insert_sorted_ascending (x : string) (l : list string) :
  StronglySorted (fun a b => String.compare a b = Lt) l ->
  StronglySorted (fun a b => String.compare a b = Lt) (Py.insert_sorted x l).
Proof.
  induction 1 as [|z l Hs IH Hz]; cbn [Py.insert_sorted]; [repeat constructor|].
  destruct (String.compare x z) eqn:E.
  - now constructor.
  - constructor; [now constructor|]. constructor; [exact E|].
    eapply Forall_impl; [|exact Hz]. intros w Hw. exact (name_lt_trans x z w E Hw).
  - constructor; [exact IH|]. apply Forall_forall. intros w Hw.
    apply insert_sorted_in in Hw as [->|Hw].
    + rewrite String.compare_antisym, E. reflexivity.
    + rewrite Forall_forall in Hz. now apply Hz.
Qed.

Lemma sorted_set_ascending (l : list string) :
  StronglySorted (fun a b => String.compare a b = Lt) (Py.sorted_set l).
Proof.
  induction l as [|x l IH]; cbn [Py.sorted_set fold_right]; [constructor|].
  now apply insert_sorted_ascending.
Qed.

(** What the last step of [extract_nodes] makes of the names found. *)
Lemma stripped_names (raw_nodes : list string) :
  Forall (fun n => Py.truthy n = true /\ Py.strip n = n)
    (Py.sorted_set (map Py.strip (filter (fun n => Py.truthy (Py.strip n)) raw_nodes))).
Proof.
  apply Forall_forall. intros n Hn. apply (proj1 (sorted_set_in _ _)) in Hn.
  apply in_map_iff in Hn as (r & <- & Hr). apply filter_In in Hr as [_ Hr].
  split; [exact Hr|apply strip_twice].
Qed.

(** X22.  A host list that [parse_host_list] gives is a list in
    braces of one or more names, each followed by [_C], separated by
    commas.  The names are not empty, have no white space at either
    end, and stand in strictly ascending order of their code points,
    so none comes twice. *)
Theorem host_list_is_sorted_and_suffixed (host_str : option string) (host_list : string) :
  parse_host_list host_str = Some host_list ->
  exists nodes : list string,
    nodes <> [] /\
    StronglySorted (fun a b => String.compare a b = Lt) nodes /\
    Forall (fun n => Py.truthy n = true /\ Py.strip n = n) nodes /\
    host_list = "{" +:+ Py.join "," (map (fun node => node +:+ "_C") nodes) +:+ "}".
Proof.
  unfold parse_host_list, extract_nodes. destruct host_str as [h|]; [|discriminate].
  cbv zeta.
  set (raw := match Regex.findall_g1 node_token h with
              | [] => _
              | _ :: _ => _
              end).
  destruct raw as [|r raw]; [discriminate|].
  pose proof (sorted_set_ascending
                (map Py.strip (filter (fun n => Py.truthy (Py.strip n)) (r :: raw)))) as Hs.
  pose proof (stripped_names (r :: raw)) as Hn.
  destruct (Py.sorted_set (map Py.strip (filter (fun n => Py.truthy (Py.strip n)) (r :: raw))))
    as [|n nodes]; [discriminate|].
  intros [= <-]. exists (n :: nodes).
  split; [discriminate|]. split; [exact Hs|]. split; [exact Hn|]. reflexivity.
Qed.
End HostListFacts.

Lemma host_list_is_sorted_and_suffixed_witness :
  Consumer.parse_host_list (Some "node7/0+node12/1+node7/2") = Some "{node12_C,node7_C}" /\
  exists nodes : list string,
    nodes <> [] /\
    StronglySorted (fun a b => String.compare a b = Lt) nodes /\
    Forall (fun n => Py.truthy n = true /\ Py.strip n = n) nodes /\
    "{node12_C,node7_C}" =
      "{" +:+ Py.join "," (map (fun node => node +:+ "_C") nodes) +:+ "}".
Proof.
  split; [vm_compute; reflexivity|].
  apply (host_list_is_sorted_and_suffixed (Some "node7/0+node12/1+node7/2")).
  vm_compute. reflexivity.
Defined.

(* ===================================================================== *)
(** * The run over the monthly folders *)
(* ===================================================================== *)

Section RunFacts.
Import Tracker.
#[local] Set Warnings "-clear-no-such-hyp".

Variable process_single_folder : string -> nat -> option bool.

Lemma visit_counts (st : loop_state) (x : nat * string) :
  (processed_count (visit process_single_folder st x)
   + failed_count (visit process_single_folder st x)
   = S (processed_count st + failed_count st))%nat /\
  processed_count (visit process_single_folder st x)
  = ((if succeeded process_single_folder x then 1 else 0) + processed_count st)%nat.
Proof.
  destruct x as [index folder_name]. unfold visit, succeeded. cbn [fst snd].
  destruct (process_single_folder folder_name index) as [[|]|];
    cbn [processed_count failed_count]; lia.
Qed.

Lemma loop_counts (l : list (nat * string)) (st : loop_state) :
  (processed_count (fold_left (visit process_single_folder) l st)
   + failed_count (fold_left (visit process_single_folder) l st)
   = processed_count st + failed_count st + List.length l)%nat /\
  processed_count (fold_left (visit process_single_folder) l st)
  = (processed_count st + List.length (filter (succeeded process_single_folder) l))%nat.
Proof.
  revert st. induction l as [|x l IH]; intros st; cbn [fold_left List.length filter]; [lia|].
  destruct (IH (visit process_single_folder st x)) as [-> ->].
  destruct (visit_counts st x) as [-> ->].
  destruct (succeeded process_single_folder x); cbn [List.length]; lia.
Qed.

Lemma enumerate_from_length {A : Type} (i : nat) (l : list A) :
  List.length (enumerate_from i l) = List.length l.
Proof. revert i. induction l as [|x l IH]; intros i; cbn; [reflexivity|]. now rewrite IH. Qed.

Lemma enumerate_from_app {A : Type} (i : nat) (l1 l2 : list A) :
  enumerate_from i (l1 ++ l2)
  = enumerate_from i l1 ++ enumerate_from (i + List.length l1) l2.
Proof.
  revert i. induction l1 as [|x l1 IH]; intros i; cbn [app enumerate_from List.length].
  - now rewrite Nat.add_0_r.
  - rewrite IH. now rewrite Nat.add_succ_comm.
Qed.

Lemma slice_to_in {A : Type} (n : Z) (l : list A) (x : A) : In x (slice_to n l) -> In x l.
Proof.
  unfold slice_to. destruct (n <? 0)%Z; intros H.
  - rewrite <- (firstn_skipn (List.length l - Z.to_nat (- n)) l). apply in_or_app. now left.
  - rewrite <- (firstn_skipn (Z.to_nat n) l). apply in_or_app. now left.
Qed.

Lemma slice_to_length {A : Type} (n : Z) (l : list A) :
  (List.length (slice_to n l) <= List.length l)%nat.
Proof. unfold slice_to. destruct (n <? 0)%Z; rewrite length_firstn; lia. Qed.

Lemma pending_not_processed (folders : list string) (max_folders : option Z)
    (t : ProcessingTracker) (g : string) :
  In g (pending_folders folders max_folders t) -> In g folders /\ g ∉ processed_folders t.
Proof.
  unfold pending_folders. cbv zeta. intros H.
  assert (Hf : In g (filter (fun folder => negb (is_processed t folder)) folders)).
  { destruct max_folders as [n|]; [|exact H].
    destruct (n =? 0)%Z; [exact H|]. now apply slice_to_in in H. }
  apply filter_In in Hf as [Hin Hp]. split; [exact Hin|].
  unfold is_processed in Hp. apply negb_true_iff in Hp. now apply bool_decide_eq_false in Hp.
Qed.

Lemma pending_length (folders : list string) (max_folders : option Z) (t : ProcessingTracker) :
  (List.length (pending_folders folders max_folders t) <= List.length folders)%nat.
Proof.
  unfold pending_folders. cbv zeta.
  pose proof (filter_length_le (fun folder => negb (is_processed t folder)) folders) as H.
  destruct max_folders as [n|]; [|exact H].
  destruct (n =? 0)%Z; [exact H|].
  pose proof (slice_to_length n (filter (fun folder => negb (is_processed t folder)) folders)).
  lia.
Qed.

(** X23.  [run_transformation] returns zero counts and leaves the
    tracker alone when no folder was discovered.  Otherwise every
    pending folder is counted once, as processed or as failed: the two
    counts add up to [total_folders], the number of pending folders,
    which is at most the number of folders discovered; [processed]
    counts the visits at which [process_single_folder] returned true;
    [folders_processed] lists the discovered folders the tracker has
    as processed at the end.  A [max_folders] of zero is taken as no
    limit. *)
Theorem run_counts_every_pending_folder (folders : list string) (max_folders : option Z)
    (t : ProcessingTracker) :
  match run_transformation process_single_folder folders max_folders t with
  | (t', NothingFound processed failed) =>
      folders = [] /\ t' = t /\ processed = 0%nat /\ failed = 0%nat
  | (t', Finished processed failed total_folders all_folders_found folders_processed) =>
      folders <> [] /\
      (processed + failed = total_folders)%nat /\
      total_folders = List.length (pending_folders folders max_folders t) /\
      (total_folders <= List.length folders)%nat /\
      processed = List.length (filter (succeeded process_single_folder)
                    (enumerate_from 0 (pending_folders folders max_folders t))) /\
      all_folders_found = folders /\
      folders_processed = filter (is_processed t') folders
  end /\
  pending_folders folders (Some 0%Z) t = pending_folders folders None t.
Proof.
  split; [|reflexivity].
  unfold run_transformation. destruct folders as [|f folders]; [repeat split|].
  cbv zeta.
  destruct (loop_counts (enumerate_from 0 (pending_folders (f :: folders) max_folders t))
              (mkLoop t 0 0)) as [Hsum Hp].
  rewrite enumerate_from_length in Hsum. cbn [processed_count failed_count] in Hsum, Hp.
  split; [discriminate|]. split; [exact Hsum|]. split; [reflexivity|].
  split; [apply pending_length|]. split; [exact Hp|]. split; reflexivity.
Qed.

(** What the loop does to one folder's marks. *)
Lemma visit_other (st : loop_state) (i : nat) (f g : string) :
  g <> f ->
  (g ∈ processed_folders (tracker (visit process_single_folder st (i, f)))
   <-> g ∈ processed_folders (tracker st)) /\
  (g ∈ failed_folders (tracker (visit process_single_folder st (i, f)))
   <-> g ∈ failed_folders (tracker st)).
Proof.
  intros Hne. unfold visit.
  destruct (process_single_folder f i) as [[|]|];
    cbn [tracker mark_processed mark_failed processed_folders failed_folders];
    split; set_solver.
Qed.

Lemma visit_this (st : loop_state) (i : nat) (g : string) :
  (g ∈ processed_folders (tracker (visit process_single_folder st (i, g)))
   <-> process_single_folder g i = Some true) /\
  (g ∈ failed_folders (tracker (visit process_single_folder st (i, g)))
   <-> process_single_folder g i <> Some true).
Proof.
  unfold visit.
  destruct (process_single_folder g i) as [[|]|];
    cbn [tracker mark_processed mark_failed processed_folders failed_folders];
    split; split; (congruence || set_solver).
Qed.

Lemma loop_other (l : list string) (i : nat) (st : loop_state) (g : string) :
  ~ In g l ->
  (g ∈ processed_folders
         (tracker (fold_left (visit process_single_folder) (enumerate_from i l) st))
   <-> g ∈ processed_folders (tracker st)) /\
  (g ∈ failed_folders
         (tracker (fold_left (visit process_single_folder) (enumerate_from i l) st))
   <-> g ∈ failed_folders (tracker st)).
Proof.
  revert i st. induction l as [|f l IH]; intros i st Hg; cbn [enumerate_from fold_left].
  - split; reflexivity.
  - assert (Hne : g <> f) by (intros ->; apply Hg; now left).
    assert (Hl : ~ In g l) by (intros H; apply Hg; now right).
    destruct (IH (S i) (visit process_single_folder st (i, f)) Hl) as [-> ->].
    now apply visit_other.
Qed.

Lemma loop_apart (l : list (nat * string)) (st : loop_state) :
  processed_folders (tracker st) ## failed_folders (tracker st) ->
  processed_folders (tracker (fold_left (visit process_single_folder) l st))
  ## failed_folders (tracker (fold_left (visit process_single_folder) l st)).
Proof.
  revert st. induction l as [|[i f] l IH]; intros st H; cbn [fold_left]; [exact H|].
  apply IH. unfold visit.
  destruct (process_single_folder f i) as [[|]|];
    cbn [tracker mark_processed mark_failed processed_folders failed_folders]; set_solver.
Qed.

Lemma loop_index (l : list string) (i : nat) (st : loop_state) :
  (last_processed_index (tracker st)
   <= last_processed_index
        (tracker (fold_left (visit process_single_folder) (enumerate_from i l) st))
   <= Z.max (last_processed_index (tracker st)) (Z.of_nat (i + List.length l) - 1))%Z.
Proof.
  revert i st. induction l as [|f l IH]; intros i st;
    cbn [enumerate_from fold_left List.length]; [lia|].
  specialize (IH (S i) (visit process_single_folder st (i, f))).
  assert (H : (last_processed_index (tracker st)
               <= last_processed_index (tracker (visit process_single_folder st (i, f)))
               <= Z.max (last_processed_index (tracker st)) (Z.of_nat i))%Z).
  { unfold visit. destruct (process_single_folder f i) as [[|]|];
      cbn [tracker mark_processed mark_failed last_processed_index]; lia. }
  lia.
Qed.

(** X24.  The run keeps a tracker in order: a folder is never marked
    as processed and as failed at once when none was before the run;
    the folders that were processed before the run stay processed,
    as they are not taken up again; the last processed index does
    not go down, and goes no higher than the number of pending
    folders less one. *)
Theorem run_keeps_the_tracker_in_order (folders : list string) (max_folders : option Z)
    (t : ProcessingTracker) :
  processed_folders t ## failed_folders t ->
  let t' := fst (run_transformation process_single_folder folders max_folders t) in
  processed_folders t' ## failed_folders t' /\
  processed_folders t ⊆ processed_folders t' /\
  (last_processed_index t <= last_processed_index t'
   <= Z.max (last_processed_index t)
        (Z.of_nat (List.length (pending_folders folders max_folders t)) - 1))%Z.
Proof.
  intros Hd. unfold run_transformation. destruct folders as [|f folders]; cbv zeta; cbn [fst].
  { split; [exact Hd|]. split; [set_solver|]. lia. }
  split; [now apply loop_apart|]. split.
  - intros g Hg.
    apply (loop_other (pending_folders (f :: folders) max_folders t) 0 (mkLoop t 0 0) g);
      [|exact Hg].
    intros Hin. apply pending_not_processed in Hin as [_ Hn]. contradiction.
  - apply (loop_index (pending_folders (f :: folders) max_folders t) 0 (mkLoop t 0 0)).
Qed.

(** X25.  After the run a pending folder is marked by its last visit:
    as processed when [process_single_folder] returned true at that
    visit, and as failed otherwise, whatever its earlier visits gave
    and whatever it was marked as before.  A folder that is visited
    twice, because the listing has it twice, can so end as failed
    after it was processed. *)
Theorem last_visit_decides_the_mark (folders : list string) (max_folders : option Z)
    (t : ProcessingTracker) (before after : list string) (g : string) :
  folders <> [] ->
  pending_folders folders max_folders t = before ++ g :: after ->
  ~ In g after ->
  let t' := fst (run_transformation process_single_folder folders max_folders t) in
  is_processed t' g = succeeded process_single_folder (List.length before, g) /\
  is_failed t' g = negb (succeeded process_single_folder (List.length before, g)).
Proof.
  intros Hne Hp Hg. unfold run_transformation.
  destruct folders as [|f folders]; [contradiction|]. cbv zeta. cbn [fst].
  rewrite Hp, enumerate_from_app, fold_left_app. cbn [enumerate_from fold_left Nat.add].
  set (st := fold_left (visit process_single_folder) (enumerate_from 0 before) (mkLoop t 0 0)).
  destruct (loop_other after (S (List.length before))
              (visit process_single_folder st (List.length before, g)) g Hg) as [H1 H2].
  destruct (visit_this st (List.length before) g) as [H3 H4].
  unfold is_processed, is_failed, succeeded. cbn [fst snd].
  destruct (process_single_folder g (List.length before)) as [[|]|] eqn:E.
  - split.
    + apply bool_decide_eq_true. apply H1, H3. reflexivity.
    + apply bool_decide_eq_false. rewrite H2, H4. intros H. now apply H.
  - split.
    + apply bool_decide_eq_false. rewrite H1, H3. discriminate.
    + apply bool_decide_eq_true. apply H2, H4. discriminate.
  - split.
    + apply bool_decide_eq_false. rewrite H1, H3. discriminate.
    + apply bool_decide_eq_true. apply H2, H4. discriminate.
Qed.
End RunFacts.

Lemma run_keeps_the_tracker_in_order_witness :
  Tracker.processed_folders Tracker.new_tracker ## Tracker.failed_folders Tracker.new_tracker /\
  let t' := fst (Tracker.run_transformation Tracker.outcome_2013
                   ["2013-01"; "2013-02"; "2014-01"] None Tracker.new_tracker) in
  Tracker.processed_folders t' ## Tracker.failed_folders t' /\
  Tracker.processed_folders Tracker.new_tracker ⊆ Tracker.processed_folders t' /\
  (Tracker.last_processed_index Tracker.new_tracker <= Tracker.last_processed_index t'
   <= Z.max (Tracker.last_processed_index Tracker.new_tracker)
        (Z.of_nat (List.length (Tracker.pending_folders ["2013-01"; "2013-02"; "2014-01"]
                                  None Tracker.new_tracker)) - 1))%Z.
Proof.
  assert (H : Tracker.processed_folders Tracker.new_tracker
              ## Tracker.failed_folders Tracker.new_tracker) by (cbn; set_solver).
  split; [exact H|].
  exact (run_keeps_the_tracker_in_order Tracker.outcome_2013
           ["2013-01"; "2013-02"; "2014-01"] None Tracker.new_tracker H).
Defined.

Lemma last_visit_decides_the_mark_witness :
  ["2013-01"; "2014-01"; "2013-01"] <> [] /\
  Tracker.pending_folders ["2013-01"; "2014-01"; "2013-01"] None Tracker.new_tracker
  = ["2013-01"; "2014-01"] ++ "2013-01" :: [] /\
  ~ In "2013-01" [] /\
  let t' := fst (Tracker.run_transformation Tracker.outcome_2013
                   ["2013-01"; "2014-01"; "2013-01"] None Tracker.new_tracker) in
  Tracker.is_processed t' "2013-01"
  = Tracker.succeeded Tracker.outcome_2013 (List.length ["2013-01"; "2014-01"], "2013-01") /\
  Tracker.is_failed t' "2013-01"
  = negb (Tracker.succeeded Tracker.outcome_2013
            (List.length ["2013-01"; "2014-01"], "2013-01")).
Proof.
  assert (H1 : ["2013-01"; "2014-01"; "2013-01"] <> []) by discriminate.
  assert (H2 : Tracker.pending_folders ["2013-01"; "2014-01"; "2013-01"] None
                 Tracker.new_tracker
               = ["2013-01"; "2014-01"] ++ "2013-01" :: []) by (vm_compute; reflexivity).
  assert (H3 : ~ In "2013-01" (@nil string)) by (intros []).
  split; [exact H1|]. split; [exact H2|]. split; [exact H3|].
  exact (last_visit_decides_the_mark Tracker.outcome_2013
           ["2013-01"; "2014-01"; "2013-01"] None Tracker.new_tracker
           ["2013-01"; "2014-01"] [] "2013-01" H1 H2 H3).
Defined.
